(** * react-static-render

  A shallow embedding of the render scheduler, the per-file render
  operation, the command-line render action, the dependency watcher, the
  template-merge engines and the render worker of react-static-render,
  together with the properties established about them.

  Conventions.  A JavaScript [string] is a Rocq [string] (one [ascii] per
  code unit).  A [Map<string, Set<string>>] is a [gmap string (gset string)].
  A function that may throw, reject or call [process.exit] returns a
  [Completion].  The outside world (child processes, the file system, the
  module loader, path resolution) is passed in explicitly. *)

From Stdlib Require Import ZArith Lia Ascii String List.
From stdpp Require Import gmap strings list fin_maps pretty.

Set Warnings "-register-all,-clear-no-such-hyp".
Local Open Scope Z_scope.
Local Open Scope nat_scope.

(* ===================================================================== *)
(** * JavaScript values and control flow *)
(* ===================================================================== *)

Module Js.

(** The classes of error objects the sources construct. *)
Inductive ErrorClass : Type :=
| ClsError            (* new Error(...) *)
| ClsTypeError        (* new TypeError(...) *)
| ClsRenderError      (* new RenderError(...) *)
| ClsProcessError     (* the rejection value of a failed child process *)
| ClsAnonTemplate.    (* the anonymous class of BaseTemplateEngine.createTemplateError *)

(** The extra properties of the error a failed child process is rejected
    with: its captured standard error and its exit code. *)
Record ProcessInfo : Type := {
  stderr : option string;
  exitCode : option Z;
}.

Inductive JsError : Type :=
  MkError (cls : ErrorClass) (message : string) (code : option string)
          (filePath : option string) (cause : option JsError)
          (process : option ProcessInfo).

Definition message (e : JsError) : string :=
  match e with MkError _ m _ _ _ _ => m end.
Definition code (e : JsError) : option string :=
  match e with MkError _ _ c _ _ _ => c end.
Definition filePath (e : JsError) : option string :=
  match e with MkError _ _ _ f _ _ => f end.
Definition cause (e : JsError) : option JsError :=
  match e with MkError _ _ _ _ c _ => c end.
Definition cls (e : JsError) : ErrorClass :=
  match e with MkError k _ _ _ _ _ => k end.
Definition process (e : JsError) : option ProcessInfo :=
  match e with MkError _ _ _ _ _ p => p end.

(** [new Error(msg)] *)
Definition newError (msg : string) : JsError :=
  MkError ClsError msg None None None None.

(** [new RenderError(message, code, filePath, cause)] *)
Definition newRenderError (msg code : string) (filePath : option string)
           (cause : option JsError) : JsError :=
  MkError ClsRenderError msg (Some code) filePath cause None.

(** [e instanceof RenderError] *)
Definition instanceofRenderError (e : JsError) : bool :=
  match cls e with ClsRenderError => true | _ => false end.

(** Anything can be thrown; [ThrownValue s] is a non-Error value whose
    [String(...)] conversion is [s]. *)
Inductive Thrown : Type :=
| ThrownError (e : JsError)
| ThrownValue (shown : string).

(** [error instanceof Error ? error : new Error(String(error))] *)
Definition asError (t : Thrown) : JsError :=
  match t with
  | ThrownError e => e
  | ThrownValue s => newError s
  end.

(** [error instanceof Error ? error : undefined] *)
Definition asErrorOpt (t : Thrown) : option JsError :=
  match t with
  | ThrownError e => Some e
  | ThrownValue _ => None
  end.

(** How a computation ends: with a value, with a thrown value (a rejected
    promise), or by terminating the whole process with [process.exit]. *)
Inductive Completion (A : Type) : Type :=
| Normal (a : A)
| Throw (t : Thrown)
| Exit (exitCode : Z).
Arguments Normal {A} a.
Arguments Throw {A} t.
Arguments Exit {A} exitCode.

Definition bind {A B} (m : Completion A) (k : A -> Completion B) : Completion B :=
  match m with
  | Normal a => k a
  | Throw t => Throw t
  | Exit c => Exit c
  end.

(** [try { body } catch (error) { handler(error) }]: a thrown value is
    handed to the handler, [process.exit] is not interceptable. *)
Definition tryCatch {A} (body : Completion A) (handler : Thrown -> Completion A)
  : Completion A :=
  match body with
  | Normal a => Normal a
  | Throw t => handler t
  | Exit c => Exit c
  end.

Definition throwError {A} (e : JsError) : Completion A := Throw (ThrownError e).

Definition returns {A} (m : Completion A) : Prop := exists a, m = Normal a.

#[global] Instance completion_ret : MRet Completion := @Normal.
#[global] Instance completion_bind : MBind Completion :=
  fun A B k m => bind m k.

(** A computation over a mutable state [S] (the console, the file system)
    that may throw or exit; the state reached so far survives both. *)
Definition Eff (S A : Type) : Type := S -> Completion A * S.

Definition ret {S A} (a : A) : Eff S A := fun s => (Normal a, s).
Definition bindEff {S A B} (m : Eff S A) (k : A -> Eff S B) : Eff S B :=
  fun s =>
    match m s with
    | (Normal a, s') => k a s'
    | (Throw t, s') => (Throw t, s')
    | (Exit c, s') => (Exit c, s')
    end.
Definition tryCatchEff {S A} (body : Eff S A) (handler : Thrown -> Eff S A) : Eff S A :=
  fun s =>
    match body s with
    | (Throw t, s') => handler t s'
    | other => other
    end.
Definition lift {S A} (c : Completion A) : Eff S A := fun s => (c, s).
(** [process.exit(code)] *)
Definition processExit {S A} (code : Z) : Eff S A := fun s => (Exit code, s).
(** [if (cond) action] *)
Definition when {S} (cond : bool) (action : Eff S unit) : Eff S unit :=
  if cond then action else ret tt.
(** [if (value) action(value)] on an optional value *)
Definition whenSome {S A} (value : option A) (action : A -> Eff S unit) : Eff S unit :=
  match value with Some a => action a | None => ret tt end.
Fixpoint forEach {S A} (items : list A) (action : A -> Eff S unit) : Eff S unit :=
  match items with
  | [] => ret tt
  | item :: rest => bindEff (action item) (fun _ => forEach rest action)
  end.

#[global] Instance eff_ret {S} : MRet (Eff S) := @ret S.
#[global] Instance eff_bind {S} : MBind (Eff S) := fun A B k m => bindEff m k.

(** A line printed with [console.log] or [console.error]. *)
Inductive Line : Type :=
| Out (text : string)
| Err (text : string).

End Js.
Export Js (Completion, Normal, Throw, Exit, JsError, Thrown).

(* ===================================================================== *)
(** * String helpers (String.prototype and path utilities) *)
(* ===================================================================== *)

Module Str.

Definition dquote : ascii := ascii_of_nat 34.
Definition newline : ascii := ascii_of_nat 10.

Definition chr (c : ascii) : string := String c EmptyString.

Definition isEmpty (s : string) : bool :=
  match s with EmptyString => true | _ => false end.

(** [s.startsWith(p)] *)
Definition startsWith (s p : string) : bool := String.prefix p s.

(** [s.includes(p)] *)
Fixpoint includes (s p : string) : bool :=
  if String.prefix p s then true
  else match s with
       | EmptyString => false
       | String _ s' => includes s' p
       end.

(** [s.substring(n)] *)
Fixpoint drop (n : nat) (s : string) : string :=
  match n, s with
  | 0, _ => s
  | S n', String _ s' => drop n' s'
  | S _, EmptyString => EmptyString
  end.

Fixpoint rev_onto (s acc : string) : string :=
  match s with
  | EmptyString => acc
  | String c s' => rev_onto s' (String c acc)
  end.
Definition rev (s : string) : string := rev_onto s EmptyString.

(** White space and line terminators in the Latin-1 range, as recognised
    by [trim] and by the pattern escape [\s]. *)
Definition isSpace (c : ascii) : bool :=
  let n := nat_of_ascii c in
  (n =? 9) || (n =? 10) || (n =? 11) || (n =? 12) || (n =? 13)
  || (n =? 32) || (n =? 160).

Fixpoint trimStart (s : string) : string :=
  match s with
  | EmptyString => EmptyString
  | String c s' => if isSpace c then trimStart s' else s
  end.
Definition trimEnd (s : string) : string := rev (trimStart (rev s)).
(** [s.trim()] *)
Definition trim (s : string) : string := trimEnd (trimStart s).

(** [s.split(sep)] for a one-character separator. *)
Fixpoint splitOn (sep : ascii) (s : string) : list string :=
  match s with
  | EmptyString => [EmptyString]
  | String c s' =>
      if Ascii.eqb c sep then EmptyString :: splitOn sep s'
      else match splitOn sep s' with
           | [] => [chr c]
           | w :: ws => String c w :: ws
           end
  end.

(** [parts.join(sep)] *)
Fixpoint join (sep : string) (parts : list string) : string :=
  match parts with
  | [] => EmptyString
  | [p] => p
  | p :: ps => p +:+ sep +:+ join sep ps
  end.

Definition eqb (a b : string) : bool := String.eqb a b.

(** [xs.includes(x)] on an array of strings. *)
Definition member (x : string) (xs : list string) : bool :=
  existsb (String.eqb x) xs.

End Str.

(* ===================================================================== *)
(** * Paths *)
(* ===================================================================== *)

Module Path.

(** [path.join] and [path.resolve] normalise their arguments against the
    working directory of the process; they are taken from the environment. *)
Class Api : Type := {
  join : string -> string -> string;
  resolve : string -> string;
  (** [path.resolve(base, p)] *)
  resolveIn : string -> string -> string;
}.

(** Split at the last occurrence of [sep]. *)
Fixpoint splitLast (sep : ascii) (s : string) : option (string * string) :=
  match s with
  | EmptyString => None
  | String c s' =>
      match splitLast sep s' with
      | Some (a, b) => Some (String c a, b)
      | None => if Ascii.eqb c sep then Some (EmptyString, s') else None
      end
  end.

(** [path.parse(p).base], for a POSIX path without a trailing slash. *)
Definition base (p : string) : string :=
  match splitLast "/" p with
  | Some (_, b) => b
  | None => p
  end.

(** [path.parse(p).dir] *)
Definition dir (p : string) : string :=
  match splitLast "/" p with
  | Some (EmptyString, _) => "/"
  | Some (d, _) => d
  | None => EmptyString
  end.

(** [path.parse(p).ext]: from the last dot of the base name, unless that dot
    opens the base name. *)
Definition ext (p : string) : string :=
  let b := base p in
  if String.eqb b ".." then EmptyString
  else match splitLast "." b with
       | Some (EmptyString, _) => EmptyString
       | Some (_, e) => String "." e
       | None => EmptyString
       end.

(** [path.parse(p).name] *)
Definition name (p : string) : string :=
  let b := base p in
  if String.eqb b ".." then b
  else match splitLast "." b with
       | Some (EmptyString, _) => b
       | Some (n, _) => n
       | None => b
       end.

(** A simple instance for absolute, already normalised POSIX paths. *)
Definition posix : Api := {|
  join := fun a b => a +:+ "/" +:+ b;
  resolve := fun p => p;
  resolveIn := fun base p => base +:+ "/" +:+ p;
|}.

End Path.

(* ===================================================================== *)
(** * Configuration *)
(* ===================================================================== *)

Module Config.

(** [maxConcurrentRenders?: number | 'auto'] *)
Inductive MaxConcurrent : Type :=
| Auto
| Limit (n : nat).

(** [prettierConfig?: PrettierOptions | false] *)
Inductive Prettier : Type :=
| PrettierOff
| PrettierOptions (options : string).

(** The fields of [RenderConfig] read by the modelled code.  The older
    sources name the first field [entryPointsBase]. *)
Record RenderConfig : Type := {
  entryPointDir : string;
  srcBase : string;
  outputDir : string;
  templateDir : option string;
  defaultTemplate : option string;
  patterns : option (list string);
  fileExtensions : option (list string);
  mountInfoExport : option string;
  templateExtension : option string;
  templateEngine : option string;
  prettierConfig : option Prettier;
  maxConcurrentRenders : option MaxConcurrent;
  websocketPort : option nat;
  verbose : bool;
}.

(** [config.fileExtensions || ['js', 'jsx', 'ts', 'tsx']] *)
Definition extensionsOf (cfg : RenderConfig) : list string :=
  match fileExtensions cfg with
  | Some exts => exts
  | None => ["js"; "jsx"; "ts"; "tsx"]
  end.

(** What the configuration schema accepts for [maxConcurrentRenders]:
    an integer of at least 1, or ['auto']. *)
Definition validLimit (cfg : RenderConfig) : Prop :=
  match maxConcurrentRenders cfg with
  | Some (Limit n) => 1 <= n
  | _ => True
  end.

(** The configuration of the older, class-based sources (the schema with
    [entryPointsBase] and [srcBase], and a plain number for
    [maxConcurrentRenders]). *)
Module Legacy.

Record RenderConfig : Type := {
  entryPointsBase : string;
  srcBase : string;
  outputDir : string;
  templateDir : option string;
  patterns : option (list string);
  fileExtensions : option (list string);
  mountInfoExport : option string;
  templateExtension : option string;
  templateMergeStrategy : option string;
  (** whether [customMergeFunction] holds a value; a configuration that
      reaches the worker as JSON holds no callable function *)
  customMergeFunction : bool;
  templateEngine : option string;
  liquidFileExtensions : option (list string);
  phpFileExtensions : option (list string);
  prettierConfig : option Prettier;
  maxConcurrentRenders : option nat;
  websocketPort : option nat;
  verbose : bool;
}.

Definition extensionsOf (cfg : RenderConfig) : list string :=
  match fileExtensions cfg with
  | Some exts => exts
  | None => ["js"; "jsx"; "ts"; "tsx"]
  end.

End Legacy.

End Config.
Export Config (RenderConfig).

(* ===================================================================== *)
(** * The per-file render operation (render.ts) *)
(* ===================================================================== *)

Module Render.
Import Js Config.

(** [RenderResult<string>] *)
Inductive RenderResult : Type :=
| Success (data : string) (outputPath : option string)
| Failure (error : JsError).

Definition succeeded (r : RenderResult) : bool :=
  match r with Success _ _ => true | Failure _ => false end.

(** ** The class-based renderer: one [spawn]ed worker per file *)

(** What the spawned worker does first, as seen by the parent process:
    [spawn] itself throws, the child emits ['close'] with its exit code and
    signal (a crash is a [null] code with a signal, or a non-zero code), or
    it emits ['error'] because it could not be started. *)
Inductive ChildEvent : Type :=
| SpawnThrows (t : Thrown)
| ChildClose (code : option Z) (signal : option string)
| ChildError (e : JsError).

(** [`${code}`] for [number | null] *)
Definition showCode (code : option Z) : string :=
  match code with
  | Some z => pretty z
  | None => "null"
  end.

(** [signal ? ` (signal: ${signal})` : ''] *)
Definition showSignal (signal : option string) : string :=
  match signal with
  | Some s => if Str.isEmpty s then EmptyString else " (signal: " +:+ s +:+ ")"
  | None => EmptyString
  end.

Section Renderer.
Context {P : Path.Api}.
Variable config : Legacy.RenderConfig.

Definition createRenderError (msg code : string) (filePath : option string)
  (cause : option JsError) : JsError :=
  newRenderError msg code filePath cause.

(** [createRenderProcess]: the handle is identified with what the child will
    report. *)
Definition createRenderProcess (ev : ChildEvent) : Completion ChildEvent :=
  match ev with
  | SpawnThrows t => Throw t
  | _ => Normal ev
  end.

(** [handleProcessResult]: the promise resolves, never rejects, on the first
    of ['close'] and ['error']. *)
Definition handleProcessResult (process : ChildEvent) (filePath : string)
  : Completion RenderResult :=
  match process with
  | ChildClose code signal =>
      match code with
      | Some 0%Z =>
          let outputPath := Path.join (Legacy.outputDir config) filePath in
          Normal (Success outputPath (Some outputPath))
      | _ =>
          Normal (Failure (createRenderError
            ("Render process exited with code " +:+ showCode code +:+ showSignal signal)
            "PROCESS_EXIT_ERROR" (Some filePath) None))
      end
  | ChildError processError =>
      Normal (Failure (createRenderError "Failed to spawn render process"
                         "PROCESS_SPAWN_ERROR" (Some filePath) (Some processError)))
  | SpawnThrows t => Throw t
  end.

(** [Renderer.renderFile] *)
Definition Renderer_renderFile (filePath : string) (ev : ChildEvent)
  : Completion RenderResult :=
  tryCatch
    (process ← createRenderProcess ev;
     handleProcessResult process filePath)
    (fun error =>
       Normal (Failure (createRenderError "Unexpected error during render"
                          "RENDER_UNEXPECTED_ERROR" (Some filePath)
                          (Some (asError error))))).

End Renderer.

Section RenderFile.
Context {P : Path.Api}.
Variable config : RenderConfig.

(** ** The function-based [renderFile]: one [execa] call per file *)

(** [execa] resolves when the worker exits with code 0 and rejects
    otherwise: the worker could not be started, exited with a non-zero code
    or was killed by a signal. *)
Inductive ExecaOutcome : Type :=
| ExecaResolved
| ExecaRejected (processError : Thrown).

Definition awaitExeca (out : ExecaOutcome) : Completion unit :=
  match out with
  | ExecaResolved => Normal tt
  | ExecaRejected processError => Throw processError
  end.

(** [processError as { stderr?, message?, exitCode? }] *)
Definition errStderr (t : Thrown) : option string :=
  match t with
  | ThrownError e => p ← process e; stderr p
  | ThrownValue _ => None
  end.
Definition errExitCode (t : Thrown) : option Z :=
  match t with
  | ThrownError e => p ← process e; exitCode p
  | ThrownValue _ => None
  end.
Definition errMessage (t : Thrown) : option string :=
  match t with
  | ThrownError e => Some (message e)
  | ThrownValue _ => None
  end.

(** [err.exitCode ? 'PROCESS_EXIT_ERROR' : 'PROCESS_SPAWN_ERROR'] *)
Definition exitOrSpawn (err : Thrown) : string :=
  match errExitCode err with
  | Some z => if (z =? 0)%Z then "PROCESS_SPAWN_ERROR" else "PROCESS_EXIT_ERROR"
  | None => "PROCESS_SPAWN_ERROR"
  end.

(** [value || fallback] on an optional string *)
Definition orElse (value : option string) (fallback : string) : string :=
  match value with
  | Some s => if Str.isEmpty s then fallback else s
  | None => fallback
  end.

(** The line filter applied to the worker's standard error. *)
Definition keepLine (line : string) : bool :=
  let trimmed := Str.trim line in
  if String.eqb trimmed "Failed to load module" then false
  else if String.eqb trimmed "Failed to render React component" then false
  else if Str.startsWith trimmed "File:" then false
  else if Str.startsWith trimmed "code:" then false
  else if Str.startsWith trimmed "url:" then false
  else if String.eqb trimmed "}" then false
  else true.

Definition filteredMessage (err : Thrown) : string :=
  let errorMessage := orElse (Str.trim <$> errStderr err) "Render process failed" in
  if Str.isEmpty errorMessage then errorMessage
  else Str.trim (Str.join (Str.chr Str.newline)
                   (List.filter keepLine (Str.splitOn Str.newline errorMessage))).

(** [renderFile] as it pipes the worker's standard error. *)
Definition renderFile (filePath : string) (out : ExecaOutcome) : Completion RenderResult :=
  tryCatch
    (_ ← awaitExeca out;
     let outputPath := Path.join (outputDir config) filePath in
     Normal (Success outputPath (Some outputPath)))
    (fun processError =>
       let error := newRenderError (filteredMessage processError)
                      (exitOrSpawn processError) (Some filePath) None in
       Normal (Failure error)).

(** [renderFile] as it inherits the worker's standard error. *)
Definition renderFile_inherit (filePath : string) (out : ExecaOutcome)
  : Completion RenderResult :=
  tryCatch
    (_ ← awaitExeca out;
     let outputPath := Path.join (outputDir config) filePath in
     Normal (Success outputPath (Some outputPath)))
    (fun processError =>
       let error := newRenderError (orElse (errMessage processError) "Render process failed")
                      (exitOrSpawn processError) (Some filePath)
                      (asErrorOpt processError) in
       Normal (Failure error)).

End RenderFile.

(** A result that belongs to [filePath]: a success names the output file of
    that path, a failure is a [RenderError] that carries the path. *)
Definition belongsTo {P : Path.Api} (outputDir filePath : string) (r : RenderResult)
  : Prop :=
  match r with
  | Success data outputPath =>
      data = Path.join outputDir filePath /\ outputPath = Some data
  | Failure e =>
      Js.filePath e = Some filePath /\ instanceofRenderError e = true
  end.

End Render.

(* ===================================================================== *)
(** * The render scheduler *)
(* ===================================================================== *)

Module Scheduler.
Import Js Render.

(** [array.slice(i, j)] *)
Definition slice {A} (array : list A) (i j : nat) : list A :=
  take (j - i) (drop i array).

(** The loop of [chunkArray]:
    [for (let i = 0; i < array.length; i += size) chunks.push(array.slice(i, i + size))].
    The loop runs at most [array.length] times when [size] is positive. *)
Fixpoint chunkLoop {A} (fuel : nat) (array : list A) (size i : nat) : list (list A) :=
  match fuel with
  | 0 => []
  | S fuel' =>
      if i <? length array
      then slice array i (i + size) :: chunkLoop fuel' array size (i + size)
      else []
  end.

Definition chunkArray {A} (array : list A) (size : nat) : list (list A) :=
  chunkLoop (length array) array size 0.

Section Batch.
(** What the outside world decides for one task (how its worker process
    ends), and the per-file render operation that turns it into the task's
    promise. *)
Context {E : Type}.
Variable run : string -> E -> Completion RenderResult.

(** A result [r] is an outcome of rendering [file]. *)
Definition outcomeOf (file : string) (r : RenderResult) : Prop :=
  exists ev, run file ev = Normal r.

(** ** [Renderer.renderFiles]: chunks awaited one after the other *)

(** The state of one call of [renderFiles]: the chunks the [for] loop has not
    reached, the chunk under [Promise.all] (each file with the result its
    promise has settled to, if any), the [results] array, and the rejection
    of the call if a task promise rejected. *)
Record ChunkState : Type := MkChunkState {
  pending : list (list string);
  current : list (string * option RenderResult);
  results : list RenderResult;
  rejected : option Thrown;
}.

(** [chunk.map(file => this.renderFile(file))]: every file of the chunk is
    started at once. *)
Definition startChunk (chunk : list string) : list (string * option RenderResult) :=
  map (fun file => (file, None)) chunk.

Definition isSettled (task : string * option RenderResult) : bool :=
  match snd task with Some _ => true | None => false end.

(** The render executions that are active: started and not yet settled. *)
Definition active (s : ChunkState) : list (string * option RenderResult) :=
  List.filter (fun task => negb (isSettled task)) (current s).

Definition inFlight (s : ChunkState) : nat := length (active s).

(** The value [Promise.all] resolves to. *)
Definition chunkResults (cur : list (string * option RenderResult)) : list RenderResult :=
  omap snd cur.

(** [results.push(...chunkResults)] followed by the next loop iteration. *)
Definition advance (s : ChunkState) : ChunkState :=
  match pending s with
  | [] => MkChunkState [] [] (results s ++ chunkResults (current s)) (rejected s)
  | chunk :: rest =>
      MkChunkState rest (startChunk chunk) (results s ++ chunkResults (current s))
                   (rejected s)
  end.

Inductive chunkStep : ChunkState -> ChunkState -> Prop :=
| ChunkSettle s pre file post ev r :
    rejected s = None ->
    current s = pre ++ (file, None) :: post ->
    run file ev = Normal r ->
    chunkStep s (MkChunkState (pending s) (pre ++ (file, Some r) :: post)
                              (results s) None)
| ChunkReject s pre file post ev t :
    rejected s = None ->
    current s = pre ++ (file, None) :: post ->
    run file ev = Throw t ->
    chunkStep s (MkChunkState (pending s) (current s) (results s) (Some t))
| ChunkAdvance s :
    rejected s = None ->
    forallb isSettled (current s) = true ->
    (current s <> [] \/ pending s <> []) ->
    chunkStep s (advance s).

(** [renderFiles(filePaths)] up to its first suspension: an empty batch
    returns at once, otherwise the first chunk is started. *)
Definition renderFilesFrom (maxConcurrent : nat) (filePaths : list string) : ChunkState :=
  advance (MkChunkState (chunkArray filePaths maxConcurrent) [] [] None).

(** The call has returned its [results]. *)
Definition chunkDone (s : ChunkState) : Prop :=
  rejected s = None /\ pending s = [] /\ current s = [].

(** A quantity every step decreases. *)
Definition chunkMeasure (s : ChunkState) : nat :=
  list_sum (map (fun c => 2 * length c + 1) (pending s))
  + inFlight s + length (current s)
  + (match rejected s with Some _ => 0 | None => 1 end).

(** ** [renderWithConcurrency]: tasks behind a [p-limit] limiter *)

(** The status of [limit(() => renderFile(file, config))] for one file: still
    in the limiter's queue, running, or settled with a result. *)
Inductive TaskStatus : Type :=
| Queued
| Running
| Settled (r : RenderResult)
| Rejected (t : Thrown).

(** The limiter and the [Promise.all] over its promises, one entry per input
    file in input order, and the rejection of [Promise.all] if any. *)
Record LimitState : Type := MkLimitState {
  tasks : list (string * TaskStatus);
  limitRejected : option Thrown;
}.

Definition isRunning (task : string * TaskStatus) : bool :=
  match snd task with Running => true | _ => false end.
Definition isQueued (task : string * TaskStatus) : bool :=
  match snd task with Queued => true | _ => false end.
Definition settledResult (task : string * TaskStatus) : option RenderResult :=
  match snd task with Settled r => Some r | _ => None end.

Definition hasResult (task : string * TaskStatus) : bool :=
  match snd task with Settled _ => true | _ => false end.

(** The limiter's [activeCount]. *)
Definition activeCount (s : LimitState) : nat :=
  length (List.filter isRunning (tasks s)).

(** The limiter's queue, in arrival order. *)
Definition queue (s : LimitState) : list string :=
  map fst (List.filter isQueued (tasks s)).

Definition limitResults (s : LimitState) : list RenderResult :=
  omap settledResult (tasks s).

(** Modelled from the documented contract of the [p-limit] package, which is
    not part of the repository: a queued function is started, in arrival
    order, only while fewer than [concurrency] functions are running; when a
    running function settles the next queued one may start. *)
Inductive limitStep (concurrency : nat) : LimitState -> LimitState -> Prop :=
| LimitStart s pre file post :
    tasks s = pre ++ (file, Queued) :: post ->
    forallb (fun t => negb (isQueued t)) pre = true ->
    activeCount s < concurrency ->
    limitStep concurrency s
      (MkLimitState (pre ++ (file, Running) :: post) (limitRejected s))
| LimitSettle s pre file post ev r :
    tasks s = pre ++ (file, Running) :: post ->
    run file ev = Normal r ->
    limitStep concurrency s
      (MkLimitState (pre ++ (file, Settled r) :: post) (limitRejected s))
| LimitReject s pre file post ev t :
    tasks s = pre ++ (file, Running) :: post ->
    run file ev = Throw t ->
    limitStep concurrency s
      (MkLimitState (pre ++ (file, Rejected t) :: post)
                    (Some (default t (limitRejected s)))).

(** [files.map(file => limit(() => renderFile(file, config)))] *)
Definition limitAll (files : list string) : LimitState :=
  MkLimitState (map (fun file => (file, Queued)) files) None.

(** [Promise.all(promises)] has resolved. *)
Definition limitDone (s : LimitState) : Prop :=
  limitRejected s = None /\ forallb hasResult (tasks s) = true.

Definition limitMeasure (s : LimitState) : nat :=
  2 * length (List.filter isQueued (tasks s)) + activeCount s.

End Batch.

(** [this.config.maxConcurrentRenders || 4] *)
Definition Renderer_maxConcurrent (config : Config.Legacy.RenderConfig) : nat :=
  match Config.Legacy.maxConcurrentRenders config with
  | Some 0 => 4
  | Some n => n
  | None => 4
  end.

(** [Renderer.renderFiles(filePaths)] *)
Definition Renderer_renderFiles {P : Path.Api} (config : Config.Legacy.RenderConfig)
  (filePaths : list string) : ChunkState :=
  renderFilesFrom (Renderer_maxConcurrent config) filePaths.

Definition Renderer_step {P : Path.Api} (config : Config.Legacy.RenderConfig) :=
  chunkStep (Renderer_renderFile config).

(** [config.maxConcurrentRenders === 'auto' || config.maxConcurrentRenders === undefined
      ? Math.max(1, cpus().length) : config.maxConcurrentRenders] *)
Definition maxConcurrent (cpus : nat) (config : RenderConfig) : nat :=
  match Config.maxConcurrentRenders config with
  | Some (Config.Limit n) => n
  | Some Config.Auto | None => Nat.max 1 cpus
  end.

(** [pLimit(concurrency)] validates its argument: it throws a [TypeError]
    unless the concurrency is an integer from 1 upwards. *)
Definition pLimit (concurrency : nat) : Completion nat :=
  if concurrency =? 0
  then Throw (ThrownError (MkError ClsTypeError
          "Expected `concurrency` to be a number from 1 and up" None None None None))
  else Normal concurrency.

(** [renderWithConcurrency(files, config)] up to its first suspension: the
    limiter is created and every file is handed to it. *)
Definition renderWithConcurrency (cpus : nat) (config : RenderConfig)
  (files : list string) : Completion (nat * LimitState) :=
  limit ← pLimit (maxConcurrent cpus config);
  Normal (limit, limitAll files).

Definition renderWithConcurrency_step {P : Path.Api} (config : RenderConfig) (limit : nat) :=
  limitStep (renderFile config) limit.

(** "For every configured concurrency limit N, or the parallelism-derived
    default when the limit is unset or 'auto', the number of simultaneously
    active render executions never exceeds that bound at any point of a
    batch", for both schedulers, on a machine with [cpus] processors.  A
    configured limit is an integer of at least 1; the parallelism-derived
    default is [Math.max(1, cpus().length)]. *)
Definition neverExceedsLimitOrParallelism : Prop :=
  forall (P : Path.Api) (cpus : nat),
    (forall (config : Config.Legacy.RenderConfig) (files : list string) s,
        rtc (Renderer_step config) (Renderer_renderFiles config files) s ->
        (forall N, Config.Legacy.maxConcurrentRenders config = Some N -> 1 <= N ->
                   inFlight s <= N)
        /\ (Config.Legacy.maxConcurrentRenders config = None ->
            inFlight s <= Nat.max 1 cpus))
    /\ (forall (config : RenderConfig) (files : list string) limit s0 s,
           renderWithConcurrency cpus config files = Normal (limit, s0) ->
           rtc (renderWithConcurrency_step config limit) s0 s ->
           (forall N, Config.maxConcurrentRenders config = Some (Config.Limit N) ->
                      activeCount s <= N)
           /\ (Config.maxConcurrentRenders config = Some Config.Auto
               \/ Config.maxConcurrentRenders config = None ->
               activeCount s <= Nat.max 1 cpus)).

End Scheduler.

(* ===================================================================== *)
(** * The command-line render action (cli.ts) *)
(* ===================================================================== *)

Module Cli.
Import Js Config Render.

(** A computation that prints and may throw or exit. *)
Abbreviation Eff := (Js.Eff (list Line)).

Definition consoleLog (text : string) : Eff unit := fun log => (Normal tt, log ++ [Out text]).
Definition consoleError (text : string) : Eff unit := fun log => (Normal tt, log ++ [Err text]).

(** [RenderOptions], the parsed command-line flags. *)
Record RenderOptions : Type := {
  watch : bool;
  liveReload : bool;
  configPath : option string;
  port : option nat;
  output : option string;
  optVerbose : bool;
}.

(** The result of [loadConfig]. *)
Inductive ConfigLoadResult (C : Type) : Type :=
| Loaded (data : C)
| LoadFailed (error : JsError).
Arguments Loaded {C} data.
Arguments LoadFailed {C} error.

(** [handleConfigLoad] *)
Definition handleConfigLoad {C} (loadConfig : option string -> ConfigLoadResult C)
  (path : option string) : Eff C :=
  match loadConfig path with
  | LoadFailed error =>
      _ ← consoleError ("Configuration Error: " +:+ message error);
      _ ← whenSome (filePath error) (fun f =>
            when (negb (Str.isEmpty f)) (consoleError ("File: " +:+ f)));
      _ ← whenSome (cause error) (fun c => consoleError ("Cause: " +:+ message c));
      processExit 1
  | Loaded data => ret data
  end.

(** [error instanceof Error ? error.message : String(error)] *)
Definition describe (t : Thrown) : string :=
  match t with
  | ThrownError e => message e
  | ThrownValue s => s
  end.

Definition failures (results : list RenderResult) : list JsError :=
  omap (fun r => match r with Failure e => Some e | Success _ _ => None end) results.

(** ** The current sources *)

Section Current.

(** The collaborators of the action: configuration loading, entry-point
    discovery, one complete batch of the scheduler (the promise returned by
    [renderWithConcurrency]) and the start of watch mode. *)
Record World : Type := {
  loadConfig : option string -> ConfigLoadResult RenderConfig;
  findEntryPoints : RenderConfig -> list string;
  renderWithConcurrency : list string -> RenderConfig -> Completion (list RenderResult);
  startWatchMode : RenderConfig -> bool -> Eff unit;
}.

Definition applyCliOverrides (config : RenderConfig) (options : RenderOptions)
  : RenderConfig := {|
  entryPointDir := entryPointDir config;
  srcBase := srcBase config;
  outputDir := match output options with
               | Some o => if Str.isEmpty o then outputDir config else o
               | None => outputDir config
               end;
  templateDir := templateDir config;
  defaultTemplate := defaultTemplate config;
  patterns := patterns config;
  fileExtensions := fileExtensions config;
  mountInfoExport := mountInfoExport config;
  templateExtension := templateExtension config;
  templateEngine := templateEngine config;
  prettierConfig := prettierConfig config;
  maxConcurrentRenders := maxConcurrentRenders config;
  websocketPort := match port options with
                   | Some 0 | None => websocketPort config
                   | Some p => Some p
                   end;
  verbose := if optVerbose options then true else verbose config;
|}.

Definition reportResults (results : list RenderResult) : Eff unit :=
  let successful := length (List.filter succeeded results) in
  let failed := length results - successful in
  _ ← consoleLog ("Render complete: " +:+ pretty successful +:+ " succeeded, "
                   +:+ pretty failed +:+ " failed");
  when (0 <? failed)
    (_ ← consoleError "Failed renders:";
     forEach (failures results) (fun error =>
       _ ← consoleError ("  - " +:+ message error);
       _ ← whenSome (filePath error) (fun f =>
             when (negb (Str.isEmpty f)) (consoleError ("    File: " +:+ f)));
       whenSome (cause error) (fun c => consoleError (message c)))).

Definition renderAction (w : World) (files : list string) (options : RenderOptions)
  : Eff unit :=
  tryCatchEff
    (baseConfig ← handleConfigLoad (loadConfig w) (configPath options);
     let config := applyCliOverrides baseConfig options in
     results ←
       (if 0 <? length files
        then _ ← consoleLog ("Rendering " +:+ pretty (length files) +:+ " file(s)...");
             lift (renderWithConcurrency w files config)
        else _ ← consoleLog "Rendering all entry points...";
             let entryPoints := findEntryPoints w config in
             lift (renderWithConcurrency w entryPoints config));
     _ ← reportResults results;
     if watch options
     then startWatchMode w config (liveReload options)
     else processExit 0)
    (fun error =>
       _ ← consoleError ("Error: " +:+ describe error);
       processExit 1).

End Current.

(** ** The class-based sources *)

Section Legacy.

Record LegacyWorld : Type := {
  legacyLoadConfig : option string -> ConfigLoadResult Legacy.RenderConfig;
  (** [renderer.renderFiles(files)] as one complete batch *)
  Renderer_renderFiles : Legacy.RenderConfig -> list string -> Completion (list RenderResult);
  (** [renderer.findEntryPoints()] *)
  Renderer_findEntryPoints : Legacy.RenderConfig -> list string;
  legacyStartWatchMode : Legacy.RenderConfig -> bool -> Eff unit;
}.

Definition legacyApplyCliOverrides (config : Legacy.RenderConfig)
  (options : RenderOptions) : Legacy.RenderConfig := {|
  Legacy.entryPointsBase := Legacy.entryPointsBase config;
  Legacy.srcBase := Legacy.srcBase config;
  Legacy.outputDir := match output options with
                      | Some o => if Str.isEmpty o then Legacy.outputDir config else o
                      | None => Legacy.outputDir config
                      end;
  Legacy.templateDir := Legacy.templateDir config;
  Legacy.patterns := Legacy.patterns config;
  Legacy.fileExtensions := Legacy.fileExtensions config;
  Legacy.mountInfoExport := Legacy.mountInfoExport config;
  Legacy.templateExtension := Legacy.templateExtension config;
  Legacy.templateMergeStrategy := Legacy.templateMergeStrategy config;
  Legacy.customMergeFunction := Legacy.customMergeFunction config;
  Legacy.templateEngine := Legacy.templateEngine config;
  Legacy.liquidFileExtensions := Legacy.liquidFileExtensions config;
  Legacy.phpFileExtensions := Legacy.phpFileExtensions config;
  Legacy.prettierConfig := Legacy.prettierConfig config;
  Legacy.maxConcurrentRenders := Legacy.maxConcurrentRenders config;
  Legacy.websocketPort := match port options with
                          | Some 0 | None => Legacy.websocketPort config
                          | Some p => Some p
                          end;
  Legacy.verbose := if optVerbose options then true else Legacy.verbose config;
|}.

Definition legacyReportResults (results : list RenderResult) : Eff unit :=
  let successful := length (List.filter succeeded results) in
  let failed := length (List.filter (fun r => negb (succeeded r)) results) in
  _ ← consoleLog ("Render complete: " +:+ pretty successful +:+ " succeeded, "
                   +:+ pretty failed +:+ " failed");
  when (0 <? failed)
    (_ ← consoleError "Failed renders:";
     forEach (failures results) (fun error =>
       _ ← consoleError ("  - " +:+ message error);
       whenSome (filePath error) (fun f =>
         when (negb (Str.isEmpty f)) (consoleError ("    File: " +:+ f))))).

(** [renderer.renderAll()] *)
Definition Renderer_renderAll (w : LegacyWorld) (config : Legacy.RenderConfig)
  : Completion (list RenderResult) :=
  Renderer_renderFiles w config (Renderer_findEntryPoints w config).

Definition legacyRenderAction (w : LegacyWorld) (files : list string)
  (options : RenderOptions) : Eff unit :=
  tryCatchEff
    (baseConfig ← handleConfigLoad (legacyLoadConfig w) (configPath options);
     let config := legacyApplyCliOverrides baseConfig options in
     _ ← (if 0 <? length files
          then _ ← consoleLog ("Rendering " +:+ pretty (length files) +:+ " file(s)...");
               results ← lift (Renderer_renderFiles w config files);
               legacyReportResults results
          else _ ← consoleLog "Rendering all entry points...";
               results ← lift (Renderer_renderAll w config);
               legacyReportResults results);
     if watch options
     then legacyStartWatchMode w config (liveReload options)
     else processExit 0)
    (fun error =>
       _ ← consoleError ("Error: " +:+ describe error);
       processExit 1).

End Legacy.

(** The exit code of a run, if the process exited. *)
Definition exitCodeOf {A} (outcome : Completion A * list Line) : option Z :=
  match fst outcome with
  | Exit c => Some c
  | _ => None
  end.

(** C4 as the specification words it, for the current sources: without
    [--watch] the action exits with 0 only when every render of the batch
    succeeded, and with 1 whenever a render failed or the configuration
    could not be loaded. *)
Definition exitCodeReflectsFailures : Prop :=
  forall (w : World) (files : list string) (options : RenderOptions) config results,
    watch options = false ->
    0 < length files ->
    loadConfig w (configPath options) = Loaded config ->
    renderWithConcurrency w files (applyCliOverrides config options) = Normal results ->
    (exitCodeOf (renderAction w files options []) = Some 0%Z ->
     forallb succeeded results = true)
    /\ (forallb succeeded results = false ->
        exitCodeOf (renderAction w files options []) = Some 1%Z).

(** A computation that prints on standard error only. *)
Definition printsErrors (m : Eff unit) : Prop :=
  forall log, exists lines, m log = (Normal tt, log ++ map Err lines).

End Cli.

(* ===================================================================== *)
(** * The dependency watcher (watcher.ts) *)
(* ===================================================================== *)

Module Watcher.
Import Js Config.

(** The nested object returned by the [dependency-tree] package: every key
    is a file, its value the tree of the files it imports. *)
Inductive DepTree : Type :=
  DepNode (children : list (string * DepTree)).

(** Induction on dependency trees, with the hypothesis for every subtree. *)
Definition DepTree_nested_ind (P : DepTree -> Prop)
  (Hnode : forall children,
      Forall (fun child => P (snd child)) children -> P (DepNode children))
  : forall t, P t :=
  fix go (t : DepTree) : P t :=
    match t with
    | DepNode children =>
        Hnode children
          ((fix all (l : list (string * DepTree))
              : Forall (fun child => P (snd child)) l :=
              match l with
              | [] => List.Forall_nil _
              | child :: rest => List.Forall_cons _ child rest (go (snd child)) (all rest)
              end) children)
    end.

(** [Map<string, Set<string>>] *)
Abbreviation FileMap := (gmap string (gset string)).

(** [map.get(key)], with a missing key read as the empty set. *)
Definition getSet (m : FileMap) (key : string) : gset string :=
  default ∅ (m !! key).

(** The mutable fields of a [FileWatcher]. *)
Record Graph : Type := MkGraph {
  dependencyGraph : FileMap;
  reverseDependencyGraph : FileMap;
  entryPointDependencies : FileMap;
}.

Definition emptyGraph : Graph := MkGraph ∅ ∅ ∅.

Section Build.
Context {P : Path.Api}.
(** [dependencyTree({ filename, directory, filter })] for the current state
    of the source files; [None] when it throws. *)
Variable dependencyTree : string -> option DepTree.

(** [collectAllDependencies(deps, result)] *)
Fixpoint collectAllDependencies (deps : DepTree) (result : gset string) : gset string :=
  match deps with
  | DepNode children =>
      fold_left (fun result child =>
                   let resolvedDep := Path.resolve (fst child) in
                   collectAllDependencies (snd child) ({[resolvedDep]} ∪ result))
                children result
  end.

(** The inner [traverse] of [addDependencies]; it mutates the local
    [dependencies] set and the reverse map. *)
Fixpoint traverse (file : string) (obj : DepTree) (st : gset string * FileMap)
  : gset string * FileMap :=
  match obj with
  | DepNode children =>
      fold_left (fun st child =>
                   let resolvedDep := Path.resolve (fst child) in
                   let dependencies := {[resolvedDep]} ∪ fst st in
                   let reverse :=
                     match snd st !! resolvedDep with
                     | None => <[resolvedDep := ∅]> (snd st)
                     | Some _ => snd st
                     end in
                   let reverse :=
                     <[resolvedDep := {[file]} ∪ getSet reverse resolvedDep]> reverse in
                   traverse file (snd child) (dependencies, reverse))
                children st
  end.

(** [addDependencies(file, deps)] *)
Definition addDependencies (file : string) (deps : DepTree) (g : Graph) : Graph :=
  let '(dependencies, reverse) := traverse file deps (∅, reverseDependencyGraph g) in
  MkGraph (<[file := dependencies]> (dependencyGraph g)) reverse
          (entryPointDependencies g).

(** One iteration of the [forEach] of [buildDependencyGraph]: an entry point
    whose analysis throws is skipped. *)
Definition addEntryPoint (g : Graph) (entryPoint : string) : Graph :=
  match dependencyTree entryPoint with
  | None => g
  | Some dependencies =>
      let allDeps := collectAllDependencies dependencies ∅ in
      let g := MkGraph (dependencyGraph g) (reverseDependencyGraph g)
                       (<[entryPoint := allDeps]> (entryPointDependencies g)) in
      addDependencies entryPoint dependencies g
  end.

(** [buildDependencyGraph(entryPoints)]: the three maps are cleared and
    filled again. *)
Definition buildDependencyGraph (entryPoints : list string) (g : Graph) : Graph :=
  fold_left addEntryPoint entryPoints emptyGraph.

(** The older [buildDependencyGraph], without [entryPointDependencies]. *)
Definition legacyAddEntryPoint (g : Graph) (entryPoint : string) : Graph :=
  match dependencyTree entryPoint with
  | None => g
  | Some dependencies => addDependencies entryPoint dependencies g
  end.

Definition legacyBuildDependencyGraph (entryPoints : list string) (g : Graph) : Graph :=
  fold_left legacyAddEntryPoint entryPoints emptyGraph.

End Build.

(** The forward and the reverse set of a file. *)
Definition forwardSet (g : Graph) (file : string) : gset string :=
  getSet (dependencyGraph g) file.
Definition reverseSet (g : Graph) (file : string) : gset string :=
  getSet (reverseDependencyGraph g) file.

(** ** Resolving a change to the affected entry points *)

(** [dependent] is a direct dependent of [file] in the reverse map. *)
Definition dependentOf (reverse : FileMap) (file dependent : string) : Prop :=
  dependent ∈ getSet reverse file.

(** Every file that occurs in the reverse map, as a key or as a dependent. *)
Definition graphNodes (reverse : FileMap) : gset string :=
  dom reverse ∪ ⋃ (snd <$> map_to_list reverse).

Section Affected.
Variable entryPointDir : string.   (* resolve(this.config.entryPointDir) *)
Variable reverse : FileMap.

(** [dependent.startsWith(entryPointDir + '/')] *)
Definition isEntryPoint (file : string) : bool :=
  Str.startsWith file (entryPointDir +:+ "/").

(** The inner [findAffected] of [getAffectedEntryPoints]; the state is the
    pair of the [visited] and [affected] sets.  Every nested call marks a
    file that was not visited before, so the depth of the recursion is
    bounded by the number of files; [fuel] is that bound. *)
Fixpoint findAffected (fuel : nat) (file : string) (st : gset string * gset string)
  : gset string * gset string :=
  match fuel with
  | 0 => st
  | S fuel' =>
      if decide (file ∈ fst st) then st
      else
        let visited := {[file]} ∪ fst st in
        match reverse !! file with
        | None => (visited, snd st)
        | Some dependents =>
            fold_left (fun st dependent =>
                         let affected :=
                           if isEntryPoint dependent
                           then {[dependent]} ∪ snd st else snd st in
                         findAffected fuel' dependent (fst st, affected))
                      (elements dependents) (visited, snd st)
        end
  end.

(** [getAffectedEntryPoints(changedFile)], as the set behind the returned
    array. *)
Definition getAffectedEntryPoints (changedFile : string) : gset string :=
  snd (findAffected (S (size ({[changedFile]} ∪ graphNodes reverse)))
         changedFile (∅, ∅)).

End Affected.

(** The older [getAffectedEntryPoints]: a plain lookup. *)
Definition legacyGetAffectedEntryPoints (reverse : FileMap) (changedFile : string)
  : gset string :=
  getSet reverse changedFile.

(** ** Handling one watcher notification *)

Inductive WatcherEventType : Type := EvAdd | EvChange | EvUnlink.

(** What one call of [handleFileChange] does: nothing, or one call of
    [onFileChange] with a batch of entry points, followed or not by
    [rebuildDependencyGraph]. *)
Inductive Reaction : Type :=
| Ignored
| Batch (files : list string) (rebuild : bool).


(** [parse(filePath).ext.slice(1)] *)
Definition fileExt (filePath : string) : string := Str.drop 1 (Path.ext filePath).

Section Handle.
Context {P : Path.Api}.
(** [glob(pattern, { cwd, absolute: false })] *)
Variable glob : string -> string -> list string.
Variable config : RenderConfig.

(** [`**/${fileName}.{${extensions.join(',')}}`] *)
Definition templatePattern (fileName : string) (extensions : list string) : string :=
  "**/" +:+ fileName +:+ ".{" +:+ Str.join "," extensions +:+ "}".

(** [path.startsWith(entryPointDir + '/') ? path.substring(entryPointDir.length + 1) : path] *)
Definition relativeTo (entryPointDir path : string) : string :=
  if Str.startsWith path (entryPointDir +:+ "/")
  then Str.drop (String.length entryPointDir + 1) path
  else path.

(** [handleFileChange(action, filePath)] up to its call of [onFileChange]. *)
Definition handleFileChange (g : Graph) (action : WatcherEventType) (filePath : string)
  : Reaction :=
  let absolutePath := Path.resolve filePath in
  let entryPointDir := Path.resolve (Config.entryPointDir config) in
  if Str.startsWith absolutePath (entryPointDir +:+ "/") then
    if negb (Str.member (fileExt filePath) (extensionsOf config)) then Ignored
    else Batch [Str.drop (String.length entryPointDir + 1) absolutePath] true
  else
    let inTemplateDir :=
      match Config.templateDir config with
      | Some t =>
          if Str.isEmpty t then None
          else if Str.startsWith absolutePath (Path.resolve t +:+ "/")
               then Some t else None
      | None => None
      end in
    match inTemplateDir with
    | Some _ =>
        let fileName := Path.name filePath in
        let matchingEntryPoints :=
          glob (templatePattern fileName (extensionsOf config))
               (Config.entryPointDir config) in
        if 0 <? length matchingEntryPoints then Batch matchingEntryPoints false
        else Ignored
    | None =>
        if negb (Str.member (fileExt filePath) (extensionsOf config)) then Ignored
        else
          let affectedEntryPoints :=
            elements (getAffectedEntryPoints entryPointDir
                        (reverseDependencyGraph g) absolutePath) in
          if 0 <? length affectedEntryPoints then
            let relativePaths :=
              List.filter (fun path => negb (Str.startsWith path "/"))
                (map (relativeTo entryPointDir) affectedEntryPoints) in
            if 0 <? length relativePaths then Batch relativePaths true
            else Ignored
          else Ignored
    end.

End Handle.

(** ** The watcher as a whole *)

(** The watcher between two events: its graph and the calls of
    [onFileChange] that have not completed yet, oldest first, each with the
    flag telling whether the graph is rebuilt after it. *)
Record WatcherState : Type := MkWatcher {
  graph : Graph;
  running : list (list string * bool);
}.

Section Events.
Context {P : Path.Api}.
Variable glob : string -> string -> list string.
Variable dependencyTree : string -> option DepTree.
(** The entry points found by [buildInitialDependencyGraph] *)
Variable entryPointFiles : list string.
Variable config : RenderConfig.

(** [start()] registers [handleFileChange] for ['change'], ['add'] and
    ['unlink']; a notification is handled as soon as it arrives, whatever
    else is still running. *)
Definition notify (s : WatcherState) (action : WatcherEventType) (filePath : string)
  : WatcherState :=
  match handleFileChange glob config (graph s) action filePath with
  | Ignored => s
  | Batch files rebuild => MkWatcher (graph s) (running s ++ [(files, rebuild)])
  end.

Inductive watcherStep : WatcherState -> WatcherState -> Prop :=
| WatcherNotify s action filePath :
    watcherStep s (notify s action filePath)
| WatcherBatchDone s before files rebuild after :
    running s = before ++ (files, rebuild) :: after ->
    watcherStep s
      (MkWatcher (if rebuild
                  then buildDependencyGraph dependencyTree entryPointFiles (graph s)
                  else graph s)
                 (before ++ after)).

(** [n] notifications for the same path in a row. *)
Fixpoint notifyTimes (n : nat) (s : WatcherState) (action : WatcherEventType)
  (filePath : string) : WatcherState :=
  match n with
  | 0 => s
  | S n' => notifyTimes n' (notify s action filePath) action filePath
  end.

End Events.

(** How many of the running batches render [entryPoint]. *)
Definition runningRenders (s : WatcherState) (entryPoint : string) : nat :=
  length (List.filter (fun b => Str.member entryPoint (fst b)) (running s)).

(** C7 as the specification words it: however many notifications arrive for
    one path, no entry point is ever in two running batches at once. *)
Definition notificationsAreCoalesced : Prop :=
  forall (P : Path.Api) glob (config : RenderConfig) (g : Graph) action filePath n entryPoint,
    runningRenders (notifyTimes glob config n (MkWatcher g []) action filePath) entryPoint
    <= 1.



(** ** The graph and the dependency trees *)

(** [file] is a key of the dependency tree, at any depth. *)
Inductive inTree (file : string) : DepTree -> Prop :=
| InTreeHere sub children :
    (file, sub) ∈ children -> inTree file (DepNode children)
| InTreeBelow dep sub children :
    (dep, sub) ∈ children -> inTree file sub -> inTree file (DepNode children).

Section Watch.
(** [path.dirname] *)
Variable dirname : string -> string.

(** [getWatchDirectories()]: the directories of the dependencies of every
    entry point and of the keys of the two maps. *)
Definition getWatchDirectories (g : Graph) : gset string :=
  set_map dirname (⋃ (snd <$> map_to_list (entryPointDependencies g)) : gset string)
  ∪ set_map dirname (dom (dependencyGraph g))
  ∪ set_map dirname (dom (reverseDependencyGraph g)).

(** The set [start()] hands to the file-system watcher. *)
Definition watchPatterns (config : RenderConfig) (g : Graph) : gset string :=
  getWatchDirectories g
  ∪ {[Config.entryPointDir config]}
  ∪ match Config.templateDir config with
    | Some t => if Str.isEmpty t then ∅ else {[t]}
    | None => ∅
    end
  ∪ list_to_set (default [] (Config.patterns config)).
End Watch.

(** The third map holds, for every entry point, the same set as the forward
    map. *)
Definition mirrored (g : Graph) : Prop :=
  forall e, entryPointDependencies g !! e = dependencyGraph g !! e.

End Watcher.

(* ===================================================================== *)
(** * Regular expressions *)
(* ===================================================================== *)

(** The fragment of JavaScript's [RegExp] that the template engines use:
    sequences of single-character matchers (a literal, [.], [\s], a
    character class), each optionally quantified by [*], [+] or [?], greedy or
    lazy, with the flags [i] and [s] and an optional leading [^].  Patterns
    are compiled from their source text; matching is by backtracking, in the
    priority order of the language. *)
Module RegExp.

Record Flags : Type := MkFlags {
  ignoreCase : bool;
  dotAll : bool;
}.

Inductive CharSet : Type :=
| CsChar (c : ascii)
| CsAny
| CsSpace
| CsClass (negated : bool) (members : list ascii).

Inductive Quantifier : Type :=
| One
| Star (greedy : bool)
| Plus (greedy : bool)
| Opt (greedy : bool).

Record Atom : Type := MkAtom {
  chars : CharSet;
  quant : Quantifier;
}.

Record Regex : Type := MkRegex {
  anchored : bool;
  atoms : list Atom;
  flags : Flags;
}.

(** ** Compilation of a pattern *)

Inductive Compiled (A : Type) : Type :=
| Parsed (a : A)
| SyntaxError (msg : string)
| Unmodelled.
Arguments Parsed {A} a.
Arguments SyntaxError {A} msg.
Arguments Unmodelled {A}.

(** What a quantifier character would apply to. *)
Inductive Last : Type :=
| NoAtom      (* nothing: a quantifier here has nothing to repeat *)
| Plain       (* an atom without quantifier *)
| Greedy      (* an atom with a greedy quantifier, which [?] makes lazy *)
| Closed.     (* an atom with a lazy quantifier *)

Inductive Mode : Type :=
| Top
| Escape
| ClassOpen
| ClassBody (negated : bool) (members : list ascii)
| ClassEscape (negated : bool) (members : list ascii).

Record ParseState : Type := MkParse {
  parsed : list Atom;          (* most recent first *)
  last : Last;
  mode : Mode;
  sawCaret : bool;
}.

Definition isAlnum (c : ascii) : bool :=
  let n := nat_of_ascii c in
  ((48 <=? n) && (n <=? 57)) || ((65 <=? n) && (n <=? 90)) || ((97 <=? n) && (n <=? 122)).

Definition push (st : ParseState) (cs : CharSet) : ParseState :=
  MkParse (MkAtom cs One :: parsed st) Plain Top (sawCaret st).

(** Apply a quantifier to the most recent atom. *)
Definition quantify (st : ParseState) (q : Quantifier) : Compiled ParseState :=
  match last st, parsed st with
  | Plain, a :: rest => Parsed (MkParse (MkAtom (chars a) q :: rest) Greedy Top (sawCaret st))
  | _, _ => SyntaxError "Nothing to repeat"
  end.

Definition makeLazy (q : Quantifier) : Quantifier :=
  match q with
  | One => One
  | Star _ => Star false
  | Plus _ => Plus false
  | Opt _ => Opt false
  end.

Definition question (st : ParseState) : Compiled ParseState :=
  match last st, parsed st with
  | Plain, a :: rest =>
      Parsed (MkParse (MkAtom (chars a) (Opt true) :: rest) Greedy Top (sawCaret st))
  | Greedy, a :: rest =>
      Parsed (MkParse (MkAtom (chars a) (makeLazy (quant a)) :: rest) Closed Top (sawCaret st))
  | _, _ => SyntaxError "Nothing to repeat"
  end.

Definition classMember (st : ParseState) (negated : bool) (members : list ascii)
  (c : ascii) : ParseState :=
  MkParse (parsed st) (last st) (ClassBody negated (c :: members)) (sawCaret st).

Definition parseStep (st : ParseState) (c : ascii) : Compiled ParseState :=
  match mode st with
  | Top =>
      if Ascii.eqb c "\" then Parsed (MkParse (parsed st) (last st) Escape (sawCaret st))
      else if Ascii.eqb c "[" then Parsed (MkParse (parsed st) (last st) ClassOpen (sawCaret st))
      else if Ascii.eqb c "." then Parsed (push st CsAny)
      else if Ascii.eqb c "*" then quantify st (Star true)
      else if Ascii.eqb c "+" then quantify st (Plus true)
      else if Ascii.eqb c "?" then question st
      else if Ascii.eqb c "^" then
        match parsed st, sawCaret st with
        | [], false => Parsed (MkParse [] NoAtom Top true)
        | _, _ => Unmodelled
        end
      else if Ascii.eqb c ")" then SyntaxError "Unmatched ')'"
      else if Ascii.eqb c "(" || Ascii.eqb c "|" || Ascii.eqb c "$" || Ascii.eqb c "{"
      then Unmodelled
      else Parsed (push st (CsChar c))
  | Escape =>
      if Ascii.eqb c "s" then Parsed (push st CsSpace)
      else if isAlnum c then Unmodelled
      else Parsed (push st (CsChar c))
  | ClassOpen =>
      if Ascii.eqb c "^" then Parsed (MkParse (parsed st) (last st) (ClassBody true []) (sawCaret st))
      else if Ascii.eqb c "]" then Parsed (push st (CsClass false []))
      else if Ascii.eqb c "\" then
        Parsed (MkParse (parsed st) (last st) (ClassEscape false []) (sawCaret st))
      else if Ascii.eqb c "-" then Unmodelled
      else Parsed (classMember st false [] c)
  | ClassBody negated members =>
      if Ascii.eqb c "]" then Parsed (push st (CsClass negated (rev members)))
      else if Ascii.eqb c "\" then
        Parsed (MkParse (parsed st) (last st) (ClassEscape negated members) (sawCaret st))
      else if Ascii.eqb c "-" then Unmodelled
      else Parsed (classMember st negated members c)
  | ClassEscape negated members =>
      if isAlnum c then Unmodelled
      else Parsed (classMember st negated members c)
  end.

Fixpoint parseFrom (st : ParseState) (source : string) : Compiled ParseState :=
  match source with
  | EmptyString => Parsed st
  | String c rest =>
      match parseStep st c with
      | Parsed st' => parseFrom st' rest
      | SyntaxError msg => SyntaxError msg
      | Unmodelled => Unmodelled
      end
  end.

Definition finish (fl : Flags) (st : ParseState) : Compiled Regex :=
  match mode st with
  | Top => Parsed (MkRegex (sawCaret st) (rev (parsed st)) fl)
  | Escape => SyntaxError "\ at end of pattern"
  | _ => SyntaxError "Unterminated character class"
  end.

Fixpoint parseFlags (fl : Flags) (source : string) : Compiled Flags :=
  match source with
  | EmptyString => Parsed fl
  | String c rest =>
      if Ascii.eqb c "i" then
        if ignoreCase fl then SyntaxError "Invalid flags"
        else parseFlags (MkFlags true (dotAll fl)) rest
      else if Ascii.eqb c "s" then
        if dotAll fl then SyntaxError "Invalid flags"
        else parseFlags (MkFlags (ignoreCase fl) true) rest
      else if Str.member (Str.chr c) ["g"; "m"; "u"; "y"; "d"; "v"] then Unmodelled
      else SyntaxError "Invalid flags"
  end.

(** [new RegExp(source, flags)] *)
Definition newRegExp (source flagSource : string) : Compiled Regex :=
  match parseFlags (MkFlags false false) flagSource with
  | Parsed fl =>
      match parseFrom (MkParse [] NoAtom Top false) source with
      | Parsed st => finish fl st
      | SyntaxError msg => SyntaxError msg
      | Unmodelled => Unmodelled
      end
  | SyntaxError msg => SyntaxError msg
  | Unmodelled => Unmodelled
  end.

(** ** Matching *)

(** [Canonicalize] for case-insensitive matching, on the Latin-1 range. *)
Definition canonicalize (c : ascii) : ascii :=
  let n := nat_of_ascii c in
  if ((97 <=? n) && (n <=? 122))
     || ((224 <=? n) && (n <=? 254) && negb (n =? 247))
  then ascii_of_nat (n - 32) else c.

Definition sameChar (fl : Flags) (a b : ascii) : bool :=
  if ignoreCase fl then Ascii.eqb (canonicalize a) (canonicalize b) else Ascii.eqb a b.

Definition isLineTerminator (c : ascii) : bool :=
  let n := nat_of_ascii c in (n =? 10) || (n =? 13).

Definition accepts (fl : Flags) (cs : CharSet) (c : ascii) : bool :=
  match cs with
  | CsChar a => sameChar fl a c
  | CsAny => dotAll fl || negb (isLineTerminator c)
  | CsSpace => Str.isSpace c
  | CsClass negated members => xorb negated (existsb (fun a => sameChar fl a c) members)
  end.

Definition consMatch (c : ascii) (r : option (string * string)) : option (string * string) :=
  match r with
  | Some (m, rest) => Some (String c m, rest)
  | None => None
  end.

(** A starred matcher followed by the continuation [k]: the greedy form
    tries the longest run first, the lazy form the shortest. *)
Fixpoint star (accept : ascii -> bool) (greedy : bool)
  (k : string -> option (string * string)) (s : string) : option (string * string) :=
  if greedy then
    match s with
    | String c s' =>
        if accept c then
          match star accept greedy k s' with
          | Some (m, rest) => Some (String c m, rest)
          | None => k s
          end
        else k s
    | EmptyString => k s
    end
  else
    match k s with
    | Some r => Some r
    | None =>
        match s with
        | String c s' => if accept c then consMatch c (star accept greedy k s') else None
        | EmptyString => None
        end
    end.

(** Match the atoms at the start of [s]: the matched text and the rest. *)
Fixpoint matchAtoms (fl : Flags) (atoms : list Atom) (s : string)
  : option (string * string) :=
  match atoms with
  | [] => Some (EmptyString, s)
  | a :: rest =>
      let accept := accepts fl (chars a) in
      let k := matchAtoms fl rest in
      match quant a with
      | One =>
          match s with
          | String c s' => if accept c then consMatch c (k s') else None
          | EmptyString => None
          end
      | Star greedy => star accept greedy k s
      | Plus greedy =>
          match s with
          | String c s' => if accept c then consMatch c (star accept greedy k s') else None
          | EmptyString => None
          end
      | Opt greedy =>
          if greedy then
            match s with
            | String c s' =>
                if accept c then
                  match k s' with
                  | Some (m, r) => Some (String c m, r)
                  | None => k s
                  end
                else k s
            | EmptyString => k s
            end
          else
            match k s with
            | Some r => Some r
            | None =>
                match s with
                | String c s' => if accept c then consMatch c (k s') else None
                | EmptyString => None
                end
            end
      end
  end.

(** Every character of [run] is accepted. *)
Fixpoint allAccepted (accept : ascii -> bool) (run : string) : bool :=
  match run with
  | EmptyString => true
  | String c run' => accept c && allAccepted accept run'
  end.

(** The texts a sequence of atoms can match, whatever the priorities. *)
Inductive Matches (fl : Flags) : list Atom -> string -> Prop :=
| MatchesNil : Matches fl [] EmptyString
| MatchesOne cs rest c m :
    accepts fl cs c = true -> Matches fl rest m ->
    Matches fl (MkAtom cs One :: rest) (String c m)
| MatchesStar cs greedy rest run m :
    allAccepted (accepts fl cs) run = true -> Matches fl rest m ->
    Matches fl (MkAtom cs (Star greedy) :: rest) (run +:+ m)
| MatchesPlus cs greedy rest c run m :
    accepts fl cs c = true -> allAccepted (accepts fl cs) run = true ->
    Matches fl rest m ->
    Matches fl (MkAtom cs (Plus greedy) :: rest) (String c (run +:+ m))
| MatchesOptSome cs greedy rest c m :
    accepts fl cs c = true -> Matches fl rest m ->
    Matches fl (MkAtom cs (Opt greedy) :: rest) (String c m)
| MatchesOptNone cs greedy rest m :
    Matches fl rest m ->
    Matches fl (MkAtom cs (Opt greedy) :: rest) m.

(** The leftmost match: the text before it, the match, the text after. *)
Fixpoint search (fl : Flags) (atoms : list Atom) (s : string)
  : option (string * string * string) :=
  match matchAtoms fl atoms s with
  | Some (m, rest) => Some (EmptyString, m, rest)
  | None =>
      match s with
      | String c s' =>
          match search fl atoms s' with
          | Some (before, m, rest) => Some (String c before, m, rest)
          | None => None
          end
      | EmptyString => None
      end
  end.

(** [regex.exec(s)], for a regex without the [g] flag. *)
Definition exec (re : Regex) (s : string) : option (string * string * string) :=
  if anchored re then
    match matchAtoms (flags re) (atoms re) s with
    | Some (m, rest) => Some (EmptyString, m, rest)
    | None => None
    end
  else search (flags re) (atoms re) s.

(** [regex.test(s)] *)
Definition test (re : Regex) (s : string) : bool :=
  match exec re s with Some _ => true | None => false end.

(** [s.match(regex)?.[0]] *)
Definition matchOf (re : Regex) (s : string) : option string :=
  match exec re s with Some (_, m, _) => Some m | None => None end.

(** [s.replace(regex, replacer)] with a function as replacer. *)
Definition replace (re : Regex) (s : string) (replacer : string -> string) : string :=
  match exec re s with
  | Some (before, m, rest) => before +:+ replacer m +:+ rest
  | None => s
  end.

(** [s.replace(regex, replacer)] for a regex with the [g] flag whose matches
    are single characters. *)
Fixpoint replaceEach (fl : Flags) (atoms : list Atom) (s : string)
  (replacer : string -> string) : string :=
  match s with
  | EmptyString => EmptyString
  | String c s' =>
      match matchAtoms fl atoms (Str.chr c) with
      | Some (m, EmptyString) => replacer m +:+ replaceEach fl atoms s' replacer
      | _ => String c (replaceEach fl atoms s' replacer)
      end
  end.

End RegExp.

(* ===================================================================== *)
(** * The template-merge engines *)
(* ===================================================================== *)

Module Engines.
Import Js RegExp.

(** [MountInfo]: the React node (named by the environment) and the id of
    the element it is mounted in. *)
Record MountInfo : Type := {
  node : string;
  rootElementId : string;
}.

Record MergeContext : Type := {
  template : string;
  content : string;
  styles : string;
  mountInfo : option MountInfo;
}.

(** A regular expression literal, which the language has accepted when the
    module was loaded. *)
Definition literal (source flagSource : string) : Regex :=
  match newRegExp source flagSource with
  | Parsed re => re
  | _ => MkRegex false [] (MkFlags false false)
  end.

(** [new RegExp(source, flags)] as a computation: a pattern that does not
    compile throws a [SyntaxError]. *)
Definition compile (source flagSource : string) : Completion Regex :=
  match newRegExp source flagSource with
  | Parsed re => Normal re
  | SyntaxError msg =>
      Throw (ThrownError (MkError ClsError ("Invalid regular expression: " +:+ msg)
                            None None None None))
  | Unmodelled => Throw (ThrownValue "pattern outside the modelled fragment")
  end.

(** [str.replace(/[.*+?^${}()|[\]\\]/g, '\\$&')] *)
Definition escapeRegex (str : string) : string :=
  let special := literal "[.*+?^${}()|[\]\\]" EmptyString in
  replaceEach (flags special) (atoms special) str (fun m => "\" +:+ m).

Definition quoteClass : string := "[" +:+ Str.chr Str.dquote +:+ "']".

(** [`<div\\s+id=["']${escapeRegex(rootElementId)}["'][^>]*>.*?</div>`] *)
Definition divPattern (rootElementId : string) : string :=
  "<div\s+id=" +:+ quoteClass +:+ escapeRegex rootElementId +:+ quoteClass
  +:+ "[^>]*>.*?</div>".

(** [/^<div[^>]*>/i] *)
Definition openTagRegex : Regex := literal "^<div[^>]*>" "i".

(** The replacer of the merge: keep the opening tag of the matched element
    and put the styles and the content inside it. *)
Definition fillDiv (styles content m : string) : string :=
  match matchOf openTagRegex m with
  | Some openTag => openTag +:+ styles +:+ content +:+ "</div>"
  | None => m
  end.

(** The part all engines share: build the pattern, test, replace or throw. *)
Definition replaceRootDiv (notFound : string -> string)
  (template content styles rootElementId : string) : Completion string :=
  divRegex ← compile (divPattern rootElementId) "is";
  if test divRegex template
  then Normal (replace divRegex template (fillDiv styles content))
  else throwError (newError (notFound rootElementId)).

(** ** The function-based engines *)

Definition checkedMerge (notFound : string -> string) (context : MergeContext)
  : Completion string :=
  if Str.isEmpty (template context) then
    throwError (newError "Template content is required")
  else if Str.isEmpty (content context) then
    throwError (newError "Rendered content is required")
  else
    match mountInfo context with
    | None => throwError (newError "Mount info with rootElementId is required")
    | Some mount =>
        if Str.isEmpty (rootElementId mount) then
          throwError (newError "Mount info with rootElementId is required")
        else
          replaceRootDiv notFound (template context) (content context)
            (styles context) (rootElementId mount)
    end.

(** [`Could not find <div id="${id}"> in template`] *)
Definition htmlNotFound (id : string) : string :=
  "Could not find <div id=" +:+ Str.chr Str.dquote +:+ id +:+ Str.chr Str.dquote
  +:+ "> in template".

(** [`No div with id="${id}" found in template`] *)
Definition divNotFound (id : string) : string :=
  "No div with id=" +:+ Str.chr Str.dquote +:+ id +:+ Str.chr Str.dquote
  +:+ " found in template".

Definition mergeHTMLTemplate (context : MergeContext) : Completion string :=
  checkedMerge htmlNotFound context.

Definition mergeLiquidTemplate (context : MergeContext) : Completion string :=
  checkedMerge divNotFound context.

(** ** The class-based engines *)

Inductive EngineKind : Type := LiquidEngine | PHPEngine.

(** [engine.config.fileExtensions] after [createDefaultConfig]. *)
Record EngineConfigs : Type := {
  liquidExtensions : option (list string);
  phpExtensions : option (list string);
}.

Definition engineExtensions (configs : EngineConfigs) (kind : EngineKind) : list string :=
  match kind with
  | LiquidEngine => default [".liquid"; ".html"] (liquidExtensions configs)
  | PHPEngine => default [".php"] (phpExtensions configs)
  end.

(** [AsyncResult<string, RenderError>] *)
Inductive MergeResult : Type :=
| MergeOk (data : string)
| MergeFailed (error : JsError).

(** [createTemplateError(message, code, cause)] *)
Definition createTemplateError (msg code : string) (cause : option JsError) : JsError :=
  MkError ClsAnonTemplate msg (Some code) None cause None.

(** [validateMergeInputs(context)] *)
Definition validateMergeInputs (context : MergeContext) : Completion unit :=
  if Str.isEmpty (template context) then
    throwError (createTemplateError "Template content is required" "TEMPLATE_EMPTY" None)
  else if Str.isEmpty (content context) then
    throwError (createTemplateError "Rendered content is required" "CONTENT_EMPTY" None)
  else
    match mountInfo context with
    | Some mount =>
        if Str.isEmpty (rootElementId mount) then
          throwError (createTemplateError "Mount info with rootElementId is required"
                        "MOUNT_INFO_INVALID" None)
        else Normal tt
    | None =>
        throwError (createTemplateError "Mount info with rootElementId is required"
                      "MOUNT_INFO_INVALID" None)
    end.

(** [performMerge(template, content, styles, mountInfo)] *)
Definition performMerge (template content styles : string) (mount : MountInfo)
  : Completion string :=
  replaceRootDiv divNotFound template content styles (rootElementId mount).

Definition mergeErrorCode (kind : EngineKind) : string :=
  match kind with
  | LiquidEngine => "LIQUID_MERGE_ERROR"
  | PHPEngine => "PHP_MERGE_ERROR"
  end.

(** [engine.merge(template, content, styles, mountInfo)]: every exception is
    turned into a failed result. *)
Definition merge (kind : EngineKind) (template content styles : string)
  (mount : MountInfo) : MergeResult :=
  let context := Build_MergeContext template content styles (Some mount) in
  match (_ ← validateMergeInputs context;
         performMerge template content styles mount) with
  | Normal result => MergeOk result
  | Throw (ThrownError error) =>
      MergeFailed (createTemplateError (message error) (mergeErrorCode kind) (Some error))
  | Throw (ThrownValue _) =>
      MergeFailed (createTemplateError "Unknown merge error" (mergeErrorCode kind) None)
  | Exit _ =>
      MergeFailed (createTemplateError "Unknown merge error" (mergeErrorCode kind) None)
  end.

(** [getFileExtension(filePath)] *)
Definition getFileExtension (filePath : string) : string :=
  match Path.splitLast "." filePath with
  | Some (_, e) => "." +:+ e
  | None => EmptyString
  end.

(** [selectEngineByFile(filePath, configs)] *)
Definition selectEngineByFile (filePath : string) (configs : EngineConfigs) : EngineKind :=
  let extension := getFileExtension filePath in
  if Str.member extension (engineExtensions configs LiquidEngine) then LiquidEngine
  else PHPEngine.

(** [createTemplateEngine(type, configs, filePath)] *)
Definition createTemplateEngine (type : string) (configs : EngineConfigs)
  (filePath : string) : EngineKind :=
  if String.eqb type "auto" && negb (Str.isEmpty filePath)
  then selectEngineByFile filePath configs
  else if String.eqb type "liquid" then LiquidEngine
  else PHPEngine.

(** [LiquidTemplateEngine.isLiquidTemplate(content)] *)
Definition isLiquidTemplate (content : string) : bool :=
  existsb (fun re => test re content)
    [literal "\{\{.*?\}\}" EmptyString;
     literal "\{%.*?%\}" EmptyString;
     literal "\{\%-.*?-%\}" EmptyString].

(** [PHPTemplateEngine.isPHPTemplate(content)] *)
Definition isPHPTemplate (content : string) : bool :=
  existsb (fun re => test re content)
    [literal "<\?php" "i"; literal "<\?=" "i"; literal "<\?" "i"].

(** [detectEngineFromTemplate(templateContent)] *)
Definition detectEngineFromTemplate (templateContent : string) : string :=
  if isLiquidTemplate templateContent then "liquid"
  else if isPHPTemplate templateContent then "php"
  else "auto".

(** ** What the root-element pattern describes *)

(** The atoms of a text that is matched character by character. *)
Definition literalAtoms (text : string) : list Atom :=
  map (fun c => MkAtom (CsChar c) One) (list_ascii_of_string text).

Definition quoteSet : CharSet := CsClass false [Str.dquote; "'"%char].
Definition notClosing : CharSet := CsClass true [">"%char].

(** The atoms [divPattern rootElementId] compiles to. *)
Definition rootDivAtoms (rootElementId : string) : list Atom :=
  literalAtoms "<div" ++ [MkAtom CsSpace (Plus true)] ++ literalAtoms "id="
  ++ [MkAtom quoteSet One] ++ literalAtoms rootElementId ++ [MkAtom quoteSet One]
  ++ [MkAtom notClosing (Star true); MkAtom (CsChar ">") One; MkAtom CsAny (Star false)]
  ++ literalAtoms "</div>".

Definition rootDivRegex (rootElementId : string) : Regex :=
  MkRegex false (rootDivAtoms rootElementId) (MkFlags true true).

(** The atoms of [openTagRegex]. *)
Definition openTagAtoms : list Atom :=
  literalAtoms "<div" ++ [MkAtom notClosing (Star true); MkAtom (CsChar ">") One].

(** Two texts that are equal up to letter case. *)
Fixpoint sameText (a b : string) : bool :=
  match a, b with
  | EmptyString, EmptyString => true
  | String x a', String y b' =>
      Ascii.eqb (canonicalize x) (canonicalize y) && sameText a' b'
  | _, _ => false
  end.

Definition isQuote (c : ascii) : bool := Ascii.eqb c Str.dquote || Ascii.eqb c "'".
Definition notGt (c : ascii) : bool := negb (Ascii.eqb c ">").

(** The text of a root element as the template has to spell it: [<div],
    white space, [id=], a quote character, the id, a quote character, the
    rest of the opening tag, any content, [</div>].  [sameId] says when the id
    of the template counts as the one looked for; the tag and attribute names
    are compared up to letter case. *)
Definition RootDiv (sameId : string -> string -> bool) (id m : string) : Prop :=
  exists tag space attr q1 idText q2 attrs body closing,
    m = tag +:+ space +:+ attr +:+ String q1 idText +:+ String q2 attrs
        +:+ String ">" body +:+ closing
    /\ sameText "<div" tag = true
    /\ space <> EmptyString /\ allAccepted Str.isSpace space = true
    /\ sameText "id=" attr = true
    /\ isQuote q1 = true /\ sameId id idText = true /\ isQuote q2 = true
    /\ allAccepted notGt attrs = true
    /\ sameText "</div>" closing = true.

(** The template contains such an element. *)
Definition containsRootDiv (sameId : string -> string -> bool) (id template : string)
  : Prop :=
  exists before m after, template = before +:+ m +:+ after /\ RootDiv sameId id m.

(** The context of a merge for a given mount info. *)
Definition contextOf (template content styles : string) (mount : MountInfo)
  : MergeContext :=
  Build_MergeContext template content styles (Some mount).

(** "The merge fails with an error whose message identifies the missing id
    whenever the template contains no element matching the id", for the
    templates and contents that [inputs] admits and every mount info.
    [sameId] says when an id found in the template matches the one looked
    for. *)
Definition mergeNamesMissingId (sameId : string -> string -> bool)
  (inputs : string -> string -> Prop) (merge : MergeContext -> Completion string)
  : Prop :=
  forall template content styles mount,
    inputs template content ->
    ~ containsRootDiv sameId (rootElementId mount) template ->
    exists e,
      merge (contextOf template content styles mount) = Throw (ThrownError e)
      /\ Str.includes (Js.message e) (rootElementId mount) = true.

(** Every template and content, and the non-empty ones. *)
Definition anyInput (template content : string) : Prop := True.
Definition nonEmptyInput (template content : string) : Prop :=
  template <> EmptyString /\ content <> EmptyString.


(** ** The parts of a matched root element *)

(** The atoms of the opening tag in [rootDivAtoms]. *)
Definition openingAtoms (rootElementId : string) : list Atom :=
  literalAtoms "<div" ++ [MkAtom CsSpace (Plus true)] ++ literalAtoms "id="
  ++ [MkAtom quoteSet One] ++ literalAtoms rootElementId ++ [MkAtom quoteSet One]
  ++ [MkAtom notClosing (Star true); MkAtom (CsChar ">") One].

(** The opening tag of a root element: [<div], white space, [id=], the
    quoted id, the rest of the tag up to its [>]. *)
Definition OpeningTag (id opening : string) : Prop :=
  exists tag space attr q1 idText q2 attrs,
    opening = tag +:+ space +:+ attr +:+ String q1 idText +:+ String q2 attrs +:+ ">"
    /\ sameText "<div" tag = true
    /\ space <> EmptyString /\ allAccepted Str.isSpace space = true
    /\ sameText "id=" attr = true
    /\ isQuote q1 = true /\ sameText id idText = true /\ isQuote q2 = true
    /\ allAccepted notGt attrs = true.

(** [s] begins with [text], up to letter case. *)
Fixpoint beginsWith (text s : string) : bool :=
  match text, s with
  | EmptyString, _ => true
  | String x text', String y s' =>
      Ascii.eqb (canonicalize x) (canonicalize y) && beginsWith text' s'
  | String _ _, EmptyString => false
  end.

(** No suffix of [body], followed by [rest], begins with [text]: reading
    on from any place in [body], [text] does not come next. *)
Definition noneBegins (text body rest : string) : Prop :=
  forall skipped left,
    body = skipped +:+ left -> left <> EmptyString ->
    beginsWith text (left +:+ rest) = false.

(** ** The markers of a template language *)

Definition sameLine (c : ascii) : bool := negb (isLineTerminator c).

(** The template has [opening], then text without a line break, then
    [closing]. *)
Definition hasMarker (opening closing template : string) : Prop :=
  exists before inside after,
    template = before +:+ (opening +:+ inside +:+ closing) +:+ after
    /\ allAccepted sameLine inside = true.

End Engines.

(* ===================================================================== *)
(** * The render worker (worker.ts) *)
(* ===================================================================== *)

Module Worker.
Import Js Config Engines.

(** The part of the file system the worker touches. *)
Record FileSystem : Type := MkFs {
  files : gmap string string;
  directories : gset string;
}.

Record WorkerState : Type := MkState {
  fs : FileSystem;
  console : list Line;
}.

Abbreviation Eff := (Js.Eff WorkerState).

Definition consoleLog (text : string) : Eff unit :=
  fun st => (Normal tt, MkState (fs st) (console st ++ [Out text])).
Definition consoleError (text : string) : Eff unit :=
  fun st => (Normal tt, MkState (fs st) (console st ++ [Err text])).

(** A value of the parsed configuration as the function-based worker sees
    it.  The worker tests such a value for truthiness, compares it with
    [false] and with strings, converts it to a string (in a template literal,
    as a property key) and hands it to the path functions, which accept
    strings only.  [VOther] stands for every value that is neither
    [undefined], a string nor [false]: [null], [true], a number, an array, an
    object.  It records whether the value is truthy, the string it converts
    to ([None] when the conversion throws, as for an object whose [toString]
    and [valueOf] properties are not functions), and how the error of a path
    function describes it. *)
Inductive Value : Type :=
| VUndefined
| VString (s : string)
| VFalse
| VOther (truthy : bool) (shown : option string) (received : string).

Definition truthyValue (v : Value) : bool :=
  match v with
  | VUndefined | VFalse => false
  | VString s => negb (Str.isEmpty s)
  | VOther truthy _ _ => truthy
  end.

(** [value || fallback] *)
Definition orValue (v : Value) (fallback : string) : Value :=
  if truthyValue v then v else VString fallback.

(** [new TypeError(msg)] *)
Definition newTypeError (msg : string) : JsError :=
  MkError ClsTypeError msg None None None None.

(** [e instanceof TypeError] *)
Definition instanceofTypeError (e : JsError) : bool :=
  match cls e with ClsTypeError => true | _ => false end.

(** The conversion of a value to a string. *)
Definition toText (v : Value) : Completion string :=
  match v with
  | VUndefined => Normal "undefined"
  | VString s => Normal s
  | VFalse => Normal "false"
  | VOther _ (Some text) _ => Normal text
  | VOther _ None _ => throwError (newTypeError "Cannot convert object to primitive value")
  end.

(** How the error of a path function describes the value it has received. *)
Definition describe (v : Value) : string :=
  match v with
  | VUndefined => "undefined"
  | VString s => "type string ('" +:+ s +:+ "')"
  | VFalse => "type boolean (false)"
  | VOther _ _ received => received
  end.

(** The error of a path function for an argument that is not a string. *)
Definition invalidArgType (argument : string) (v : Value) : JsError :=
  MkError ClsTypeError
    ("The " +:+ Str.chr Str.dquote +:+ argument +:+ Str.chr Str.dquote
     +:+ " argument must be of type string. Received " +:+ describe v)
    (Some "ERR_INVALID_ARG_TYPE") None None None.

(** What [JSON.parse(configJson)] gives the function-based worker, which
    declares it a [RenderConfig] without checking it. *)
Module Parsed.

(** The properties the worker reads; a property that is missing is
    [undefined]. *)
Record Properties : Type := {
  templateExtension : Value;
  entryPointDir : Value;
  outputDir : Value;
  mountInfoExport : Value;
  prettierConfig : Value;
  templateDir : Value;
  defaultTemplate : Value;
  templateEngine : Value;
}.

(** The parsed text: [null], of which no property can be read, or any other
    value. *)
Inductive Json : Type :=
| Null
| NonNull (properties : Properties).

End Parsed.

(** [config.name], where [name] is the first property read. *)
Definition propertiesOf (config : Parsed.Json) (name : string)
  : Completion Parsed.Properties :=
  match config with
  | Parsed.Null =>
      throwError (newTypeError ("Cannot read properties of null (reading '"
                                +:+ name +:+ "')"))
  | Parsed.NonNull properties => Normal properties
  end.

Definition optionalString (value : option string) : Value :=
  match value with
  | Some s => VString s
  | None => VUndefined
  end.

(** What the worker parses when the renderer has started it: the renderer
    passes [JSON.stringify(config)] for a configuration [config] that the
    schema has accepted. *)
Definition ofRenderConfig (config : RenderConfig) : Parsed.Json :=
  Parsed.NonNull {|
    Parsed.templateExtension := optionalString (Config.templateExtension config);
    Parsed.entryPointDir := VString (Config.entryPointDir config);
    Parsed.outputDir := VString (Config.outputDir config);
    Parsed.mountInfoExport := optionalString (Config.mountInfoExport config);
    Parsed.prettierConfig :=
      match Config.prettierConfig config with
      | None => VUndefined
      | Some PrettierOff => VFalse
      | Some (PrettierOptions _) =>
          VOther true (Some "[object Object]") "an instance of Object"
      end;
    Parsed.templateDir := optionalString (Config.templateDir config);
    Parsed.defaultTemplate := optionalString (Config.defaultTemplate config);
    Parsed.templateEngine := optionalString (Config.templateEngine config);
  |}.

(** The value of one export of the entry-point module. *)
Inductive ExportValue : Type :=
| NotExported
| NotAnObject
| Exported (node : option string) (rootElementId : option string).

(** What [require] returns for a module: a value with properties, or [null]
    or [undefined] ([missing] is the one of the two words), of which no
    property can be read.  [get name] is the outcome of reading the export
    [name] and, of an object that has them, its properties [node] and
    [rootElementId]: a module can define them by getters, which run code of
    the module and may throw. *)
Inductive Required : Type :=
| NoExports (missing : string)
| Exports (get : string -> Completion ExportValue).

(** [module[exportName]], with the reading of [node] and [rootElementId] *)
Definition readExport (module : Required) (exportName : Value)
  : Completion (string * ExportValue) :=
  match module with
  | NoExports missing =>
      match toText exportName with
      | Normal key =>
          throwError (newTypeError ("Cannot read properties of " +:+ missing
                                    +:+ " (reading '" +:+ key +:+ "')"))
      | _ => throwError (newTypeError ("Cannot read properties of " +:+ missing))
      end
  | Exports get =>
      key ← toText exportName;
      exported ← get key;
      Normal (key, exported)
  end.

(** What the worker gets from its surroundings: its arguments, the JSON
    parser, the module loader ([import] in the class-based worker, [require]
    in the function-based one), React and styled-components, Prettier, and
    the faults of the file system.  [mergePHPTemplate] is the PHP engine of
    the function-based sources, which is not among the source files. *)
Record Env (C : Type) : Type := {
  argvFilePath : option string;
  argvConfigJson : option string;
  jsonParse : string -> option C;
  loadModule : string -> Completion (string -> ExportValue);
  requireFromCwd : string -> Completion Required;
  styledComponents : bool;
  renderToStaticMarkup : string -> Completion string;
  getStyleTags : string -> string;
  format : string -> Completion string;
  readFault : string -> option JsError;
  writeFault : string -> option JsError;
  mergePHPTemplate : MergeContext -> Completion string;
}.
Arguments argvFilePath {C} _.
Arguments argvConfigJson {C} _.
Arguments jsonParse {C} _ _.
Arguments loadModule {C} _ _.
Arguments requireFromCwd {C} _ _.
Arguments styledComponents {C} _.
Arguments renderToStaticMarkup {C} _ _.
Arguments getStyleTags {C} _ _.
Arguments format {C} _ _.
Arguments readFault {C} _ _.
Arguments writeFault {C} _ _.
Arguments mergePHPTemplate {C} _ _.

Definition enoent (path : string) : JsError :=
  MkError ClsError ("ENOENT: no such file or directory, open '" +:+ path +:+ "'")
          (Some "ENOENT") None None None.

(** [error instanceof Error && 'code' in error && error.code === 'ENOENT'] *)
Definition isEnoent (t : Thrown) : bool :=
  match t with
  | ThrownError e =>
      match code e with Some c => String.eqb c "ENOENT" | None => false end
  | ThrownValue _ => false
  end.

Section FileOps.
Context {C : Type}.
Variable env : Env C.

(** [readFile(path, 'utf8')] *)
Definition readFile (path : string) : Eff string :=
  fun st =>
    match readFault env path with
    | Some e => (Throw (ThrownError e), st)
    | None =>
        match files (fs st) !! path with
        | Some text => (Normal text, st)
        | None => (Throw (ThrownError (enoent path)), st)
        end
    end.

(** [mkdir(dir, { recursive: true })] *)
Definition mkdir (dir : string) : Eff unit :=
  fun st =>
    match writeFault env dir with
    | Some e => (Throw (ThrownError e), st)
    | None =>
        (Normal tt,
         MkState (MkFs (files (fs st)) ({[dir]} ∪ directories (fs st))) (console st))
    end.

(** [writeFile(path, text, 'utf8')] *)
Definition writeFile (path text : string) : Eff unit :=
  fun st =>
    match writeFault env path with
    | Some e => (Throw (ThrownError e), st)
    | None =>
        (Normal tt,
         MkState (MkFs (<[path := text]> (files (fs st))) (directories (fs st)))
                 (console st))
    end.

End FileOps.

(** [value || fallback] on an optional string *)
Definition orDefault (value : option string) (fallback : string) : string :=
  match value with
  | Some s => if Str.isEmpty s then fallback else s
  | None => fallback
  end.

(** A truthy optional string. *)
Definition truthy (value : option string) : option string :=
  match value with
  | Some s => if Str.isEmpty s then None else Some s
  | None => None
  end.

(** ** The function-based worker *)

Section Current.
Context {P : Path.Api}.
Variable env : Env Parsed.Json.

(** [exitWithError(message, filePath, cause)] *)
Definition exitWithError {A} (msg : string) (filePath : option string)
  (cause : option JsError) : Eff A :=
  _ ← consoleError msg;
  _ ← whenSome (truthy filePath) (fun f => consoleError ("File: " +:+ f));
  _ ← whenSome cause (fun c => consoleError (message c));
  processExit 1.

(** [path.join(a, b)]: every argument has to be a string; the arguments are
    checked from left to right. *)
Definition joinValues (a b : Value) : Completion string :=
  match a, b with
  | VString x, VString y => Normal (Path.join x y)
  | VString _, _ => throwError (invalidArgType "path" b)
  | _, _ => throwError (invalidArgType "path" a)
  end.

(** [path.resolve(base, p)] for a non-empty string [p]: the arguments are
    checked from right to left, and only until the path is absolute. *)
Definition resolveValue (base : Value) (p : string) : Completion string :=
  match base with
  | VString b => Normal (Path.resolveIn b p)
  | _ =>
      if Str.startsWith p "/" then Normal (Path.resolve p)
      else throwError (invalidArgType "paths[0]" base)
  end.

(** What [main] has computed when it reaches the merge. *)
Record Prepared : Type := {
  config : Parsed.Properties;
  filePath : string;
  outputPath : string;
  absoluteOutputPath : string;
  mergeContext : MergeContext;
}.

(** [main] up to and including the loading of the template.  What is thrown
    outside the [try] statements of [main] is not caught: the promise of
    [main] is rejected with it. *)
Definition prepare : Eff Prepared :=
  match truthy (argvFilePath env), truthy (argvConfigJson env) with
  | Some filePath, Some configJson =>
      match jsonParse env configJson with
      | None => exitWithError "Invalid config JSON" None (Some (newError "Unexpected token"))
      | Some parsed =>
          let dir := Path.dir filePath in
          let name := Path.name filePath in
          config ← lift (propertiesOf parsed "templateExtension");
          let outputExtension := orValue (Parsed.templateExtension config) ".html" in
          extension ← lift (toText outputExtension);
          let outputPath := Path.join dir (name +:+ extension) in
          absoluteInputPath ← lift (resolveValue (Parsed.entryPointDir config) filePath);
          absoluteOutputPath ←
            lift (joinValues (Parsed.outputDir config) (VString outputPath));
          module ← tryCatchEff (lift (requireFromCwd env absoluteInputPath))
                     (fun error => exitWithError "Failed to load module" (Some filePath)
                                     (asErrorOpt error));
          exported ← lift (readExport module
                             (orValue (Parsed.mountInfoExport config) "default"));
          let exportName := fst exported in
          match snd exported with
          | Exported (Some node) (Some rootElementId) =>
              let mountInfo := Build_MountInfo node rootElementId in
              rendered ← tryCatchEff
                           (html ← lift (renderToStaticMarkup env node);
                            let styles := if styledComponents env
                                          then getStyleTags env node else EmptyString in
                            ret (html, styles))
                           (fun error =>
                              exitWithError "Failed to render React component"
                                (Some filePath) (asErrorOpt error));
              formatted ←
                match Parsed.prettierConfig config with
                | VFalse => ret rendered
                | _ =>
                    tryCatchEff
                      (html ← lift (format env (fst rendered));
                       if Str.isEmpty (snd rendered) then ret (html, snd rendered)
                       else styles ← lift (format env (snd rendered));
                            ret (html, styles))
                      (fun error =>
                         exitWithError "Prettier formatting failed" (Some filePath)
                           (asErrorOpt error))
                end;
              if truthyValue (Parsed.templateDir config) then
                templatePath ←
                  lift (joinValues (Parsed.templateDir config) (VString outputPath));
                template ←
                  tryCatchEff (readFile env templatePath)
                    (fun error =>
                       if isEnoent error then
                         if truthyValue (Parsed.defaultTemplate config) then
                           defaultTemplatePath ←
                             lift (joinValues (Parsed.templateDir config)
                                     (Parsed.defaultTemplate config));
                           tryCatchEff (readFile env defaultTemplatePath)
                             (fun _ =>
                                exitWithError
                                  ("Template not found: " +:+ templatePath
                                   +:+ " and default template not found: "
                                   +:+ defaultTemplatePath)
                                  (Some filePath) None)
                         else
                           exitWithError ("Template not found: " +:+ templatePath)
                             (Some filePath) None
                       else exitWithError "Failed to read template" (Some filePath)
                              (asErrorOpt error));
                ret {| config := config;
                       filePath := filePath;
                       outputPath := outputPath;
                       absoluteOutputPath := absoluteOutputPath;
                       mergeContext :=
                         Build_MergeContext template (fst formatted) (snd formatted)
                           (Some mountInfo) |}
              else exitWithError "Template directory not configured" (Some filePath) None
          | _ =>
              exitWithError ("Invalid export '" +:+ exportName
                             +:+ "': must contain node and rootElementId")
                (Some filePath) None
          end
      end
  | _, _ => exitWithError "Required arguments: filePath configJson" None None
  end.

(** The [switch (config.templateEngine)] of the merge. *)
Definition mergeByEngine (engine : Value) (context : MergeContext)
  : Completion string :=
  match engine with
  | VString "liquid" => mergeLiquidTemplate context
  | VString "php" => mergePHPTemplate env context
  | VString "html" => mergeHTMLTemplate context
  | other =>
      shown ← toText other;
      throwError (newError ("Unknown template engine type: " +:+ shown))
  end.

(** The template-merge step of [main]. *)
Definition mergeStep (p : Prepared) : Completion string :=
  mergeByEngine (Parsed.templateEngine (config p)) (mergeContext p).

(** The write step of [main]. *)
Definition writeStep (p : Prepared) (finalHtml : string) : Eff unit :=
  tryCatchEff
    (_ ← mkdir env (Path.dir (absoluteOutputPath p));
     writeFile env (absoluteOutputPath p) finalHtml)
    (fun error => exitWithError "Failed to write output" (Some (filePath p))
                    (asErrorOpt error)).

Definition main : Eff unit :=
  p ← prepare;
  finalHtml ← tryCatchEff (lift (mergeStep p))
                (fun error => exitWithError "Template merge failed" (Some (filePath p))
                                (asErrorOpt error));
  _ ← writeStep p finalHtml;
  _ ← consoleLog ("Rendered: " +:+ outputPath p);
  processExit 0.

End Current.

(** ** The class-based worker *)

Section Legacy.
Context {P : Path.Api}.
Variable env : Env Legacy.RenderConfig.

Definition createRenderError (msg code : string) (filePath : option string)
  (cause : option JsError) : JsError :=
  newRenderError msg code filePath cause.

(** [parseWorkerArgs()] *)
Definition parseWorkerArgs : Completion (string * string) :=
  match truthy (argvFilePath env) with
  | None => throwError (createRenderError "File path is required as first argument"
                          "WORKER_MISSING_FILEPATH" None None)
  | Some filePath =>
      match truthy (argvConfigJson env) with
      | None => throwError (createRenderError "Config JSON is required as second argument"
                              "WORKER_MISSING_CONFIG" None None)
      | Some configJson => Normal (filePath, configJson)
      end
  end.

(** [parseConfig(configJson)] *)
Definition parseConfig (configJson : string) : Completion Legacy.RenderConfig :=
  match jsonParse env configJson with
  | Some config => Normal config
  | None => throwError (createRenderError "Failed to parse configuration JSON"
                          "WORKER_CONFIG_PARSE_ERROR" None
                          (Some (newError "Unexpected token")))
  end.

(** [loadModule(absolutePath, filePath)] *)
Definition loadModuleChecked (absolutePath filePath : string)
  : Completion (string -> ExportValue) :=
  tryCatch (loadModule env absolutePath)
    (fun error => throwError (createRenderError "Failed to import React component module"
                                "WORKER_MODULE_IMPORT_ERROR" (Some filePath)
                                (Some (asError error)))).

(** [extractMountInfo(module, exportName, filePath)] *)
Definition extractMountInfo (module : string -> ExportValue) (exportName filePath : string)
  : Completion MountInfo :=
  match module exportName with
  | Exported node rootElementId =>
      match node, truthy rootElementId with
      | Some n, Some id => Normal (Build_MountInfo n id)
      | _, _ =>
          throwError (createRenderError
            "Mount info is missing required properties (node, rootElementId)"
            "WORKER_INVALID_MOUNT_INFO" (Some filePath) None)
      end
  | _ =>
      throwError (createRenderError
        ("Module does not export " +:+ exportName +:+ " or export is not an object")
        "WORKER_MISSING_MOUNT_INFO" (Some filePath) None)
  end.

(** [renderReactComponent(mountInfo, filePath)] *)
Definition renderReactComponent (mountInfo : MountInfo) (filePath : string)
  : Completion (string * string) :=
  tryCatch
    (html ← renderToStaticMarkup env (node mountInfo);
     Normal (html, getStyleTags env (node mountInfo)))
    (fun error => throwError (createRenderError "Failed to render React component to HTML"
                                "WORKER_REACT_RENDER_ERROR" (Some filePath)
                                (Some (asError error)))).

(** [loadTemplate(templatePath, filePath)]: [None] for a missing file. *)
Definition loadTemplate (templatePath filePath : string) : Eff (option string) :=
  tryCatchEff (template ← readFile env templatePath; ret (Some template))
    (fun error =>
       if isEnoent error then ret None
       else lift (throwError (createRenderError "Failed to read template file"
                                "WORKER_TEMPLATE_READ_ERROR" (Some filePath)
                                (Some (asError error))))).

(** [mergeWithTemplate(template, html, styles, mountInfo, config, templatePath, filePath)] *)
Definition mergeWithTemplate (template html styles : string) (mountInfo : MountInfo)
  (config : Legacy.RenderConfig) (templatePath filePath : string) : Completion string :=
  tryCatch
    (if match Legacy.templateMergeStrategy config with
        | Some strategy => String.eqb strategy "custom"
        | None => false
        end && Legacy.customMergeFunction config
     then Throw (ThrownError (MkError ClsTypeError
                   "config.customMergeFunction is not a function" None None None None))
     else
       let engineType :=
         match truthy (Legacy.templateEngine config) with
         | Some t => t
         | None => detectEngineFromTemplate template
         end in
       let engine :=
         createTemplateEngine engineType
           {| liquidExtensions := Legacy.liquidFileExtensions config;
              phpExtensions := Legacy.phpFileExtensions config |}
           templatePath in
       match merge engine template html styles mountInfo with
       | MergeFailed error => throwError error
       | MergeOk data => Normal data
       end)
    (fun error => throwError (createRenderError
                                "Failed to merge rendered content with template"
                                "WORKER_TEMPLATE_MERGE_ERROR" (Some filePath)
                                (Some (asError error)))).

Definition attribute (name value : string) : string :=
  name +:+ "=" +:+ Str.chr Str.dquote +:+ value +:+ Str.chr Str.dquote.

(** [createStandaloneHtml(html, styles, mountInfo)] *)
Definition createStandaloneHtml (html styles : string) (mountInfo : MountInfo) : string :=
  Str.join (Str.chr Str.newline)
    ["<!DOCTYPE html>";
     "<html " +:+ attribute "lang" "en" +:+ ">";
     "<head>";
     "  <meta " +:+ attribute "charset" "UTF-8" +:+ ">";
     "  <meta " +:+ attribute "name" "viewport" +:+ " "
       +:+ attribute "content" "width=device-width, initial-scale=1.0" +:+ ">";
     "  <title>React Static Render</title>";
     "  " +:+ styles;
     "</head>";
     "<body>";
     "  <div " +:+ attribute "id" (rootElementId mountInfo) +:+ ">" +:+ html +:+ "</div>";
     "</body>";
     "</html>"].

(** [formatWithPrettier(html, prettierConfig, filePath)] *)
Definition formatWithPrettier (html : string) (prettierConfig : option Prettier)
  (filePath : string) : Completion string :=
  match prettierConfig with
  | Some PrettierOff => Normal html
  | _ =>
      tryCatch (format env html)
        (fun error => throwError (createRenderError "Failed to format HTML with Prettier"
                                    "WORKER_PRETTIER_ERROR" (Some filePath)
                                    (Some (asError error))))
  end.

(** [writeOutput(content, outputPath, filePath)] *)
Definition writeOutput (content outputPath filePath : string) : Eff unit :=
  tryCatchEff
    (_ ← mkdir env (Path.dir outputPath);
     writeFile env outputPath content)
    (fun error => lift (throwError (createRenderError "Failed to write output file"
                                      "WORKER_FILE_WRITE_ERROR" (Some filePath)
                                      (Some (asError error))))).

(** What [renderWorker] has computed when it reaches the template. *)
Record LegacyPrepared : Type := {
  lp_outputPath : string;
  lp_absoluteOutputPath : string;
  lp_mountInfo : MountInfo;
  lp_html : string;
  lp_styles : string;
}.

(** [renderWorker] up to the rendering of the component. *)
Definition legacyPrepare (filePath : string) (config : Legacy.RenderConfig)
  : Completion LegacyPrepared :=
  let name := Path.name filePath in
  let outputExtension := orDefault (Legacy.templateExtension config) ".html" in
  let outputFileName := name +:+ outputExtension in
  let outputPath := Path.join (Path.dir filePath) outputFileName in
  let absoluteInputPath := Path.resolveIn (Legacy.entryPointsBase config) filePath in
  let absoluteOutputPath := Path.join (Legacy.outputDir config) outputPath in
  module ← loadModuleChecked absoluteInputPath filePath;
  mountInfo ← extractMountInfo module
                (orDefault (Legacy.mountInfoExport config) "default") filePath;
  rendered ← renderReactComponent mountInfo filePath;
  Normal {| lp_outputPath := outputPath;
            lp_absoluteOutputPath := absoluteOutputPath;
            lp_mountInfo := mountInfo;
            lp_html := fst rendered;
            lp_styles := snd rendered |}.

(** The template step of [renderWorker]: merge into the template when there
    is one, a standalone page otherwise. *)
Definition legacyTemplateStep (filePath : string) (config : Legacy.RenderConfig)
  (p : LegacyPrepared) : Eff string :=
  match truthy (Legacy.templateDir config) with
  | Some templateDir =>
      let templatePath := Path.join templateDir (lp_outputPath p) in
      template ← loadTemplate templatePath filePath;
      match truthy template with
      | Some text =>
          lift (mergeWithTemplate text (lp_html p) (lp_styles p) (lp_mountInfo p)
                  config templatePath filePath)
      | None => ret (createStandaloneHtml (lp_html p) (lp_styles p) (lp_mountInfo p))
      end
  | None => ret (createStandaloneHtml (lp_html p) (lp_styles p) (lp_mountInfo p))
  end.

(** [renderWorker(filePath, config)] *)
Definition renderWorker (filePath : string) (config : Legacy.RenderConfig) : Eff unit :=
  p ← lift (legacyPrepare filePath config);
  merged ← legacyTemplateStep filePath config p;
  finalHtml ← lift (formatWithPrettier merged (Legacy.prettierConfig config) filePath);
  _ ← writeOutput finalHtml (lp_absoluteOutputPath p) filePath;
  consoleLog ("Rendered: " +:+ lp_outputPath p).

(** [main()] of the class-based worker *)
Definition legacyMain : Eff unit :=
  tryCatchEff
    (args ← lift parseWorkerArgs;
     config ← lift (parseConfig (snd args));
     _ ← renderWorker (fst args) config;
     processExit 0)
    (fun error =>
       _ ← match error with
           | ThrownError e =>
               if instanceofRenderError e then
                 _ ← consoleError ("Render Error [" +:+ default EmptyString (code e)
                                    +:+ "]: " +:+ message e);
                 _ ← whenSome (truthy (Js.filePath e))
                       (fun f => consoleError ("File: " +:+ f));
                 whenSome (cause e) (fun c => consoleError ("Cause: " +:+ message c))
               else consoleError ("Unexpected error: " +:+ message e)
           | ThrownValue shown => consoleError ("Unexpected error: " +:+ shown)
           end;
       processExit 1).

End Legacy.

(** ** What a run leaves behind *)

(** A computation that leaves the file system as it found it, however it
    ends. *)
Definition keepsFiles {A} (m : Eff A) : Prop :=
  forall st, fs (snd (m st)) = fs st.

(** ** What escapes from a run *)

(** A thrown [TypeError]. *)
Definition isTypeError (t : Thrown) : Prop :=
  exists e, t = ThrownError e /\ instanceofTypeError e = true.

(** A value thrown while an export of a module was read. *)
Definition thrownByExport {C} (env : Env C) (t : Thrown) : Prop :=
  exists path get key,
    requireFromCwd env path = Normal (Exports get) /\ get key = Throw t.

(** A computation that, started in [st], lets no thrown value escape but
    those with the property [Q]. *)
Definition throwsOnly {A} (Q : Thrown -> Prop) (m : Eff A) (st : WorkerState) : Prop :=
  forall t st1, m st = (Throw t, st1) -> Q t.

End Worker.

(* ===================================================================== *)
(** * The [init] command (cli.ts) *)
(* ===================================================================== *)

Module Init.
Import Js Worker.

Section Init.
Context {P : Path.Api}.
(** The faults of the file system: the error of a read or of a write that
    fails for another reason than a missing file. *)
Variable readFault : string -> option JsError.
Variable writeFault : string -> option JsError.

(** [readFile(path)] *)
Definition readFile (path : string) : Eff string :=
  fun st =>
    match readFault path with
    | Some e => (Throw (ThrownError e), st)
    | None =>
        match files (fs st) !! path with
        | Some text => (Normal text, st)
        | None => (Throw (ThrownError (enoent path)), st)
        end
    end.

(** [writeFile(path, text, 'utf-8')] *)
Definition writeFile (path text : string) : Eff unit :=
  fun st =>
    match writeFault path with
    | Some e => (Throw (ThrownError e), st)
    | None =>
        (Normal tt,
         MkState (MkFs (<[path := text]> (files (fs st))) (directories (fs st)))
                 (console st))
    end.

(** [resolve(process.cwd(), 'react-static-render.config.json')] *)
Definition configPath : string := Path.resolve "react-static-render.config.json".

(** The guard both versions of [initAction] start with. *)
Definition refuseExisting (force : bool) : Eff unit :=
  tryCatchEff
    (if negb force then
       _ ← readFile configPath;
       _ ← consoleError "Configuration file already exists. Use --force to overwrite.";
       processExit 1
     else ret tt)
    (fun _ => ret tt).

(** [initAction(options)] of the current sources.  [answers] is what
    [inquirer.prompt] resolves to, merged over the default configuration and
    serialised; the prompt can reject. *)
Definition initAction (force : bool) (answers : Completion string) : Eff unit :=
  _ ← refuseExisting force;
  _ ← consoleLog ("Welcome to React Static Render setup!" +:+ Str.chr Str.newline);
  content ← lift answers;
  _ ← writeFile configPath content;
  _ ← consoleLog (Str.chr Str.newline
                  +:+ "✅ Created configuration file: react-static-render.config.json");
  _ ← consoleLog (Str.chr Str.newline +:+ "Next steps:");
  _ ← consoleLog "1. Create your entry point files in the specified directory";
  consoleLog ("2. Run " +:+ Str.chr Str.dquote +:+ "react-static-render"
              +:+ Str.chr Str.dquote +:+ " to render your components").

(** [initAction(options)] of the older sources; [defaultContent] is the
    serialised default configuration. *)
Definition legacyInitAction (force : bool) (defaultContent : string) : Eff unit :=
  _ ← refuseExisting force;
  _ ← writeFile configPath defaultContent;
  _ ← consoleLog "Created configuration file: react-static-render.config.json";
  _ ← consoleLog (Str.chr Str.newline +:+ "Next steps:");
  _ ← consoleLog "1. Update the configuration to match your project structure";
  consoleLog ("2. Run " +:+ Str.chr Str.dquote +:+ "react-static-render"
              +:+ Str.chr Str.dquote +:+ " to render your components").

(** The configuration file can be read. *)
Definition configExists (st : WorkerState) : Prop :=
  readFault configPath = None /\ is_Some (files (fs st) !! configPath).

End Init.

End Init.

(* ===================================================================== *)
(** * Loading the configuration (config.ts) *)
(* ===================================================================== *)

Module ConfigLoader.
Import Js Cli.

(** [s.endsWith(p)] *)
Definition endsWith (s p : string) : bool := String.prefix (Str.rev p) (Str.rev s).

(** What the loader gets from its surroundings.  [J] is the type of parsed
    JSON values, [C] the type of validated configurations. *)
Record LoaderEnv (J C : Type) : Type := {
  (** [readFile(absolutePath, 'utf-8')] *)
  readText : string -> Completion string;
  (** [JSON.parse(content)] *)
  parseJson : string -> Completion J;
  (** [data.reactStaticRender]: it throws on [null], and is [None] for a
      missing or falsy field *)
  reactStaticRender : J -> Completion (option J);
  (** [Object.assign({}, defaultConfig, configData)] *)
  assignDefaults : J -> J;
  (** the schema applied to a value: the validated configuration, or the
      list of what is wrong, already formatted; the current sources let the
      schema throw, where any other exception is possible as well *)
  validate : J -> Completion (C + string);
}.
Arguments readText {J C} _ _.
Arguments parseJson {J C} _ _.
Arguments reactStaticRender {J C} _ _.
Arguments assignDefaults {J C} _ _.
Arguments validate {J C} _ _.

(** [ConfigSource] *)
Record ConfigSource : Type := {
  path : string;
  content : string;
}.

Definition notFoundMessage : string :=
  "No configuration file found. Please create a react-static-render.config.json file or specify a config path.".

Section Loader.
Context {P : Path.Api} {J C : Type}.
Variable env : LoaderEnv J C.
(** [DEFAULT_CONFIG_PATHS] *)
Variable defaultPaths : list string.

(** The [for] loop over the default paths: the first file that can be read. *)
Fixpoint firstReadable (paths : list string) : Completion ConfigSource :=
  match paths with
  | [] => throwError (newRenderError notFoundMessage "CONFIG_NOT_FOUND" None None)
  | p :: rest =>
      let absolutePath := Path.resolve p in
      match readText env absolutePath with
      | Normal text => Normal {| path := absolutePath; content := text |}
      | Throw _ => firstReadable rest
      | Exit c => Exit c
      end
  end.

(** [loadConfigSource(configPath)] *)
Definition loadConfigSource (configPath : option string) : Completion ConfigSource :=
  match configPath with
  | Some p =>
      if Str.isEmpty p then firstReadable defaultPaths
      else
        let absolutePath := Path.resolve p in
        tryCatch
          (text ← readText env absolutePath;
           Normal {| path := absolutePath; content := text |})
          (fun error =>
             throwError (newRenderError ("Failed to load config from " +:+ p)
                           "CONFIG_READ_ERROR" (Some absolutePath) (Some (asError error))))
  | None => firstReadable defaultPaths
  end.

Definition parseError (source : ConfigSource) (error : Thrown) : JsError :=
  newRenderError "Failed to parse JSON in configuration file" "CONFIG_PARSE_ERROR"
    (Some (path source)) (Some (asError error)).

(** [parseConfigData(source)] of the current sources *)
Definition parseConfigData (source : ConfigSource) : Completion J :=
  tryCatch (parseJson env (content source))
    (fun error => throwError (parseError source error)).

(** [parseConfigData(source)] of the older sources, which read the
    [reactStaticRender] field of a [package.json] *)
Definition legacyParseConfigData (source : ConfigSource) : Completion J :=
  tryCatch
    (data ← parseJson env (content source);
     if endsWith (path source) "package.json" then
       field ← reactStaticRender env data;
       match field with
       | None =>
           throwError (newRenderError
                         "package.json does not contain reactStaticRender field"
                         "CONFIG_FIELD_MISSING" (Some (path source)) None)
       | Some value => Normal value
       end
     else Normal data)
    (fun error =>
       match error with
       | ThrownError e =>
           if instanceofRenderError e then Throw error
           else throwError (parseError source error)
       | ThrownValue _ => throwError (parseError source error)
       end).

Definition invalid (details : string) : JsError :=
  newRenderError ("Invalid configuration:" +:+ Str.chr Str.newline +:+ details)
    "CONFIG_VALIDATION_ERROR" None None.

(** [validateConfig(config)] of the current sources: a [ZodError] becomes
    the list of its issues, anything else a plain validation failure. *)
Definition validateConfig (config : J) : Completion C :=
  match validate env config with
  | Normal (inl value) => Normal value
  | Normal (inr details) => throwError (invalid details)
  | Throw error =>
      throwError (newRenderError "Failed to validate configuration"
                    "CONFIG_VALIDATION_ERROR" None (Some (asError error)))
  | Exit c => Exit c
  end.

(** [validateConfig(config)] of the older sources *)
Definition legacyValidateConfig (config : J) : Completion C :=
  result ← validate env config;
  match result with
  | inl value => Normal value
  | inr details => throwError (invalid details)
  end.

Definition unknownError (error : Thrown) : JsError :=
  newRenderError "Unexpected error loading configuration" "CONFIG_UNKNOWN_ERROR" None
    (Some (asError error)).

(** The body of [loadConfig], for the [parseConfigData] and the
    [validateConfig] of either version. *)
Definition loadWith (parse : ConfigSource -> Completion J)
  (check : J -> Completion C) (configPath : option string)
  : Completion (ConfigLoadResult C) :=
  tryCatch
    (source ← loadConfigSource configPath;
     configData ← parse source;
     validatedConfig ← check (assignDefaults env configData);
     Normal (Loaded validatedConfig))
    (fun error =>
       match error with
       | ThrownError e =>
           if instanceofRenderError e then Normal (LoadFailed e)
           else Normal (LoadFailed (unknownError error))
       | ThrownValue _ => Normal (LoadFailed (unknownError error))
       end).

(** The file at [p] cannot be read. *)
Definition unreadable (p : string) : Prop :=
  exists t, readText env (Path.resolve p) = Throw t.

End Loader.

(** [DEFAULT_CONFIG_PATHS] of the current and of the older sources *)
Definition defaultConfigPaths : list string := ["react-static-render.config.json"].
Definition legacyDefaultConfigPaths : list string :=
  ["react-static-render.config.json"; ".react-static-renderrc.json"; "package.json"].

(** [loadConfig(configPath)] of the current sources *)
Definition loadConfig {P : Path.Api} {J C} (env : LoaderEnv J C)
  (configPath : option string) : Completion (ConfigLoadResult C) :=
  loadWith env defaultConfigPaths (parseConfigData env) (validateConfig env) configPath.

(** [loadConfig(configPath)] of the older sources *)
Definition legacyLoadConfig {P : Path.Api} {J C} (env : LoaderEnv J C)
  (configPath : option string) : Completion (ConfigLoadResult C) :=
  loadWith env legacyDefaultConfigPaths (legacyParseConfigData env)
    (legacyValidateConfig env) configPath.

End ConfigLoader.

(* ===================================================================== *)
(** * Sample inputs *)
(* ===================================================================== *)

Module Examples.
Import Config.

(** A configuration of the class-based sources with two concurrent renders. *)
Definition legacyConfig : Legacy.RenderConfig := {|
  Legacy.entryPointsBase := "/app/src/entry-points";
  Legacy.srcBase := "/app/src";
  Legacy.outputDir := "/app/dist";
  Legacy.templateDir := Some "/app/templates";
  Legacy.patterns := None;
  Legacy.fileExtensions := None;
  Legacy.mountInfoExport := None;
  Legacy.templateExtension := Some ".html";
  Legacy.templateMergeStrategy := None;
  Legacy.customMergeFunction := false;
  Legacy.templateEngine := Some "liquid";
  Legacy.liquidFileExtensions := None;
  Legacy.phpFileExtensions := None;
  Legacy.prettierConfig := Some PrettierOff;
  Legacy.maxConcurrentRenders := Some 2;
  Legacy.websocketPort := None;
  Legacy.verbose := false;
|}.

(** The class-based configuration without a limit. *)
Definition legacyUnlimited : Legacy.RenderConfig := {|
  Legacy.entryPointsBase := "/app/src/entry-points";
  Legacy.srcBase := "/app/src";
  Legacy.outputDir := "/app/dist";
  Legacy.templateDir := Some "/app/templates";
  Legacy.patterns := None;
  Legacy.fileExtensions := None;
  Legacy.mountInfoExport := None;
  Legacy.templateExtension := Some ".html";
  Legacy.templateMergeStrategy := None;
  Legacy.customMergeFunction := false;
  Legacy.templateEngine := Some "liquid";
  Legacy.liquidFileExtensions := None;
  Legacy.phpFileExtensions := None;
  Legacy.prettierConfig := Some PrettierOff;
  Legacy.maxConcurrentRenders := None;
  Legacy.websocketPort := None;
  Legacy.verbose := false;
|}.
Definition fourFiles : list string :=
  ["home.tsx"; "about.tsx"; "contact.tsx"; "news.tsx"].

(** A configuration of the current sources with two concurrent renders. *)
Definition config : RenderConfig := {|
  entryPointDir := "/app/src/entry-points";
  srcBase := "/app/src";
  outputDir := "/app/dist";
  templateDir := Some "/app/templates";
  defaultTemplate := None;
  patterns := None;
  fileExtensions := None;
  mountInfoExport := None;
  templateExtension := Some ".html";
  templateEngine := Some "html";
  prettierConfig := Some PrettierOff;
  maxConcurrentRenders := Some (Limit 2);
  websocketPort := None;
  verbose := false;
|}.

Definition threeFiles : list string := ["home.tsx"; "about.tsx"; "contact.tsx"].

(** A worker that exits with code 1. *)
Definition exitOne : Render.ChildEvent := Render.ChildClose (Some 1%Z) None.

(** The rejection of [execa] for a worker that exits with code 1. *)
Definition execaExitOne : Render.ExecaOutcome :=
  Render.ExecaRejected (Js.ThrownError
    (Js.MkError Js.ClsProcessError "Command failed with exit code 1" None None None
       (Some {| Js.stderr := Some "Template merge failed"; Js.exitCode := Some 1%Z |}))).

(** Results of the sample run below. *)
Definition failedHome : Render.RenderResult :=
  Render.Failure (Js.newRenderError "Render process exited with code 1"
                    "PROCESS_EXIT_ERROR" (Some "home.tsx") None).
Definition renderedAbout : Render.RenderResult :=
  Render.Success "/app/dist/about.tsx" (Some "/app/dist/about.tsx").
Definition renderedContact : Render.RenderResult :=
  Render.Success "/app/dist/contact.tsx" (Some "/app/dist/contact.tsx").

(** [Renderer.renderFiles] on three files with a limit of two, after the
    worker of the first file has exited with code 1. *)
Definition chunkAfterOne : Scheduler.ChunkState :=
  Scheduler.MkChunkState [["contact.tsx"]]
    [("home.tsx", Some failedHome); ("about.tsx", None)] [] None.

(** The same call after all three workers have ended. *)
Definition chunkFinished : Scheduler.ChunkState :=
  Scheduler.MkChunkState [] [] [failedHome; renderedAbout; renderedContact] None.

(** [renderWithConcurrency] on three files after the limiter has started the
    first two. *)
Definition limitAfterStart : Scheduler.LimitState :=
  Scheduler.MkLimitState
    [("home.tsx", Scheduler.Running); ("about.tsx", Scheduler.Running);
     ("contact.tsx", Scheduler.Queued)] None.

(** Flags of a plain, non-watch invocation. *)
Definition plainOptions : Cli.RenderOptions := {|
  Cli.watch := false;
  Cli.liveReload := false;
  Cli.configPath := None;
  Cli.port := None;
  Cli.output := None;
  Cli.optVerbose := false;
|}.

(** A run of the command in which the configuration loads and the only
    render of the batch fails. *)
Definition failingWorld : Cli.World := {|
  Cli.loadConfig := fun _ => Cli.Loaded config;
  Cli.findEntryPoints := fun _ => threeFiles;
  Cli.renderWithConcurrency := fun files _ => Normal (map (fun _ => failedHome) files);
  Cli.startWatchMode := fun _ _ => Js.ret tt;
|}.

Definition legacyFailingWorld : Cli.LegacyWorld := {|
  Cli.legacyLoadConfig := fun _ => Cli.Loaded legacyConfig;
  Cli.Renderer_renderFiles := fun _ files => Normal (map (fun _ => failedHome) files);
  Cli.Renderer_findEntryPoints := fun _ => threeFiles;
  Cli.legacyStartWatchMode := fun _ _ => Js.ret tt;
|}.

(** The source files of a small site: two entry points that import a shared
    footer, one of them also a data file. *)
Definition homeEntry : string := "/app/src/entry-points/home.tsx".
Definition aboutEntry : string := "/app/src/entry-points/about.tsx".
Definition footer : string := "/app/src/components/footer.tsx".
Definition productsJson : string := "/app/src/data/products.json".

Definition sampleTrees (entryPoint : string) : option Watcher.DepTree :=
  if String.eqb entryPoint homeEntry then
    Some (Watcher.DepNode
            [(homeEntry, Watcher.DepNode [(footer, Watcher.DepNode []);
                                          (productsJson, Watcher.DepNode [])])])
  else if String.eqb entryPoint aboutEntry then
    Some (Watcher.DepNode [(aboutEntry, Watcher.DepNode [(footer, Watcher.DepNode [])])])
  else None.

Definition sampleGraph : Watcher.Graph :=
  Watcher.buildDependencyGraph (P:=Path.posix) sampleTrees [homeEntry; aboutEntry]
    Watcher.emptyGraph.

(** No template matches any entry point by name. *)
Definition noGlob (pattern cwd : string) : list string := [].

(** Mount infos and templates for the merge. *)
Definition rootMount : Engines.MountInfo :=
  {| Engines.node := "App"; Engines.rootElementId := "root" |}.
Definition capitalMount : Engines.MountInfo :=
  {| Engines.node := "App"; Engines.rootElementId := "Root" |}.
Definition pageTemplate : string :=
  "<main><div id='root' class='app'>old</div></main>".
Definition bareTemplate : string := "<main><p>no root element</p></main>".

(** The surroundings of a worker that renders [pages/home.tsx]: the module
    exports its mount info as [default], nothing fails. *)
Definition homeModule (exportName : string) : Worker.ExportValue :=
  if String.eqb exportName "default" then Worker.Exported (Some "App") (Some "root")
  else Worker.NotExported.

Definition workerEnv {C} (config : C) : Worker.Env C := {|
  Worker.argvFilePath := Some "pages/home.tsx";
  Worker.argvConfigJson := Some "{}";
  Worker.jsonParse := fun _ => Some config;
  Worker.loadModule := fun _ => Normal homeModule;
  Worker.requireFromCwd :=
    fun _ => Normal (Worker.Exports (fun name => Normal (homeModule name)));
  Worker.styledComponents := false;
  Worker.renderToStaticMarkup := fun _ => Normal "<h1>Hi</h1>";
  Worker.getStyleTags := fun _ => EmptyString;
  Worker.format := fun text => Normal text;
  Worker.readFault := fun _ => None;
  Worker.writeFault := fun _ => None;
  Worker.mergePHPTemplate := fun _ => Normal EmptyString;
|}.

(** A file system whose template for the page has no root element, and one
    whose template has it. *)
Definition bareSite : Worker.WorkerState :=
  Worker.MkState (Worker.MkFs {[ "/app/templates/pages/home.html" := bareTemplate ]} ∅) [].
Definition site : Worker.WorkerState :=
  Worker.MkState (Worker.MkFs {[ "/app/templates/pages/home.html" := pageTemplate ]} ∅) [].

(** A template whose root element holds another element. *)
Definition nestedTemplate : string :=
  "<main><div id='root'><div>a</div>b</div></main>".

(** An entry point whose dependencies cannot be analysed. *)
Definition brokenEntry : string := "/app/src/entry-points/broken.tsx".

(** A glob that finds the home page for every template. *)
Definition homeGlob (pattern cwd : string) : list string := ["home.tsx"].
Definition homeTemplate : string := "/app/templates/home.html".

(** What the class-based worker has computed for the home page. *)
Definition preparedHome : Worker.LegacyPrepared := {|
  Worker.lp_outputPath := "pages/home.html";
  Worker.lp_absoluteOutputPath := "/app/dist/pages/home.html";
  Worker.lp_mountInfo := rootMount;
  Worker.lp_html := "<h1>Hi</h1>";
  Worker.lp_styles := EmptyString;
|}.
Definition emptySite : Worker.WorkerState := Worker.MkState (Worker.MkFs ∅ ∅) [].

(** A site with a configuration file. *)
Definition configuredSite : Worker.WorkerState :=
  Worker.MkState
    (Worker.MkFs {[ "react-static-render.config.json" := "{}" ]} ∅) [].
Definition noFault (path : string) : option JsError := None.

(** A loader that finds no file at all. *)
Definition emptyLoader : ConfigLoader.LoaderEnv string string := {|
  ConfigLoader.readText := fun p => Throw (Js.ThrownError (Worker.enoent p));
  ConfigLoader.parseJson := fun text => Normal text;
  ConfigLoader.reactStaticRender := fun data => Normal None;
  ConfigLoader.assignDefaults := fun data => data;
  ConfigLoader.validate := fun data => Normal (inl data);
|}.

End Examples.

(* ===================================================================== *)
(** * Properties of strings *)
(* ===================================================================== *)

Module StrFacts.

Lemma append_cons c s t : String c s +:+ t = String c (s +:+ t).
Proof. reflexivity. Qed.

Lemma append_empty t : EmptyString +:+ t = t.
Proof. reflexivity. Qed.

Lemma append_nil_r s : s +:+ EmptyString = s.
Proof.
  induction s as [| c s IH]; [reflexivity |]. now rewrite append_cons, IH.
Qed.

Lemma append_assoc s t u : (s +:+ t) +:+ u = s +:+ (t +:+ u).
Proof.
  induction s as [| c s IH]; [reflexivity |]. now rewrite !append_cons, IH.
Qed.

Lemma prefix_drop p s :
  String.prefix p s = true -> s = p +:+ Str.drop (String.length p) s.
Proof.
  revert s. induction p as [| a p IH]; intros s Hp.
  - now destruct s.
  - destruct s as [| b s]; cbn in Hp; [discriminate |].
    destruct (ascii_dec a b) as [-> | _]; [| discriminate].
    rewrite append_cons. cbn [String.length Str.drop]. f_equal. now apply IH.
Qed.

Lemma prefix_append p s : String.prefix p (p +:+ s) = true.
Proof.
  induction p as [| a p IH]; [now destruct s |].
  rewrite append_cons. cbn. destruct (ascii_dec a a); [exact IH | contradiction].
Qed.

Lemma length_append_slash d : String.length (d +:+ "/") = String.length d + 1.
Proof.
  induction d as [| c d IH]; [reflexivity |].
  rewrite append_cons. cbn [String.length]. now rewrite IH.
Qed.

(** [includes] finds every occurrence. *)
Lemma includes_append before p after : Str.includes (before +:+ p +:+ after) p = true.
Proof.
  induction before as [| c before IH].
  - rewrite append_empty. destruct (p +:+ after) eqn:Hs; cbn [Str.includes];
      rewrite <- Hs, prefix_append; reflexivity.
  - rewrite append_cons. cbn [Str.includes].
    destruct (String.prefix p (String c (before +:+ p +:+ after))); [reflexivity | exact IH].
Qed.

(** [includes] finds only occurrences. *)
Lemma includes_split s p :
  Str.includes s p = true -> exists before after, s = before +:+ p +:+ after.
Proof.
  induction s as [| c s IH]; cbn [Str.includes].
  - destruct (String.prefix p EmptyString) eqn:Hp; [| discriminate].
    intros _. apply prefix_drop in Hp. now exists EmptyString, (Str.drop (String.length p) "").
  - destruct (String.prefix p (String c s)) eqn:Hp.
    + intros _. apply prefix_drop in Hp.
      now exists EmptyString, (Str.drop (String.length p) (String c s)).
    + intros Hs. destruct (IH Hs) as (before & after & ->).
      now exists (String c before), after.
Qed.

Lemma includes_end before p : Str.includes (before +:+ p) p = true.
Proof.
  pose proof (includes_append before p EmptyString) as H.
  now rewrite append_nil_r in H.
Qed.

Lemma includes_part s part text :
  Str.includes s part = true -> Str.includes part text = true ->
  Str.includes s text = true.
Proof.
  intros Hs Hpart.
  apply includes_split in Hs as (a & b & ->).
  apply includes_split in Hpart as (c & d & ->).
  replace (a +:+ (c +:+ text +:+ d) +:+ b) with ((a +:+ c) +:+ text +:+ (d +:+ b))
    by now rewrite !append_assoc.
  apply includes_append.
Qed.

Lemma includes_join sep parts part :
  In part parts -> Str.includes (Str.join sep parts) part = true.
Proof.
  induction parts as [| p rest IH]; [contradiction |].
  intros [-> | Hin].
  - destruct rest as [| q rest]; cbn [Str.join].
    + apply (includes_end EmptyString).
    + apply (includes_append EmptyString).
  - specialize (IH Hin). destruct rest as [| q rest]; [contradiction |].
    change (Str.join sep (p :: q :: rest))
      with (p +:+ sep +:+ Str.join sep (q :: rest)).
    apply includes_split in IH as (a & b & Heq). rewrite Heq.
    replace (p +:+ sep +:+ a +:+ part +:+ b) with ((p +:+ sep +:+ a) +:+ part +:+ b)
      by now rewrite !append_assoc.
    apply includes_append.
Qed.

End StrFacts.

(* ===================================================================== *)
(** * Properties of the per-file render operation *)
(* ===================================================================== *)

Module RenderFacts.
Import Js Render.

Section WithPaths.
Context {P : Path.Api}.

Lemma Renderer_renderFile_returns (config : Config.Legacy.RenderConfig) filePath ev :
  exists r, Renderer_renderFile config filePath ev = Normal r.
Proof.
  unfold Renderer_renderFile.
  destruct ev as [t | [[| |] |] signal | e]; cbn; eauto.
Qed.

Lemma Renderer_renderFile_success (config : Config.Legacy.RenderConfig) filePath ev r :
  Renderer_renderFile config filePath ev = Normal r ->
  succeeded r = true <-> exists signal, ev = ChildClose (Some 0%Z) signal.
Proof.
  unfold Renderer_renderFile.
  destruct ev as [t | [[| |] |] signal | e]; cbn; intros [= <-]; cbn;
    split; try discriminate; eauto; intros [? ?]; discriminate.
Qed.

Lemma renderFile_returns (config : RenderConfig) filePath out :
  exists r, renderFile config filePath out = Normal r.
Proof. unfold renderFile. destruct out; cbn; eauto. Qed.

Lemma renderFile_success (config : RenderConfig) filePath out r :
  renderFile config filePath out = Normal r ->
  succeeded r = true <-> out = ExecaResolved.
Proof.
  unfold renderFile. destruct out; cbn; intros [= <-]; cbn; split;
    congruence.
Qed.

Lemma renderFile_inherit_returns (config : RenderConfig) filePath out :
  exists r, renderFile_inherit config filePath out = Normal r.
Proof. unfold renderFile_inherit. destruct out; cbn; eauto. Qed.

Lemma renderFile_inherit_success (config : RenderConfig) filePath out r :
  renderFile_inherit config filePath out = Normal r ->
  succeeded r = true <-> out = ExecaResolved.
Proof.
  unfold renderFile_inherit. destruct out; cbn; intros [= <-]; cbn; split;
    congruence.
Qed.

(** C3.  Whatever the worker process does (it exits with any code, is killed
    by a signal, cannot be spawned, or [spawn] itself throws), each of the
    three [renderFile] operations returns a [RenderResult] value and never
    throws; the result is a success exactly when the worker exited with
    code 0. *)
Theorem renderFile_always_returns_a_result
  (legacy : Config.Legacy.RenderConfig) (config : RenderConfig) (filePath : string) :
  (forall ev, exists r,
      Renderer_renderFile legacy filePath ev = Normal r
      /\ (succeeded r = true <-> exists signal, ev = ChildClose (Some 0%Z) signal))
  /\ (forall out, exists r,
      renderFile config filePath out = Normal r
      /\ (succeeded r = true <-> out = ExecaResolved))
  /\ (forall out, exists r,
      renderFile_inherit config filePath out = Normal r
      /\ (succeeded r = true <-> out = ExecaResolved)).
Proof.
  split; [| split].
  - intros ev. destruct (Renderer_renderFile_returns legacy filePath ev) as [r Hr].
    exists r. split; [exact Hr | exact (Renderer_renderFile_success _ _ _ _ Hr)].
  - intros out. destruct (renderFile_returns config filePath out) as [r Hr].
    exists r. split; [exact Hr | exact (renderFile_success _ _ _ _ Hr)].
  - intros out. destruct (renderFile_inherit_returns config filePath out) as [r Hr].
    exists r. split; [exact Hr | exact (renderFile_inherit_success _ _ _ _ Hr)].
Qed.

End WithPaths.
End RenderFacts.

(* ===================================================================== *)
(** * Properties of the render scheduler *)
(* ===================================================================== *)

Module SchedulerFacts.
Import Js Render Scheduler.

(** ** Chunking *)

Lemma slice_length {A} (array : list A) i j : length (slice array i j) <= j - i.
Proof. unfold slice. rewrite length_take. lia. Qed.

Lemma chunkLoop_bound {A} fuel (array : list A) size i :
  Forall (fun c => length c <= size) (chunkLoop fuel array size i).
Proof.
  revert i. induction fuel as [| fuel IH]; intros i; cbn [chunkLoop]; [constructor |].
  destruct (i <? length array); constructor; [| apply IH].
  pose proof (slice_length array i (i + size)). lia.
Qed.

Lemma chunkLoop_concat {A} fuel (array : list A) size i :
  1 <= size -> length array - i <= fuel ->
  concat (chunkLoop fuel array size i) = drop i array.
Proof.
  intros Hsize. revert i.
  induction fuel as [| fuel IH]; intros i Hfuel; cbn [chunkLoop].
  - symmetry. apply drop_ge. lia.
  - destruct (Nat.ltb_spec i (length array)) as [Hlt | Hge].
    + cbn [concat]. rewrite IH by lia. unfold slice.
      replace (i + size - i) with size by lia.
      rewrite <- drop_drop. apply take_drop.
    + symmetry. apply drop_ge. lia.
Qed.

Lemma chunkArray_concat {A} (array : list A) size :
  1 <= size -> concat (chunkArray array size) = array.
Proof.
  intros Hsize. unfold chunkArray. rewrite chunkLoop_concat by lia. apply drop_0.
Qed.

Lemma chunkArray_bound {A} (array : list A) size :
  Forall (fun c => length c <= size) (chunkArray array size).
Proof. apply chunkLoop_bound. Qed.

Lemma filter_length_middle {A} (p : A -> bool) pre x post :
  length (List.filter p (pre ++ x :: post))
  = length (List.filter p pre) + (if p x then 1 else 0) + length (List.filter p post).
Proof.
  rewrite List.filter_app, length_app. cbn [List.filter].
  destruct (p x); cbn; lia.
Qed.

Section Batch.
Context {E : Type}.
Variable run : string -> E -> Completion RenderResult.

Abbreviation chunkStep := (chunkStep run).
Abbreviation outcomeOf := (outcomeOf run).

(** ** The concurrency bound of the chunked scheduler *)

Definition chunkBounded (n : nat) (s : ChunkState) : Prop :=
  Forall (fun c => length c <= n) (pending s) /\ length (current s) <= n.

Lemma inFlight_le_current s : inFlight s <= length (current s).
Proof. unfold inFlight, active. apply filter_length_le. Qed.

Lemma advance_bounded n s :
  Forall (fun c => length c <= n) (pending s) -> chunkBounded n (advance s).
Proof.
  intros Hp. unfold advance, chunkBounded.
  destruct (pending s) as [| c rest]; cbn.
  - split; [constructor | lia].
  - inversion Hp; subst. split; [assumption |].
    unfold startChunk. now rewrite length_map.
Qed.

Lemma chunkStep_bounded n s s' :
  chunkStep s s' -> chunkBounded n s -> chunkBounded n s'.
Proof.
  intros Hstep [Hp Hc].
  destruct Hstep as [s pre file post ev r _ Hcur _ | s pre file post ev t _ _ _ | s _ _ _].
  - split; cbn; [assumption |].
    rewrite Hcur in Hc. rewrite length_app in *. cbn in *. lia.
  - split; cbn; assumption.
  - now apply advance_bounded.
Qed.

Lemma renderFilesFrom_bounded n files : chunkBounded n (renderFilesFrom n files).
Proof. apply advance_bounded. cbn. apply chunkArray_bound. Qed.

Lemma chunk_reachable_bounded n files s :
  rtc chunkStep (renderFilesFrom n files) s -> chunkBounded n s.
Proof.
  revert s. apply rtc_ind_r.
  - apply renderFilesFrom_bounded.
  - intros s s' _ Hstep IH. eapply chunkStep_bounded; eassumption.
Qed.

Lemma chunk_inFlight_bound n files s :
  rtc chunkStep (renderFilesFrom n files) s -> inFlight s <= n.
Proof.
  intros Hreach. apply chunk_reachable_bounded in Hreach as [_ Hc].
  pose proof (inFlight_le_current s). lia.
Qed.

(** ** The concurrency bound of the limiter *)

Abbreviation limitStep := (limitStep run).


Lemma limitStep_activeCount n s s' :
  limitStep n s s' -> activeCount s <= n -> activeCount s' <= n.
Proof.
  intros Hstep Hle. unfold activeCount in *.
  destruct Hstep as [s pre file post Ht _ Hlt | s pre file post ev r Ht _
                     | s pre file post ev t Ht _]; cbn [tasks];
    unfold activeCount in *; rewrite Ht in *;
    rewrite filter_length_middle in *; cbn in *; lia.
Qed.

Lemma limitAll_activeCount files : activeCount (limitAll files) = 0.
Proof.
  unfold activeCount, limitAll. cbn. induction files as [| f files IH]; cbn; auto.
Qed.

Lemma limit_activeCount_bound n files s :
  rtc (limitStep n) (limitAll files) s -> activeCount s <= n.
Proof.
  revert s. apply rtc_ind_r.
  - rewrite limitAll_activeCount. lia.
  - intros s s' _ Hstep IH. eapply limitStep_activeCount; eassumption.
Qed.

End Batch.

Section Outcomes.
Context {E : Type}.
Variable run : string -> E -> Completion RenderResult.

Abbreviation chunkStep := (chunkStep run).
Abbreviation limitStep := (limitStep run).
Abbreviation outcomeOf := (outcomeOf run).

(** ** One outcome per input path: the chunked scheduler *)

Definition settledRight (task : string * option RenderResult) : Prop :=
  forall r, snd task = Some r -> outcomeOf (fst task) r.

Definition chunkInv (files : list string) (s : ChunkState) : Prop :=
  exists finished,
    files = finished ++ map fst (current s) ++ concat (pending s)
    /\ Forall2 outcomeOf finished (results s)
    /\ Forall settledRight (current s).

Lemma chunkResults_outcomes cur :
  forallb isSettled cur = true -> Forall settledRight cur ->
  Forall2 outcomeOf (map fst cur) (chunkResults cur).
Proof.
  unfold chunkResults.
  induction cur as [| [file [r |]] cur IH]; cbn; intros Hall Hright.
  - constructor.
  - inversion Hright as [| ? ? Hhd Htl]; subst.
    constructor; [apply Hhd; reflexivity | apply IH; assumption].
  - discriminate.
Qed.

Lemma startChunk_files chunk : map fst (startChunk chunk) = chunk.
Proof.
  unfold startChunk. rewrite map_map. cbn. apply map_id.
Qed.

Lemma startChunk_right chunk : Forall settledRight (startChunk chunk).
Proof.
  unfold startChunk. apply Forall_map, Forall_forall. intros file _ r. discriminate.
Qed.

Lemma advance_inv files s :
  chunkInv files s -> forallb isSettled (current s) = true ->
  chunkInv files (advance s).
Proof.
  intros (finished & Hfiles & Hres & Hright) Hall.
  exists (finished ++ map fst (current s)). unfold advance.
  destruct (pending s) as [| chunk rest]; cbn [current pending results concat] in *.
  - split; [| split].
    + rewrite Hfiles. cbn. now rewrite !app_nil_r.
    + apply Forall2_app; [assumption | now apply chunkResults_outcomes].
    + constructor.
  - split; [| split].
    + rewrite Hfiles, startChunk_files. now rewrite <- !app_assoc.
    + apply Forall2_app; [assumption | now apply chunkResults_outcomes].
    + apply startChunk_right.
Qed.

Lemma chunkStep_inv files s s' :
  chunkStep s s' -> chunkInv files s -> chunkInv files s'.
Proof.
  intros Hstep Hinv.
  destruct Hstep as [s pre file post ev r _ Hcur Hrun | s pre file post ev t _ _ _
                     | s _ Hall _].
  - destruct Hinv as (finished & Hfiles & Hres & Hright).
    exists finished. cbn [current pending results]. rewrite Hcur in *.
    split; [| split]; [| assumption |].
    + rewrite Hfiles. now rewrite !map_app.
    + apply Forall_app in Hright as [Hpre Hpost].
      inversion Hpost as [| ? ? _ Hpost']; subst.
      apply Forall_app. split; [assumption |].
      constructor; [| assumption].
      intros r' [= <-]. now exists ev.
  - exact Hinv.
  - now apply advance_inv.
Qed.

Lemma renderFilesFrom_inv n files :
  1 <= n -> chunkInv files (renderFilesFrom n files).
Proof.
  intros Hn. apply advance_inv; [| reflexivity].
  exists []. cbn. rewrite chunkArray_concat by assumption.
  repeat split; constructor.
Qed.

Lemma chunk_reachable_inv n files s :
  1 <= n -> rtc chunkStep (renderFilesFrom n files) s -> chunkInv files s.
Proof.
  intros Hn. revert s. apply rtc_ind_r.
  - now apply renderFilesFrom_inv.
  - intros s s' _ Hstep IH. eapply chunkStep_inv; eassumption.
Qed.

Lemma chunkDone_outcomes files s :
  chunkInv files s -> chunkDone s -> Forall2 outcomeOf files (results s).
Proof.
  intros (finished & Hfiles & Hres & _) (_ & Hpend & Hcur).
  rewrite Hpend, Hcur in Hfiles. cbn in Hfiles. rewrite app_nil_r in Hfiles.
  now subst.
Qed.

(** ** No task rejects, every run can continue, every run is finite *)

Hypothesis run_returns : forall file ev, exists r, run file ev = Normal r.

Lemma chunkStep_not_rejected s s' :
  chunkStep s s' -> rejected s = None -> rejected s' = None.
Proof.
  intros Hstep Hnone.
  destruct Hstep as [s pre file post ev r _ _ _ | s pre file post ev t _ _ Hrun
                     | s _ _ _].
  - reflexivity.
  - destruct (run_returns file ev) as [r Hr]. congruence.
  - unfold advance. destruct (pending s); assumption.
Qed.

Lemma renderFilesFrom_not_rejected n files : rejected (renderFilesFrom n files) = None.
Proof.
  unfold renderFilesFrom, advance. cbn. destruct (chunkArray files n); reflexivity.
Qed.

Lemma chunk_reachable_not_rejected n files s :
  rtc chunkStep (renderFilesFrom n files) s -> rejected s = None.
Proof.
  revert s. apply rtc_ind_r.
  - apply renderFilesFrom_not_rejected.
  - intros s s' _ Hstep IH. eapply chunkStep_not_rejected; eassumption.
Qed.

Lemma find_unsettled (cur : list (string * option RenderResult)) :
  forallb isSettled cur = true
  \/ exists pre file post, cur = pre ++ (file, None) :: post.
Proof.
  induction cur as [| [file [r |]] cur IH]; cbn.
  - now left.
  - destruct IH as [Hall | (pre & f & post & ->)]; [now left | right].
    now exists ((file, Some r) :: pre), f, post.
  - right. now exists [], file, cur.
Qed.

Lemma chunk_progress (witness : E) s :
  rejected s = None -> chunkDone s \/ exists s', chunkStep s s'.
Proof.
  intros Hnone.
  destruct (find_unsettled (current s)) as [Hall | (pre & file & post & Hcur)].
  - destruct (current s) as [| task cur] eqn:Hc.
    + destruct (pending s) as [| chunk rest] eqn:Hp.
      * left. now repeat split.
      * right. exists (advance s). constructor; [assumption | now rewrite Hc |].
        right. now rewrite Hp.
    + right. exists (advance s). constructor; [assumption | now rewrite Hc |].
      left. now rewrite Hc.
  - right. destruct (run_returns file witness) as [r Hr].
    eexists. eapply ChunkSettle; eassumption.
Qed.

End Outcomes.

Section Termination.
Context {E : Type}.
Variable run : string -> E -> Completion RenderResult.

Lemma settled_none_active (cur : list (string * option RenderResult)) :
  forallb isSettled cur = true ->
  List.filter (fun task => negb (isSettled task)) cur = [].
Proof.
  induction cur as [| task cur IH]; cbn; [reflexivity |].
  destruct (isSettled task); cbn; [assumption | discriminate].
Qed.

Lemma startChunk_all_active chunk :
  List.filter (fun task => negb (isSettled task)) (startChunk chunk) = startChunk chunk.
Proof.
  unfold startChunk.
  induction chunk as [| file chunk IH]; cbn; [reflexivity | now rewrite IH].
Qed.

Lemma chunkStep_measure s s' :
  chunkStep run s s' -> chunkMeasure s' < chunkMeasure s.
Proof.
  intros Hstep. unfold chunkMeasure, inFlight, active.
  destruct Hstep as [s pre file post ev r Hrej Hcur _ | s pre file post ev t Hrej _ _
                     | s Hrej Hall Hnonempty];
    cbn [pending current results rejected]; rewrite Hrej.
  - rewrite Hcur, !filter_length_middle, !length_app. cbn. lia.
  - lia.
  - rewrite (settled_none_active _ Hall). unfold advance.
    destruct (pending s) as [| chunk rest]; cbn [pending current results rejected].
    + rewrite Hrej. cbn. destruct Hnonempty as [Hne | Hne]; [| congruence].
      destruct (current s); [congruence | cbn; lia].
    + rewrite Hrej, startChunk_all_active. unfold startChunk.
      rewrite length_map. unfold list_sum. cbn. lia.
Qed.

Lemma limitStep_measure n s s' :
  limitStep run n s s' -> limitMeasure s' < limitMeasure s.
Proof.
  intros Hstep. unfold limitMeasure, activeCount.
  destruct Hstep as [s pre file post Ht _ _ | s pre file post ev r Ht _
                     | s pre file post ev t Ht _];
    cbn [tasks]; rewrite Ht, !filter_length_middle; cbn; lia.
Qed.

End Termination.

Section LimitOutcomes.
Context {E : Type}.
Variable run : string -> E -> Completion RenderResult.

Abbreviation limitStep' := (limitStep run).
Abbreviation outcomeOf' := (outcomeOf run).

(** ** One outcome per input path: the limiter *)

Definition taskRight (task : string * TaskStatus) : Prop :=
  forall r, snd task = Settled r -> outcomeOf' (fst task) r.

Definition limitInv (files : list string) (s : LimitState) : Prop :=
  map fst (tasks s) = files /\ Forall taskRight (tasks s).

Lemma limitAll_inv files : limitInv files (limitAll files).
Proof.
  unfold limitInv, limitAll. cbn. split.
  - rewrite map_map. cbn. apply map_id.
  - apply Forall_map, Forall_forall. intros file _ r. discriminate.
Qed.

Lemma update_taskRight pre file st st' post :
  Forall taskRight (pre ++ (file, st) :: post) ->
  taskRight (file, st') ->
  Forall taskRight (pre ++ (file, st') :: post).
Proof.
  intros Hall Hnew. apply Forall_app in Hall as [Hpre Hpost].
  inversion Hpost; subst. apply Forall_app. split; [assumption |].
  now constructor.
Qed.

Lemma limitStep_inv n files s s' :
  limitStep' n s s' -> limitInv files s -> limitInv files s'.
Proof.
  intros Hstep [Hfiles Hright].
  destruct Hstep as [s pre file post Ht _ _ | s pre file post ev r Ht Hrun
                     | s pre file post ev t Ht _];
    rewrite Ht in *; split; cbn [tasks];
    try (rewrite <- Hfiles, !map_app; reflexivity);
    (eapply update_taskRight; [eassumption |]); intros r' [=].
  subst r'. now exists ev.
Qed.

Lemma limit_reachable_inv n files s :
  rtc (limitStep' n) (limitAll files) s -> limitInv files s.
Proof.
  revert s. apply rtc_ind_r.
  - apply limitAll_inv.
  - intros s s' _ Hstep IH. eapply limitStep_inv; eassumption.
Qed.

Lemma settled_outcomes (ts : list (string * TaskStatus)) :
  forallb hasResult ts = true -> Forall taskRight ts ->
  Forall2 outcomeOf' (map fst ts) (omap settledResult ts).
Proof.
  induction ts as [| [file st] ts IH]; cbn; intros Hall Hright; [constructor |].
  inversion Hright as [| ? ? Hhd Htl]; subst.
  destruct st as [| | r | t]; cbn in *; try discriminate.
  constructor; [apply Hhd; reflexivity | now apply IH].
Qed.

Lemma limitDone_outcomes files s :
  limitInv files s -> limitDone s -> Forall2 outcomeOf' files (limitResults s).
Proof.
  intros [Hfiles Hright] [_ Hall]. rewrite <- Hfiles.
  now apply settled_outcomes.
Qed.

(** ** No task rejects, every run can continue *)

Hypothesis run_returns : forall file ev, exists r, run file ev = Normal r.

Definition notRejected (task : string * TaskStatus) : bool :=
  match snd task with Rejected _ => false | _ => true end.

Definition limitClean (s : LimitState) : Prop :=
  limitRejected s = None /\ forallb notRejected (tasks s) = true.

Lemma forallb_middle {A} (p : A -> bool) pre x post :
  forallb p (pre ++ x :: post) = forallb p pre && p x && forallb p post.
Proof. rewrite forallb_app. cbn. now rewrite andb_assoc. Qed.

Lemma limitStep_clean n s s' :
  limitStep' n s s' -> limitClean s -> limitClean s'.
Proof.
  intros Hstep [Hnone Hall].
  destruct Hstep as [s pre file post Ht _ _ | s pre file post ev r Ht _
                     | s pre file post ev t Ht Hrun];
    rewrite Ht in Hall; rewrite forallb_middle in Hall.
  - split; [assumption |]. cbn [tasks]. now rewrite forallb_middle.
  - split; [assumption |]. cbn [tasks]. now rewrite forallb_middle.
  - destruct (run_returns file ev) as [r Hr]. congruence.
Qed.

Lemma limitAll_clean files : limitClean (limitAll files).
Proof.
  split; [reflexivity |]. cbn. induction files; cbn; auto.
Qed.

Lemma limit_reachable_clean n files s :
  rtc (limitStep' n) (limitAll files) s -> limitClean s.
Proof.
  revert s. apply rtc_ind_r.
  - apply limitAll_clean.
  - intros s s' _ Hstep IH. eapply limitStep_clean; eassumption.
Qed.

Lemma find_first {A} (p : A -> bool) (l : list A) :
  forallb (fun x => negb (p x)) l = true
  \/ exists pre x post,
       l = pre ++ x :: post /\ p x = true /\ forallb (fun y => negb (p y)) pre = true.
Proof.
  induction l as [| a l IH]; cbn; [now left |].
  destruct (p a) eqn:Ha; cbn.
  - right. now exists [], a, l.
  - destruct IH as [Hall | (pre & x & post & -> & Hx & Hpre)]; [now left | right].
    exists (a :: pre), x, post. cbn. now rewrite Ha.
Qed.

Lemma none_running_count (ts : list (string * TaskStatus)) :
  forallb (fun t => negb (isRunning t)) ts = true ->
  length (List.filter isRunning ts) = 0.
Proof.
  induction ts as [| t ts IH]; cbn; [reflexivity |].
  destruct (isRunning t); cbn; [discriminate | assumption].
Qed.

Lemma all_settled (ts : list (string * TaskStatus)) :
  forallb (fun t => negb (isRunning t)) ts = true ->
  forallb (fun t => negb (isQueued t)) ts = true ->
  forallb notRejected ts = true ->
  forallb hasResult ts = true.
Proof.
  induction ts as [| [file st] ts IH]; cbn; [reflexivity |].
  destruct st; cbn; try discriminate. assumption.
Qed.

Lemma limit_progress (witness : E) n s :
  1 <= n -> limitClean s -> limitDone s \/ exists s', limitStep' n s s'.
Proof.
  intros Hn [Hnone Hclean].
  destruct (find_first isRunning (tasks s))
    as [Hidle | (pre & [file st] & post & Ht & Hrunning & _)].
  - destruct (find_first isQueued (tasks s))
      as [Hempty | (pre & [file st] & post & Ht & Hqueued & Hpre)].
    + left. split; [assumption | now apply all_settled].
    + right. destruct st; try discriminate.
      eexists. eapply LimitStart; [eassumption | assumption |].
      unfold activeCount. rewrite none_running_count by assumption. lia.
  - right. destruct st; try discriminate.
    destruct (run_returns file witness) as [r Hr].
    eexists. eapply LimitSettle; eassumption.
Qed.

End LimitOutcomes.

(** ** The two schedulers of the repository *)

Lemma Renderer_maxConcurrent_positive (config : Config.Legacy.RenderConfig) :
  1 <= Renderer_maxConcurrent config.
Proof.
  unfold Renderer_maxConcurrent.
  destruct (Config.Legacy.maxConcurrentRenders config) as [[| n] |]; lia.
Qed.

Lemma maxConcurrent_positive cpus (config : RenderConfig) :
  Config.validLimit config -> 1 <= maxConcurrent cpus config.
Proof.
  unfold Config.validLimit, maxConcurrent.
  destruct (Config.maxConcurrentRenders config) as [[| n] |]; lia.
Qed.

Lemma renderWithConcurrency_starts cpus (config : RenderConfig) files limit s0 :
  renderWithConcurrency cpus config files = Normal (limit, s0) ->
  limit = maxConcurrent cpus config /\ s0 = limitAll files.
Proof.
  unfold renderWithConcurrency, pLimit.
  destruct (maxConcurrent cpus config =? 0); cbn; [discriminate |].
  now intros [= <- <-].
Qed.

Lemma renderWithConcurrency_valid cpus (config : RenderConfig) files :
  Config.validLimit config ->
  renderWithConcurrency cpus config files
  = Normal (maxConcurrent cpus config, limitAll files).
Proof.
  intros Hvalid. apply (maxConcurrent_positive cpus) in Hvalid.
  unfold renderWithConcurrency, pLimit.
  destruct (Nat.eqb_spec (maxConcurrent cpus config) 0); [lia | reflexivity].
Qed.

Section WithPaths.
Context {P : Path.Api}.

(** C1 (amended).  During a batch, the number of render executions that are
    active at the same time never exceeds the configured limit [N], whatever
    the size of the batch.  Without a configured limit the bound is the
    default of the scheduler: [max(1, cpus)] for [renderWithConcurrency],
    where ['auto'] counts as unset, and the constant 4 for
    [Renderer.renderFiles], which also takes a limit of 0 as unset. *)
Theorem scheduler_never_exceeds_limit :
  (forall (config : Config.Legacy.RenderConfig) (files : list string) s,
      rtc (Renderer_step config) (Renderer_renderFiles config files) s ->
      (forall N, Config.Legacy.maxConcurrentRenders config = Some N -> 1 <= N ->
                 inFlight s <= N)
      /\ (Config.Legacy.maxConcurrentRenders config = None
          \/ Config.Legacy.maxConcurrentRenders config = Some 0 ->
          inFlight s <= 4))
  /\ (forall cpus (config : RenderConfig) (files : list string) limit s0 s,
      renderWithConcurrency cpus config files = Normal (limit, s0) ->
      rtc (renderWithConcurrency_step config limit) s0 s ->
      (forall N, Config.maxConcurrentRenders config = Some (Config.Limit N) ->
                 activeCount s <= N)
      /\ (Config.maxConcurrentRenders config = Some Config.Auto
          \/ Config.maxConcurrentRenders config = None ->
          activeCount s <= Nat.max 1 cpus)).
Proof.
  split.
  - intros config files s Hreach.
    pose proof (chunk_inFlight_bound _ _ _ _ Hreach) as Hbound.
    unfold Renderer_maxConcurrent in Hbound. split.
    + intros N HN Hpos. rewrite HN in Hbound. destruct N; [lia | exact Hbound].
    + intros [Hnone | Hzero]; [rewrite Hnone in Hbound | rewrite Hzero in Hbound];
        exact Hbound.
  - intros cpus config files limit s0 s Hstart Hreach.
    apply renderWithConcurrency_starts in Hstart as [-> ->].
    pose proof (limit_activeCount_bound _ _ _ _ Hreach) as Hbound.
    unfold maxConcurrent in Hbound. split.
    + intros N HN. now rewrite HN in Hbound.
    + intros [Hauto | Hnone]; [rewrite Hauto in Hbound | rewrite Hnone in Hbound];
        exact Hbound.
Qed.

(** C2.  Every run of a batch returns, without rejecting, one outcome per
    input path: when the call has returned, its results pair up with the
    input paths, each result being the outcome of rendering its own path,
    success or failure; until then the run can always continue, and every
    step decreases a measure, so the call does return. *)
Theorem every_path_gets_one_outcome :
  (forall (config : Config.Legacy.RenderConfig) (files : list string) s,
      rtc (Renderer_step config) (Renderer_renderFiles config files) s ->
      rejected s = None
      /\ (chunkDone s ->
          length (results s) = length files
          /\ Forall2 (outcomeOf (Renderer_renderFile config)) files (results s))
      /\ (chunkDone s \/ exists s', Renderer_step config s s')
      /\ (forall s', Renderer_step config s s' -> chunkMeasure s' < chunkMeasure s))
  /\ (forall cpus (config : RenderConfig) (files : list string),
      Config.validLimit config ->
      exists limit s0,
        renderWithConcurrency cpus config files = Normal (limit, s0)
        /\ forall s,
            rtc (renderWithConcurrency_step config limit) s0 s ->
            limitRejected s = None
            /\ (limitDone s ->
                length (limitResults s) = length files
                /\ Forall2 (outcomeOf (renderFile config)) files (limitResults s))
            /\ (limitDone s \/ exists s', renderWithConcurrency_step config limit s s')
            /\ (forall s', renderWithConcurrency_step config limit s s' ->
                           limitMeasure s' < limitMeasure s)).
Proof.
  split.
  - intros config files s Hreach.
    pose proof (RenderFacts.Renderer_renderFile_returns config) as Htotal.
    pose proof (chunk_reachable_not_rejected _ Htotal _ _ _ Hreach) as Hclean.
    pose proof (chunk_reachable_inv _ _ _ _
                  (Renderer_maxConcurrent_positive config) Hreach) as Hinv.
    split; [exact Hclean |]. split; [| split].
    + intros Hdone. pose proof (chunkDone_outcomes _ _ _ Hinv Hdone) as Hout.
      split; [symmetry; eapply Forall2_length; exact Hout | exact Hout].
    + exact (chunk_progress _ Htotal (ChildClose (Some 0%Z) None) s Hclean).
    + intros s'. apply chunkStep_measure.
  - intros cpus config files Hvalid.
    exists (maxConcurrent cpus config), (limitAll files).
    split; [now apply renderWithConcurrency_valid |].
    intros s Hreach.
    pose proof (RenderFacts.renderFile_returns config) as Htotal.
    pose proof (limit_reachable_clean _ Htotal _ _ _ Hreach) as Hclean.
    pose proof (limit_reachable_inv _ _ _ _ Hreach) as Hinv.
    split; [exact (proj1 Hclean) |]. split; [| split].
    + intros Hdone. pose proof (limitDone_outcomes _ _ _ Hinv Hdone) as Hout.
      split; [symmetry; eapply Forall2_length; exact Hout | exact Hout].
    + exact (limit_progress _ Htotal ExecaResolved _ s
               (maxConcurrent_positive cpus config Hvalid) Hclean).
    + intros s'. apply limitStep_measure.
Qed.

End WithPaths.

(** ** Sample runs *)

Lemma chunk_sample_run_one :
  rtc (Renderer_step (P:=Path.posix) Examples.legacyConfig)
      (Renderer_renderFiles (P:=Path.posix) Examples.legacyConfig Examples.threeFiles)
      Examples.chunkAfterOne.
Proof.
  eapply rtc_l; [| apply rtc_refl].
  exact (ChunkSettle _ (Renderer_renderFiles (P:=Path.posix) Examples.legacyConfig
                          Examples.threeFiles)
           [] "home.tsx" [("about.tsx", None)] Examples.exitOne Examples.failedHome
           eq_refl eq_refl eq_refl).
Defined.

Lemma chunk_sample_run_all :
  rtc (Renderer_step (P:=Path.posix) Examples.legacyConfig)
      (Renderer_renderFiles (P:=Path.posix) Examples.legacyConfig Examples.threeFiles)
      Examples.chunkFinished.
Proof.
  eapply rtc_trans; [exact chunk_sample_run_one |].
  unfold Renderer_step.
  eapply rtc_l.
  { exact (ChunkSettle _ Examples.chunkAfterOne
             [("home.tsx", Some Examples.failedHome)] "about.tsx" []
             (ChildClose (Some 0%Z) None) Examples.renderedAbout
             eq_refl eq_refl eq_refl). }
  eapply rtc_l.
  { apply ChunkAdvance; [reflexivity | reflexivity | left; discriminate]. }
  eapply rtc_l.
  { match goal with |- chunkStep _ ?s _ =>
      exact (ChunkSettle _ s [] "contact.tsx" [] (ChildClose (Some 0%Z) None)
               Examples.renderedContact eq_refl eq_refl eq_refl) end. }
  eapply rtc_l; [| apply rtc_refl].
  match goal with |- chunkStep _ ?s _ =>
    refine (ChunkAdvance _ s eq_refl eq_refl (or_introl _)) end.
  discriminate.
Defined.

Lemma limit_sample_run :
  rtc (renderWithConcurrency_step (P:=Path.posix) Examples.config 2)
      (limitAll Examples.threeFiles) Examples.limitAfterStart.
Proof.
  eapply rtc_l.
  { apply (LimitStart _ 2 (limitAll Examples.threeFiles) [] "home.tsx"
             [("about.tsx", Queued); ("contact.tsx", Queued)]);
      [reflexivity | reflexivity | cbn; lia]. }
  eapply rtc_l; [| apply rtc_refl].
  unfold renderWithConcurrency_step.
  match goal with |- limitStep _ _ ?s _ =>
    apply (LimitStart _ 2 s [("home.tsx", Running)] "about.tsx"
             [("contact.tsx", Queued)]); [reflexivity | reflexivity | cbn; lia] end.
Defined.

(** Witness for C1: the two sample runs with a limit of two. *)
Lemma scheduler_never_exceeds_limit_witness :
  inFlight Examples.chunkAfterOne <= 2 /\ activeCount Examples.limitAfterStart <= 2.
Proof.
  split.
  - exact (proj1 (proj1 (scheduler_never_exceeds_limit (P:=Path.posix))
                    Examples.legacyConfig Examples.threeFiles _ chunk_sample_run_one)
             2 eq_refl ltac:(lia)).
  - exact (proj1 (proj2 (scheduler_never_exceeds_limit (P:=Path.posix))
                    8 Examples.config Examples.threeFiles 2 _ _ eq_refl limit_sample_run)
             2 eq_refl).
Defined.

(** Counterexample to C1 as stated: on a machine with two processors the
    class-based renderer without a configured limit starts the first four
    files of a batch at once; its default is the constant 4, not the number
    of processors. *)
Lemma legacy_default_ignores_the_processors : ~ neverExceedsLimitOrParallelism.
Proof.
  intros Hclaim.
  destruct (Hclaim Path.posix 2) as [Hlegacy _].
  destruct (Hlegacy Examples.legacyUnlimited Examples.fourFiles _ (rtc_refl _ _))
    as [_ Hdefault].
  specialize (Hdefault eq_refl).
  assert (Hfour : inFlight (Renderer_renderFiles (P:=Path.posix) Examples.legacyUnlimited
                              Examples.fourFiles) = 4) by (vm_compute; reflexivity).
  rewrite Hfour in Hdefault. cbn in Hdefault. lia.
Qed.

(** Witness for C2: the finished sample run has one outcome per path, the
    failure of the first path included. *)
Lemma every_path_gets_one_outcome_witness :
  (chunkDone Examples.chunkFinished
   /\ length (results Examples.chunkFinished) = length Examples.threeFiles)
  /\ (Config.validLimit Examples.config
      /\ exists limit s0,
          renderWithConcurrency 8 Examples.config Examples.threeFiles
          = Normal (limit, s0)).
Proof.
  split.
  - assert (Hdone : chunkDone Examples.chunkFinished) by (repeat split).
    split; [exact Hdone |].
    exact (proj1 (proj1 (proj2 (proj1 (every_path_gets_one_outcome (P:=Path.posix))
             Examples.legacyConfig Examples.threeFiles _ chunk_sample_run_all)) Hdone)).
  - assert (Hvalid : Config.validLimit Examples.config) by (cbn; lia).
    split; [exact Hvalid |].
    destruct (proj2 (every_path_gets_one_outcome (P:=Path.posix))
                8 Examples.config Examples.threeFiles Hvalid)
      as (limit & s0 & Hstart & _).
    exists limit, s0. exact Hstart.
Defined.

End SchedulerFacts.

(* ===================================================================== *)
(** * Properties of the command-line render action *)
(* ===================================================================== *)

Module CliFacts.
Import Js Config Render Cli.

(** A printing-only computation: it returns, and neither throws nor exits. *)
Definition quiet (m : Eff unit) : Prop :=
  forall log, exists log', m log = (Normal tt, log').

Lemma quiet_ret : quiet (ret tt).
Proof. intros log. now exists log. Qed.

Lemma quiet_consoleLog text : quiet (consoleLog text).
Proof. intros log. now eexists. Qed.

Lemma quiet_consoleError text : quiet (consoleError text).
Proof. intros log. now eexists. Qed.

Lemma quiet_bind (m : Eff unit) (k : unit -> Eff unit) :
  quiet m -> (forall u, quiet (k u)) -> quiet (bindEff m k).
Proof.
  intros Hm Hk log. unfold bindEff.
  destruct (Hm log) as [log1 ->]. apply Hk.
Qed.

Lemma quiet_when cond action : quiet action -> quiet (when cond action).
Proof. intros H. destruct cond; [exact H | apply quiet_ret]. Qed.

Lemma quiet_whenSome {A} (value : option A) action :
  (forall a, quiet (action a)) -> quiet (whenSome value action).
Proof. intros H. destruct value; [apply H | apply quiet_ret]. Qed.

Lemma quiet_forEach {A} (items : list A) action :
  (forall a, quiet (action a)) -> quiet (forEach items action).
Proof.
  intros H. induction items as [| item rest IH]; cbn.
  - apply quiet_ret.
  - apply quiet_bind; [apply H | intros _; exact IH].
Qed.

Create HintDb quiet.
#[local] Hint Resolve quiet_ret quiet_consoleLog quiet_consoleError quiet_when
  quiet_whenSome quiet_forEach : quiet.

Lemma quiet_reportResults results : quiet (reportResults results).
Proof.
  unfold reportResults. apply quiet_bind; [auto with quiet |]. intros _.
  apply quiet_when, quiet_bind; [auto with quiet |]. intros _.
  apply quiet_forEach. intros error.
  apply quiet_bind; [auto with quiet |]. intros _.
  apply quiet_bind; auto with quiet.
Qed.

Lemma quiet_legacyReportResults results : quiet (legacyReportResults results).
Proof.
  unfold legacyReportResults. apply quiet_bind; [auto with quiet |]. intros _.
  apply quiet_when, quiet_bind; [auto with quiet |]. intros _.
  apply quiet_forEach. intros error.
  apply quiet_bind; auto with quiet.
Qed.

#[local] Hint Resolve quiet_reportResults quiet_legacyReportResults : quiet.

Lemma bind_quiet {B} (m : Eff unit) (k : unit -> Eff B) log :
  quiet m -> exists log', (m ≫= k) log = k tt log'.
Proof.
  intros Hm. destruct (Hm log) as [log1 H1]. exists log1.
  unfold mbind, eff_bind, bindEff. now rewrite H1.
Qed.

(** Run a leading printing-only statement. *)
Ltac run_quiet :=
  match goal with
  | |- context [ (?m ≫= ?k) ?log ] =>
      let log' := fresh "log" in
      let H := fresh "Hrun" in
      destruct (bind_quiet m k log) as [log' H];
      [solve [auto 8 with quiet] | rewrite H; clear H; cbv beta]
  end.

Lemma handleConfigLoad_failed {C} (load : option string -> ConfigLoadResult C)
  path error log :
  load path = LoadFailed error ->
  exists log', handleConfigLoad load path log = (Exit 1%Z, log').
Proof.
  intros Hload. unfold handleConfigLoad. rewrite Hload.
  do 3 run_quiet. now eexists.
Qed.

(** The exit code of a non-watch run as a function of what its
    collaborators did. *)
Definition expectedExit {C} (loaded : ConfigLoadResult C)
  (batch : C -> Completion (list RenderResult)) : Z :=
  match loaded with
  | LoadFailed _ => 1
  | Loaded base =>
      match batch base with
      | Normal _ => 0
      | Throw _ => 1
      | Exit c => c
      end
  end%Z.

Lemma renderAction_exit (w : World) files options log :
  watch options = false ->
  exitCodeOf (renderAction w files options log)
  = Some (expectedExit (loadConfig w (configPath options))
            (fun base =>
               let config := applyCliOverrides base options in
               renderWithConcurrency w
                 (if 0 <? length files then files else findEntryPoints w config)
                 config)).
Proof.
  intros Hwatch. unfold renderAction, expectedExit, tryCatchEff.
  rewrite Hwatch. unfold mbind at 1, eff_bind at 1, bindEff at 1.
  destruct (loadConfig w (configPath options)) as [base | error] eqn:Hload.
  - unfold handleConfigLoad at 1. rewrite Hload. cbn [ret].
    destruct (0 <? length files);
      unfold mbind at 1, eff_bind at 1, bindEff at 1;
      run_quiet; unfold lift;
      match goal with
      | |- context [ renderWithConcurrency w ?fs ?c ] =>
          destruct (renderWithConcurrency w fs c) as [results | t | c']
      end; cbv beta iota; try reflexivity; run_quiet; reflexivity.
  - destruct (handleConfigLoad_failed (loadConfig w) _ _ log Hload) as [log1 ->].
    reflexivity.
Qed.

Lemma legacyRenderAction_exit (w : LegacyWorld) files options log :
  watch options = false ->
  exitCodeOf (legacyRenderAction w files options log)
  = Some (expectedExit (legacyLoadConfig w (configPath options))
            (fun base =>
               let config := legacyApplyCliOverrides base options in
               Renderer_renderFiles w config
                 (if 0 <? length files then files
                  else Renderer_findEntryPoints w config))).
Proof.
  intros Hwatch. unfold legacyRenderAction, expectedExit, tryCatchEff.
  rewrite Hwatch. unfold mbind at 1, eff_bind at 1, bindEff at 1.
  destruct (legacyLoadConfig w (configPath options)) as [base | error] eqn:Hload.
  - unfold handleConfigLoad at 1. rewrite Hload. cbn [ret].
    unfold Renderer_renderAll.
    destruct (0 <? length files);
      unfold mbind at 1, eff_bind at 1, bindEff at 1;
      run_quiet;
      unfold mbind at 1, eff_bind at 1, bindEff at 1; unfold lift;
      match goal with
      | |- context [ Renderer_renderFiles w ?c ?fs ] =>
          destruct (Renderer_renderFiles w c fs) as [results | t | c']
      end; cbv beta iota; try reflexivity;
      destruct (quiet_legacyReportResults results log0) as [log1 ->]; reflexivity.
  - destruct (handleConfigLoad_failed (legacyLoadConfig w) _ _ log Hload) as [log1 ->].
    reflexivity.
Qed.

(** C4, amended.  Without [--watch], the render action exits with code 1 when
    the configuration cannot be loaded and when the batch (or entry-point
    discovery) throws, and exits with code 0 once the batch has completed and
    been reported, whether or not renders in it failed. *)
Theorem renderAction_exit_code :
  (forall (w : World) files options log,
      watch options = false ->
      exitCodeOf (renderAction w files options log)
      = Some (expectedExit (loadConfig w (configPath options))
                (fun base =>
                   let config := applyCliOverrides base options in
                   renderWithConcurrency w
                     (if 0 <? length files then files else findEntryPoints w config)
                     config)))
  /\ (forall (w : LegacyWorld) files options log,
      watch options = false ->
      exitCodeOf (legacyRenderAction w files options log)
      = Some (expectedExit (legacyLoadConfig w (configPath options))
                (fun base =>
                   let config := legacyApplyCliOverrides base options in
                   Renderer_renderFiles w config
                     (if 0 <? length files then files
                      else Renderer_findEntryPoints w config)))).
Proof.
  split.
  - intros w files options log Hwatch. now apply renderAction_exit.
  - intros w files options log Hwatch. now apply legacyRenderAction_exit.
Qed.

(** Witness for C4: a non-watch run whose only render fails exits with 0. *)
Lemma renderAction_exit_code_witness :
  watch Examples.plainOptions = false
  /\ exitCodeOf (renderAction Examples.failingWorld ["home.tsx"] Examples.plainOptions [])
     = Some 0%Z
  /\ exitCodeOf (legacyRenderAction Examples.legacyFailingWorld ["home.tsx"]
                   Examples.plainOptions [])
     = Some 0%Z.
Proof.
  split; [reflexivity |]. split.
  - exact (proj1 renderAction_exit_code Examples.failingWorld ["home.tsx"]
             Examples.plainOptions [] eq_refl).
  - exact (proj2 renderAction_exit_code Examples.legacyFailingWorld ["home.tsx"]
             Examples.plainOptions [] eq_refl).
Defined.

(** Counterexample to C4 as stated: the configuration loads, the only render
    of the batch fails, and the action still exits with code 0. *)
Lemma exit_code_ignores_failed_renders : ~ exitCodeReflectsFailures.
Proof.
  intros Hclaim.
  destruct (Hclaim Examples.failingWorld ["home.tsx"] Examples.plainOptions
              Examples.config [Examples.failedHome]
              eq_refl ltac:(cbn; lia) eq_refl eq_refl) as [Hzero _].
  assert (Hexit : exitCodeOf (renderAction Examples.failingWorld ["home.tsx"]
                                Examples.plainOptions []) = Some 0%Z)
    by (vm_compute; reflexivity).
  specialize (Hzero Hexit). discriminate.
Qed.

End CliFacts.


(* ===================================================================== *)
(** * Properties of the dependency watcher *)
(* ===================================================================== *)

Module WatcherFacts.
Import Js Config Watcher StrFacts.

Section Build.
Context {P : Path.Api}.
Variable dependencyTree : string -> option DepTree.

(** The resolved files of a dependency tree. *)
Definition treeFiles (t : DepTree) : gset string := collectAllDependencies t ∅.

Lemma collect_union t result :
  collectAllDependencies t result = result ∪ treeFiles t.
Proof.
  unfold treeFiles. revert result.
  induction t as [children IH] using DepTree_nested_ind.
  cbn [collectAllDependencies].
  induction children as [| [dep sub] rest IHrest]; intros result; cbn [fold_left].
  - set_solver.
  - inversion IH as [| ? ? Hsub Hrest]; subst. cbn [fst snd] in *.
    rewrite (IHrest Hrest (collectAllDependencies sub _)).
    rewrite (IHrest Hrest (collectAllDependencies sub ({[Path.resolve dep]} ∪ ∅))).
    rewrite (Hsub ({[Path.resolve dep]} ∪ result)).
    rewrite (Hsub ({[Path.resolve dep]} ∪ ∅)).
    set_solver.
Qed.

Lemma treeFiles_cons dep sub rest :
  treeFiles (DepNode ((dep, sub) :: rest))
  = {[Path.resolve dep]} ∪ treeFiles sub ∪ treeFiles (DepNode rest).
Proof.
  unfold treeFiles at 1. cbn [collectAllDependencies fold_left fst snd].
  change (fold_left _ rest ?r) with (collectAllDependencies (DepNode rest) r).
  rewrite collect_union, collect_union. set_solver.
Qed.

Lemma treeFiles_nil : treeFiles (DepNode []) = ∅.
Proof. reflexivity. Qed.

Lemma getSet_insert (m : FileMap) key value other :
  getSet (<[key := value]> m) other = if decide (key = other) then value else getSet m other.
Proof.
  unfold getSet. rewrite lookup_insert. now destruct (decide (key = other)).
Qed.

Lemma getSet_ensure (m : FileMap) key other :
  getSet match m !! key with
         | Some _ => m
         | None => <[key := ∅]> m
         end other = getSet m other.
Proof.
  unfold getSet. destruct (m !! key) eqn:Hl; [reflexivity |].
  rewrite lookup_insert. destruct (decide (key = other)) as [<- | _];
    [now rewrite Hl | reflexivity].
Qed.

(** What [traverse] does to its two stores. *)
Definition traversed (file : string) (t : DepTree) (st st' : gset string * FileMap) : Prop :=
  fst st' = fst st ∪ treeFiles t
  /\ forall a b, a ∈ getSet (snd st') b
                 <-> a ∈ getSet (snd st) b \/ (a = file /\ b ∈ treeFiles t).

Lemma traverse_spec file t st : traversed file t st (traverse file t st).
Proof.
  revert st. induction t as [children IH] using DepTree_nested_ind.
  cbn [traverse].
  induction children as [| [dep sub] rest IHrest]; intros st; cbn [fold_left].
  - unfold traversed. rewrite treeFiles_nil. split; [set_solver | set_solver].
  - inversion IH as [| ? ? Hsub Hrest]; subst. cbn [fst snd] in *.
    specialize (IHrest Hrest).
    match goal with
    | |- traversed _ _ _ (fold_left _ rest (traverse file sub ?st1)) =>
        destruct (IHrest (traverse file sub st1)) as [Hfst Hsnd];
        destruct (Hsub st1) as [Hfst1 Hsnd1]
    end.
    cbn [fst snd] in *. unfold traversed. rewrite treeFiles_cons. split.
    + rewrite Hfst, Hfst1. set_solver.
    + intros a b. rewrite Hsnd, Hsnd1. rewrite getSet_insert, !getSet_ensure.
      destruct (decide (Path.resolve dep = b)) as [<- | Hne]; set_solver.
Qed.

(** The graph after the entry points [processed] have been handled. *)
Definition builtFrom (processed : list string) (g : Graph) : Prop :=
  (forall e, dependencyGraph g !! e
             = if decide (e ∈ processed) then treeFiles <$> dependencyTree e else None)
  /\ (forall a b, a ∈ reverseSet g b
                  <-> a ∈ processed /\ exists t, dependencyTree a = Some t /\ b ∈ treeFiles t).

Lemma emptyGraph_built : builtFrom [] emptyGraph.
Proof.
  split.
  - intros e. cbn. rewrite lookup_empty. destruct (decide (e ∈ [])) as [H | _];
      [inversion H | reflexivity].
  - intros a b. unfold reverseSet, getSet. cbn. rewrite lookup_empty. cbn.
    split; [set_solver |]. intros [H _]. inversion H.
Qed.

Lemma addDependencies_built processed g entryPoint t :
  dependencyTree entryPoint = Some t ->
  builtFrom processed g ->
  builtFrom (processed ++ [entryPoint]) (addDependencies entryPoint t g).
Proof.
  intros Htree [Hfwd Hrev]. unfold addDependencies.
  pose proof (traverse_spec entryPoint t (∅, reverseDependencyGraph g)) as [Hds Hrv].
  destruct (traverse entryPoint t (∅, reverseDependencyGraph g)) as [ds rev'].
  cbn [fst snd] in *. split.
  - intros e. cbn [dependencyGraph]. rewrite lookup_insert.
    destruct (decide (entryPoint = e)) as [<- | Hne].
    + rewrite decide_True by (apply elem_of_app; right; now left).
      rewrite Htree. cbn. f_equal. rewrite Hds. set_solver.
    + rewrite Hfwd. destruct (decide (e ∈ processed)) as [Hin | Hnin].
      * rewrite decide_True by (apply elem_of_app; now left). reflexivity.
      * rewrite decide_False; [reflexivity |].
        intros [H | H]%elem_of_app; [contradiction |].
        apply list_elem_of_singleton in H. congruence.
  - intros a b. unfold reverseSet in *. cbn [reverseDependencyGraph].
    rewrite Hrv, Hrev. rewrite elem_of_app, list_elem_of_singleton. split.
    + intros [[Hin Ht] | [-> Hb]]; [tauto |]. split; [now right |]. now exists t.
    + intros [[Hin | ->] (t' & Ht' & Hb)].
      * left. split; [assumption |]. now exists t'.
      * right. split; [reflexivity |]. congruence.
Qed.

Lemma builtFrom_skip processed g entryPoint :
  dependencyTree entryPoint = None ->
  builtFrom processed g -> builtFrom (processed ++ [entryPoint]) g.
Proof.
  intros Htree [Hfwd Hrev]. split.
  - intros e. rewrite Hfwd.
    destruct (decide (e ∈ processed)) as [Hin | Hnin].
    + rewrite decide_True by (apply elem_of_app; now left). reflexivity.
    + destruct (decide (e ∈ processed ++ [entryPoint])) as [Hin' | _]; [| reflexivity].
      apply elem_of_app in Hin' as [? | Hin']; [contradiction |].
      apply list_elem_of_singleton in Hin'. subst. now rewrite Htree.
  - intros a b. rewrite Hrev, elem_of_app, list_elem_of_singleton. split.
    + intros [Hin Ht]. tauto.
    + intros [[Hin | ->] (t & Ht & Hb)]; [| congruence].
      split; [assumption |]. now exists t.
Qed.

Lemma builtFrom_entryPointDependencies processed g deps :
  builtFrom processed g ->
  builtFrom processed (MkGraph (dependencyGraph g) (reverseDependencyGraph g) deps).
Proof. intros H. exact H. Qed.

Lemma addEntryPoint_built processed g entryPoint :
  builtFrom processed g ->
  builtFrom (processed ++ [entryPoint]) (addEntryPoint dependencyTree g entryPoint).
Proof.
  intros Hbuilt. unfold addEntryPoint.
  destruct (dependencyTree entryPoint) as [t |] eqn:Htree.
  - apply addDependencies_built; [assumption |].
    now apply builtFrom_entryPointDependencies.
  - now apply builtFrom_skip.
Qed.

Lemma legacyAddEntryPoint_built processed g entryPoint :
  builtFrom processed g ->
  builtFrom (processed ++ [entryPoint]) (legacyAddEntryPoint dependencyTree g entryPoint).
Proof.
  intros Hbuilt. unfold legacyAddEntryPoint.
  destruct (dependencyTree entryPoint) as [t |] eqn:Htree.
  - now apply addDependencies_built.
  - now apply builtFrom_skip.
Qed.

Lemma fold_built (add : Graph -> string -> Graph) :
  (forall processed g entryPoint,
      builtFrom processed g -> builtFrom (processed ++ [entryPoint]) (add g entryPoint)) ->
  forall entryPoints processed g,
    builtFrom processed g ->
    builtFrom (processed ++ entryPoints) (fold_left add entryPoints g).
Proof.
  intros Hadd entryPoints.
  induction entryPoints as [| e rest IH]; intros processed g Hbuilt; cbn [fold_left].
  - now rewrite app_nil_r.
  - replace (processed ++ e :: rest) with ((processed ++ [e]) ++ rest)
      by now rewrite <- app_assoc.
    apply IH, Hadd, Hbuilt.
Qed.

Lemma buildDependencyGraph_built entryPoints g :
  builtFrom entryPoints (buildDependencyGraph dependencyTree entryPoints g).
Proof.
  unfold buildDependencyGraph.
  apply (fold_built _ addEntryPoint_built entryPoints [] emptyGraph emptyGraph_built).
Qed.

Lemma legacyBuildDependencyGraph_built entryPoints g :
  builtFrom entryPoints (legacyBuildDependencyGraph dependencyTree entryPoints g).
Proof.
  unfold legacyBuildDependencyGraph.
  apply (fold_built _ legacyAddEntryPoint_built entryPoints [] emptyGraph emptyGraph_built).
Qed.

Lemma builtFrom_transposed processed g a b :
  builtFrom processed g -> b ∈ forwardSet g a <-> a ∈ reverseSet g b.
Proof.
  intros [Hfwd Hrev]. rewrite Hrev. unfold forwardSet, getSet. rewrite Hfwd.
  destruct (decide (a ∈ processed)) as [Hin | Hnin].
  - destruct (dependencyTree a) as [t |]; cbn.
    + split; [intros Hb; split; [assumption | now exists t] |].
      intros [_ (t' & [= <-] & Hb)]. exact Hb.
    + split; [set_solver |]. intros [_ (t' & [=] & _)].
  - cbn. split; [set_solver | tauto].
Qed.

(** C5.  After every build or rebuild of the dependency graph, from any
    earlier state of the watcher, the reverse map is the exact transpose of
    the forward map: [b] is in the forward set of [a] exactly when [a] is in
    the reverse set of [b]. *)
Theorem reverse_is_transpose_of_forward (entryPoints : list string) (before : Graph) :
  (forall a b,
      b ∈ forwardSet (buildDependencyGraph dependencyTree entryPoints before) a
      <-> a ∈ reverseSet (buildDependencyGraph dependencyTree entryPoints before) b)
  /\ (forall a b,
      b ∈ forwardSet (legacyBuildDependencyGraph dependencyTree entryPoints before) a
      <-> a ∈ reverseSet (legacyBuildDependencyGraph dependencyTree entryPoints before) b).
Proof.
  split; intros a b.
  - exact (builtFrom_transposed _ _ a b (buildDependencyGraph_built entryPoints before)).
  - exact (builtFrom_transposed _ _ a b
             (legacyBuildDependencyGraph_built entryPoints before)).
Qed.

End Build.

(** ** The traversal of the reverse map *)

Section Affected.
Variable entryPointDir : string.
Variable reverse : FileMap.

Abbreviation edge := (dependentOf reverse).
Abbreviation isEntry := (isEntryPoint entryPointDir).
Abbreviation find := (findAffected entryPointDir reverse).

Lemma edge_in_nodes x y : edge x y -> y ∈ graphNodes reverse.
Proof.
  unfold dependentOf, getSet, graphNodes. intros Hy.
  destruct (reverse !! x) as [ds |] eqn:Hx; cbn in Hy; [| set_solver].
  apply elem_of_union. right. apply elem_of_union_list. exists ds. split; [| assumption].
  apply list_elem_of_fmap. exists (x, ds). split; [reflexivity |].
  now apply elem_of_map_to_list.
Qed.

Section Post.
(** [from x]: the traversal may reach [x]. *)
Variable from : string -> Prop.
Hypothesis from_closed : forall x y, from x -> edge x y -> from y.
(** A finite set of files that contains every file the traversal can see. *)
Variable universe : gset string.
Hypothesis universe_closed : forall x y, edge x y -> y ∈ universe.

(** What a call of [findAffected] adds to the two sets. *)
Record dfsPost (st st' : gset string * gset string) : Prop := MkPost {
  post_visited : fst st ⊆ fst st';
  post_affected : snd st ⊆ snd st';
  post_closed : forall x y,
      x ∈ fst st' -> x ∉ fst st -> edge x y ->
      y ∈ fst st' /\ (isEntry y = true -> y ∈ snd st');
  post_sound_visited : forall x, x ∈ fst st' -> x ∉ fst st -> from x;
  post_sound_affected : forall y,
      y ∈ snd st' -> y ∉ snd st ->
      isEntry y = true /\ exists x, from x /\ edge x y;
}.

Lemma dfsPost_same st st' : fst st' = fst st -> snd st' = snd st -> dfsPost st st'.
Proof. intros Hv Ha. split; rewrite ?Hv, ?Ha; try set_solver. Qed.

Lemma dfsPost_refl st : dfsPost st st.
Proof. now apply dfsPost_same. Qed.

Lemma dfsPost_trans st1 st2 st3 : dfsPost st1 st2 -> dfsPost st2 st3 -> dfsPost st1 st3.
Proof.
  intros [V12 A12 C12 SV12 SA12] [V23 A23 C23 SV23 SA23]. split.
  - set_solver.
  - set_solver.
  - intros x y Hx Hnx Hedge.
    destruct (decide (x ∈ fst st2)) as [Hin | Hnin].
    + destruct (C12 x y Hin Hnx Hedge) as [Hy Hentry]. split; [set_solver |].
      intros He. specialize (Hentry He). set_solver.
    + exact (C23 x y Hx Hnin Hedge).
  - intros x Hx Hnx. destruct (decide (x ∈ fst st2)); eauto.
  - intros y Hy Hny. destruct (decide (y ∈ snd st2)); eauto.
Qed.

Lemma dfsPost_mark st x d :
  from x -> edge x d ->
  dfsPost st (fst st, if isEntry d then {[d]} ∪ snd st else snd st).
Proof.
  intros Hx Hedge. destruct (isEntry d) eqn:Hd; [| now apply dfsPost_same].
  split; cbn [fst snd]; set_solver.
Qed.

Lemma size_after_visit file (visited : gset string) :
  file ∈ universe -> file ∉ visited ->
  size (universe ∖ ({[file]} ∪ visited)) < size (universe ∖ visited).
Proof. intros Hin Hnin. apply subset_size. set_solver. Qed.

Lemma size_monotone (visited visited' : gset string) :
  visited ⊆ visited' -> size (universe ∖ visited') <= size (universe ∖ visited).
Proof. intros Hsub. apply subseteq_size. set_solver. Qed.

Lemma fold_dependents fuel file :
  (forall d st, from d -> d ∈ universe -> size (universe ∖ fst st) < fuel ->
                dfsPost st (find fuel d st) /\ d ∈ fst (find fuel d st)) ->
  from file ->
  forall dependents st,
    (forall d, d ∈ dependents -> edge file d) ->
    size (universe ∖ fst st) < fuel ->
    let st' := fold_left
                 (fun st dependent =>
                    find fuel dependent
                      (fst st, if isEntry dependent then {[dependent]} ∪ snd st
                               else snd st))
                 dependents st in
    dfsPost st st'
    /\ forall d, d ∈ dependents -> d ∈ fst st' /\ (isEntry d = true -> d ∈ snd st').
Proof.
  intros IH Hfile dependents.
  induction dependents as [| d rest IHrest]; intros st Hedges Hsize; cbn [fold_left].
  - split; [apply dfsPost_refl |]. intros d Hd. inversion Hd.
  - assert (Hedge : edge file d) by (apply Hedges; now left).
    pose proof (dfsPost_mark st file d Hfile Hedge) as Hmark.
    set (marked := (fst st, if isEntry d then {[d]} ∪ snd st else snd st)) in *.
    destruct (IH d marked (from_closed _ _ Hfile Hedge) (universe_closed _ _ Hedge) Hsize)
      as [Hcall Hvisited].
    assert (Hsize' : size (universe ∖ fst (find fuel d marked)) < fuel).
    { pose proof (size_monotone (fst st) (fst (find fuel d marked))
                    (post_visited _ _ Hcall)). lia. }
    destruct (IHrest (find fuel d marked)
                (fun d' Hd' => Hedges d' (list_elem_of_further _ _ _ Hd')) Hsize')
      as [Hrest Hall].
    split.
    + eapply dfsPost_trans; [exact Hmark |]. eapply dfsPost_trans; eassumption.
    + intros d' [-> | Hd']%elem_of_cons; [| now apply Hall].
      split.
      * apply (post_visited _ _ Hrest). exact Hvisited.
      * intros Hentry. apply (post_affected _ _ Hrest), (post_affected _ _ Hcall).
        subst marked. cbn [snd]. rewrite Hentry. set_solver.
Qed.

Lemma findAffected_post fuel :
  forall file st,
    from file -> file ∈ universe -> size (universe ∖ fst st) < fuel ->
    dfsPost st (find fuel file st) /\ file ∈ fst (find fuel file st).
Proof.
  induction fuel as [| fuel IH]; intros file st Hfile Hin Hsize; [lia |].
  cbn [findAffected].
  destruct (decide (file ∈ fst st)) as [Hseen | Hnew].
  - split; [apply dfsPost_refl | assumption].
  - pose proof (size_after_visit file (fst st) Hin Hnew) as Hless.
    destruct (reverse !! file) as [dependents |] eqn:Hlookup.
    + destruct (fold_dependents fuel file IH Hfile (elements dependents)
                  ({[file]} ∪ fst st, snd st)) as [Hpost Hall].
      * intros d Hd. apply elem_of_elements in Hd.
        unfold dependentOf, getSet. now rewrite Hlookup.
      * cbn [fst]. lia.
      * cbn [fst snd] in *. destruct Hpost as [V A C SV SA]. cbn [fst snd] in *.
        split; [split |]; cbn [fst snd].
        -- set_solver.
        -- exact A.
        -- intros x y Hx Hnx Hedge.
           destruct (decide (x = file)) as [-> | Hne].
           ++ apply Hall, elem_of_elements.
              unfold dependentOf, getSet in Hedge. now rewrite Hlookup in Hedge.
           ++ apply (C x y Hx); [set_solver | exact Hedge].
        -- intros x Hx Hnx. destruct (decide (x = file)) as [-> | Hne]; [assumption |].
           apply SV; [assumption | set_solver].
        -- exact SA.
        -- set_solver.
    + split; [split |]; cbn [fst snd]; try set_solver.
      intros x y Hx Hnx Hedge. assert (x = file) as -> by set_solver.
      unfold dependentOf, getSet in Hedge. rewrite Hlookup in Hedge. set_solver.
Qed.

End Post.

Lemma tc_last (changedFile target : string) :
  tc edge changedFile target ->
  exists x, rtc edge changedFile x /\ edge x target.
Proof.
  intros Htc. induction Htc as [x y Hxy | x y z Hxy _ (w & Hyw & Hwz)].
  - exists x. split; [apply rtc_refl | assumption].
  - exists w. split; [eapply rtc_l; eassumption | assumption].
Qed.

(** [getAffectedEntryPoints] returns exactly the entry points that can be
    reached from the changed file along the reverse map. *)
Lemma getAffectedEntryPoints_spec changedFile entryPoint :
  entryPoint ∈ getAffectedEntryPoints entryPointDir reverse changedFile
  <-> isEntry entryPoint = true /\ tc edge changedFile entryPoint.
Proof.
  unfold getAffectedEntryPoints.
  set (universe := {[changedFile]} ∪ graphNodes reverse).
  destruct (findAffected_post (rtc edge changedFile)
              (fun x y Hx Hxy => rtc_r _ _ _ Hx Hxy)
              universe
              (fun x y Hxy => elem_of_union_r _ _ _ (edge_in_nodes x y Hxy))
              (S (size universe)) changedFile (∅, ∅))
    as [[_ _ Hclosed _ Hsound] Hroot].
  - apply rtc_refl.
  - subst universe. set_solver.
  - cbn [fst].
    pose proof (subseteq_size (universe ∖ ∅) universe ltac:(set_solver)). lia.
  - cbn [fst snd] in *. split.
    + intros Hin. destruct (Hsound entryPoint Hin ltac:(set_solver))
        as [Hentry (x & Hx & Hedge)].
      split; [assumption |]. eapply tc_rtc_l; [exact Hx | now apply tc_once].
    + intros [Hentry Htc]. apply tc_last in Htc as (x & Hx & Hedge).
      assert (Hvisited : x ∈ fst (find (S (size universe)) changedFile (∅, ∅))).
      { clear Hedge. revert x Hx. apply rtc_ind_r; [exact Hroot |].
        intros y z _ Hyz IHy. apply (Hclosed y z IHy ltac:(set_solver) Hyz). }
      now apply (Hclosed x entryPoint Hvisited ltac:(set_solver) Hedge).
Qed.

End Affected.

(** ** Handling a change to a dependency *)





Section Handle.
Context {P : Path.Api}.
Variable glob : string -> string -> list string.
Variable config : RenderConfig.




(** ** Successive notifications *)

Lemma notifyTimes_batches s action filePath files rebuild n :
  handleFileChange glob config (graph s) action filePath = Batch files rebuild ->
  notifyTimes glob config n s action filePath
  = MkWatcher (graph s) (running s ++ repeat (files, rebuild) n).
Proof.
  revert s. induction n as [| n IH]; intros s Hreact; cbn [notifyTimes repeat].
  - rewrite app_nil_r. now destruct s.
  - rewrite IH; unfold notify; rewrite Hreact; cbn [graph running]; [| assumption].
    now rewrite <- app_assoc.
Qed.

Lemma runningRenders_repeat g files rebuild n entryPoint :
  Str.member entryPoint files = true ->
  runningRenders (MkWatcher g (repeat (files, rebuild) n)) entryPoint = n.
Proof.
  intros Hin. unfold runningRenders. cbn [running].
  induction n as [| n IH]; [reflexivity |].
  cbn [repeat List.filter fst]. rewrite Hin. cbn [length]. now rewrite IH.
Qed.

(** C7, amended.  The watcher neither debounces nor coalesces: it handles
    every notification on its own, and every notification that resolves to a
    non-empty batch starts that batch at once; so [n] successive
    notifications for one path leave [n] more batches running, each
    rendering the same entry points, and the graph unchanged. *)
Theorem every_notification_starts_its_own_batch
  (s : WatcherState) (action : WatcherEventType) (filePath : string)
  (files : list string) (rebuild : bool) (n : nat) :
  handleFileChange glob config (graph s) action filePath = Batch files rebuild ->
  notifyTimes glob config n s action filePath
  = MkWatcher (graph s) (running s ++ repeat (files, rebuild) n)
  /\ (forall entryPoint,
         running s = [] -> Str.member entryPoint files = true ->
         runningRenders (notifyTimes glob config n s action filePath) entryPoint = n).
Proof.
  intros Hreact. split.
  - now apply notifyTimes_batches.
  - intros entryPoint Hidle Hin.
    rewrite (notifyTimes_batches s action filePath files rebuild n Hreact), Hidle.
    now apply runningRenders_repeat.
Qed.

End Handle.

(** ** The sample site *)





(** Witness for C7: two notifications for the footer start two batches that
    both render [home.tsx]. *)
Lemma every_notification_starts_its_own_batch_witness :
  handleFileChange (P:=Path.posix) Examples.noGlob Examples.config
    Examples.sampleGraph EvChange Examples.footer
  = Batch ["about.tsx"; "home.tsx"] true
  /\ runningRenders
       (notifyTimes (P:=Path.posix) Examples.noGlob Examples.config 2
          (MkWatcher Examples.sampleGraph []) EvChange Examples.footer)
       "home.tsx" = 2.
Proof.
  assert (Hreact : handleFileChange (P:=Path.posix) Examples.noGlob Examples.config
                     Examples.sampleGraph EvChange Examples.footer
                   = Batch ["about.tsx"; "home.tsx"] true)
    by (vm_compute; reflexivity).
  split; [exact Hreact |].
  exact (proj2 (every_notification_starts_its_own_batch (P:=Path.posix)
                  Examples.noGlob Examples.config (MkWatcher Examples.sampleGraph [])
                  EvChange Examples.footer ["about.tsx"; "home.tsx"] true 2 Hreact)
           "home.tsx" eq_refl eq_refl).
Defined.

(** Counterexample to C7 as stated: after two notifications for the footer,
    [home.tsx] is being rendered by two batches at once. *)
Lemma notifications_are_not_coalesced : ~ notificationsAreCoalesced.
Proof.
  intros Hclaim.
  pose proof (Hclaim Path.posix Examples.noGlob Examples.config Examples.sampleGraph
                EvChange Examples.footer 2 "home.tsx") as Hle.
  assert (Htwo : runningRenders
                   (notifyTimes (P:=Path.posix) Examples.noGlob Examples.config 2
                      (MkWatcher Examples.sampleGraph []) EvChange Examples.footer)
                   "home.tsx" = 2) by (vm_compute; reflexivity).
  rewrite Htwo in Hle. lia.
Qed.

End WatcherFacts.

(* ===================================================================== *)
(** * Properties of the regular expressions *)
(* ===================================================================== *)

Module RegExpFacts.
Import RegExp StrFacts.

Lemma consMatch_some c r m rest :
  consMatch c r = Some (m, rest) -> exists m', r = Some (m', rest) /\ m = String c m'.
Proof.
  destruct r as [[m' rest'] |]; cbn; [| discriminate].
  intros [= <- <-]. now exists m'.
Qed.

(** ** The matcher finds only matches *)

Lemma star_sound accept greedy k s m rest :
  star accept greedy k s = Some (m, rest) ->
  exists run m' s',
    m = run +:+ m' /\ s = run +:+ s'
    /\ allAccepted accept run = true /\ k s' = Some (m', rest).
Proof.
  revert m. induction s as [| c s IH]; intros m; destruct greedy; cbn [star].
  - intros Hk. now exists EmptyString, m, EmptyString.
  - destruct (k EmptyString) as [[m0 r0] |] eqn:Hk; [| discriminate].
    intros [= <- <-]. now exists EmptyString, m0, EmptyString.
  - destruct (accept c) eqn:Hc.
    + destruct (star accept true k s) as [[m1 r1] |] eqn:Hstar.
      * intros [= <- <-]. destruct (IH m1 eq_refl) as (run & m' & s' & -> & -> & Hrun & Hk).
        exists (String c run), m', s'. rewrite !append_cons. cbn. now rewrite Hc.
      * intros Hk. now exists EmptyString, m, (String c s).
    + intros Hk. now exists EmptyString, m, (String c s).
  - destruct (k (String c s)) as [[m0 r0] |] eqn:Hk.
    + intros [= <- <-]. now exists EmptyString, m0, (String c s).
    + destruct (accept c) eqn:Hc; [| discriminate].
      intros Hcons. apply consMatch_some in Hcons as (m1 & Hstar & ->).
      destruct (IH m1 Hstar) as (run & m' & s' & -> & -> & Hrun & Hk').
      exists (String c run), m', s'. rewrite !append_cons. cbn. now rewrite Hc.
Qed.

Lemma matchAtoms_sound fl atoms :
  forall s m rest,
    matchAtoms fl atoms s = Some (m, rest) -> s = m +:+ rest /\ Matches fl atoms m.
Proof.
  induction atoms as [| [cs q] atoms IH]; intros s m rest; cbn [matchAtoms chars quant].
  - intros [= <- <-]. split; [reflexivity | constructor].
  - destruct q as [| greedy | greedy | greedy].
    + destruct s as [| c s]; [discriminate |].
      destruct (accepts fl cs c) eqn:Hc; [| discriminate].
      intros Hcons. apply consMatch_some in Hcons as (m' & Hk & ->).
      apply IH in Hk as [-> Hm]. split; [reflexivity | now constructor].
    + intros Hstar. apply star_sound in Hstar as (run & m' & s' & -> & -> & Hrun & Hk).
      apply IH in Hk as [-> Hm]. split; [now rewrite append_assoc | now constructor].
    + destruct s as [| c s]; [discriminate |].
      destruct (accepts fl cs c) eqn:Hc; [| discriminate].
      intros Hcons. apply consMatch_some in Hcons as (m1 & Hstar & ->).
      apply star_sound in Hstar as (run & m' & s' & -> & -> & Hrun & Hk).
      apply IH in Hk as [-> Hm].
      split; [now rewrite append_cons, append_assoc | now constructor].
    + assert (Hskip : matchAtoms fl atoms s = Some (m, rest) ->
                      s = m +:+ rest /\ Matches fl ({| chars := cs; quant := Opt greedy |} :: atoms) m).
      { intros Hk. apply IH in Hk as [-> Hm]. split; [reflexivity | now constructor]. }
      assert (Htake : forall c s' m',
                 s = String c s' -> accepts fl cs c = true ->
                 matchAtoms fl atoms s' = Some (m', rest) -> m = String c m' ->
                 s = m +:+ rest /\ Matches fl ({| chars := cs; quant := Opt greedy |} :: atoms) m).
      { intros c s' m' -> Hc Hk ->. apply IH in Hk as [-> Hm].
        split; [reflexivity | now constructor]. }
      destruct greedy.
      * destruct s as [| c s]; [exact Hskip |].
        destruct (accepts fl cs c) eqn:Hc; [| exact Hskip].
        destruct (matchAtoms fl atoms s) as [[m1 r1] |] eqn:Hk; [| exact Hskip].
        intros [= <- <-]. now apply (Htake c s m1).
      * destruct (matchAtoms fl atoms s) as [[m0 r0] |] eqn:Hk0.
        -- intros [= <- <-]. now apply Hskip.
        -- destruct s as [| c s]; [discriminate |].
           destruct (accepts fl cs c) eqn:Hc; [| discriminate].
           intros Hcons. apply consMatch_some in Hcons as (m1 & Hk & ->).
           now apply (Htake c s m1).
Qed.

Lemma search_sound fl atoms :
  forall s before m rest,
    search fl atoms s = Some (before, m, rest) ->
    s = before +:+ m +:+ rest /\ Matches fl atoms m.
Proof.
  induction s as [| c s IH]; intros before m rest; cbn [search].
  - destruct (matchAtoms fl atoms EmptyString) as [[m0 r0] |] eqn:Hm; [| discriminate].
    intros [= <- <- <-]. now apply matchAtoms_sound in Hm.
  - destruct (matchAtoms fl atoms (String c s)) as [[m0 r0] |] eqn:Hm.
    + intros [= <- <- <-]. now apply matchAtoms_sound in Hm.
    + destruct (search fl atoms s) as [[[b1 m1] r1] |] eqn:Hs; [| discriminate].
      intros [= <- <- <-]. destruct (IH b1 m1 r1 eq_refl) as [-> HM].
      split; [reflexivity | assumption].
Qed.

(** ** The matcher finds a match whenever there is one *)

Lemma star_continue accept greedy k s x :
  k s = Some x -> exists y, star accept greedy k s = Some y.
Proof.
  intros Hk. destruct greedy, s as [| c s]; cbn [star]; rewrite ?Hk; eauto.
  destruct (accept c); [| eauto].
  destruct (star accept true k s) as [[m r] |]; eauto.
Qed.

Lemma star_complete accept greedy k run s x :
  allAccepted accept run = true -> k s = Some x ->
  exists y, star accept greedy k (run +:+ s) = Some y.
Proof.
  intros Hrun Hk. induction run as [| c run IH].
  - rewrite append_empty. eapply star_continue. exact Hk.
  - cbn in Hrun. apply andb_prop in Hrun as [Hc Hrun].
    destruct (IH Hrun) as [[m r] Hy].
    rewrite append_cons. destruct greedy; cbn [star]; rewrite Hc, Hy.
    + eauto.
    + destruct (k (String c (run +:+ s))); cbn; eauto.
Qed.

Lemma matchAtoms_complete fl atoms m :
  Matches fl atoms m ->
  forall rest, exists y, matchAtoms fl atoms (m +:+ rest) = Some y.
Proof.
  induction 1 as [| cs atoms c m Hc _ IH | cs greedy atoms run m Hrun _ IH
                  | cs greedy atoms c run m Hc Hrun _ IH
                  | cs greedy atoms c m Hc _ IH | cs greedy atoms m _ IH];
    intros rest; cbn [matchAtoms chars quant].
  - eauto.
  - rewrite append_cons, Hc. destruct (IH rest) as [[m' r'] ->]. cbn. eauto.
  - rewrite append_assoc. destruct (IH rest) as [y Hy].
    eapply star_complete; eassumption.
  - rewrite append_cons, Hc, append_assoc. destruct (IH rest) as [y Hy].
    destruct (star_complete (accepts fl cs) greedy (matchAtoms fl atoms) run
                (m +:+ rest) y Hrun Hy) as [[m' r'] ->].
    cbn. eauto.
  - rewrite append_cons, Hc. destruct (IH rest) as [[m' r'] ->].
    destruct greedy; [eauto |].
    destruct (matchAtoms fl atoms (String c (m +:+ rest))); cbn; eauto.
  - destruct (IH rest) as [y Hy]. destruct greedy.
    + destruct (m +:+ rest) as [| c s] eqn:Hs; [eauto |].
      destruct (accepts fl cs c); [| eauto].
      destruct (matchAtoms fl atoms s) as [[m1 r1] |]; eauto.
    + rewrite Hy. eauto.
Qed.

Lemma search_complete fl atoms before m rest :
  Matches fl atoms m ->
  exists y, search fl atoms (before +:+ m +:+ rest) = Some y.
Proof.
  intros HM. induction before as [| c before IH].
  - rewrite append_empty. destruct (matchAtoms_complete fl atoms m HM rest) as [[m' r'] Hy].
    destruct (m +:+ rest); cbn [search]; rewrite Hy; eauto.
  - rewrite append_cons. cbn [search].
    destruct (matchAtoms fl atoms (String c (before +:+ m +:+ rest))) as [[m' r'] |];
      [eauto |].
    destruct IH as [[[b1 m1] r1] ->]. eauto.
Qed.

(** [test] holds exactly when some part of the text matches the atoms. *)
Lemma test_spec re s :
  anchored re = false ->
  test re s = true
  <-> exists before m rest,
        s = before +:+ m +:+ rest /\ Matches (flags re) (atoms re) m.
Proof.
  intros Hfree. unfold test, exec. rewrite Hfree. split.
  - destruct (search (flags re) (atoms re) s) as [[[b m] r] |] eqn:Hs; [| discriminate].
    intros _. apply search_sound in Hs. now exists b, m, r.
  - intros (b & m & r & -> & HM).
    now destruct (search_complete (flags re) (atoms re) b m r HM) as [y ->].
Qed.

End RegExpFacts.

(* ===================================================================== *)
(** * Properties of the template-merge engines *)
(* ===================================================================== *)

Module EnginesFacts.
Import Js RegExp Engines StrFacts RegExpFacts.

Abbreviation ci := (MkFlags true true).

(** ** Compiling the pattern *)

Lemma parseFrom_app st a b :
  parseFrom st (a +:+ b)
  = match parseFrom st a with
    | Parsed st' => parseFrom st' b
    | SyntaxError msg => SyntaxError msg
    | Unmodelled => Unmodelled
    end.
Proof.
  revert st. induction a as [| c a IH]; intros st; [reflexivity |].
  rewrite append_cons. cbn [parseFrom]. destruct (parseStep st c); auto.
Qed.

Lemma escapeRegex_cons c s :
  escapeRegex (String c s) = escapeRegex (Str.chr c) +:+ escapeRegex s.
Proof.
  unfold escapeRegex, Str.chr. cbn [replaceEach].
  destruct (matchAtoms _ _ _) as [[m [| ? ?]] |].
  - now rewrite append_nil_r.
  - reflexivity.
  - reflexivity.
Qed.

(** An escaped character is read back as that character, whatever it is. *)
Lemma parse_escaped_char c p l sc :
  parseFrom (MkParse p l Top sc) (escapeRegex (Str.chr c))
  = Parsed (MkParse (MkAtom (CsChar c) One :: p) Plain Top sc).
Proof.
  destruct c as [[] [] [] [] [] [] [] []]; vm_compute; reflexivity.
Qed.

Lemma parse_escaped id : forall p l sc,
  exists l',
    parseFrom (MkParse p l Top sc) (escapeRegex id)
    = Parsed (MkParse (rev (literalAtoms id) ++ p) l' Top sc).
Proof.
  induction id as [| c id IH]; intros p l sc.
  - now exists l.
  - rewrite escapeRegex_cons, parseFrom_app, parse_escaped_char.
    destruct (IH (MkAtom (CsChar c) One :: p) Plain sc) as [l' ->].
    exists l'. unfold literalAtoms. cbn [list_ascii_of_string map rev].
    now rewrite <- app_assoc.
Qed.

(** The pattern of the root element compiles, for every id, to the atoms
    that spell the id out. *)
Lemma divPattern_compiles id : newRegExp (divPattern id) "is" = Parsed (rootDivRegex id).
Proof.
  unfold newRegExp, divPattern.
  change (parseFlags (MkFlags false false) "is") with (Parsed ci).
  cbv beta iota.
  rewrite parseFrom_app.
  match goal with |- context [parseFrom ?st "<div\s+id="] =>
    let r := eval vm_compute in (parseFrom st "<div\s+id=") in
    change (parseFrom st "<div\s+id=") with r end.
  cbv beta iota. rewrite parseFrom_app.
  match goal with |- context [parseFrom ?st quoteClass] =>
    let r := eval vm_compute in (parseFrom st quoteClass) in
    change (parseFrom st quoteClass) with r end.
  cbv beta iota. rewrite parseFrom_app.
  match goal with |- context [parseFrom (MkParse ?p ?l Top ?sc) (escapeRegex id)] =>
    destruct (parse_escaped id p l sc) as [l' ->] end.
  cbv beta iota.
  lazy -[rev app literalAtoms].
  cbn [rev app]. rewrite rev_app_distr, rev_involutive. cbn [rev app].
  rewrite <- !app_assoc. reflexivity.
Qed.

(** ** What the compiled pattern matches *)

Lemma Matches_nil_inv fl m : Matches fl [] m -> m = EmptyString.
Proof. now inversion 1. Qed.

Lemma Matches_one_inv fl cs rest m :
  Matches fl (MkAtom cs One :: rest) m ->
  exists c m', m = String c m' /\ accepts fl cs c = true /\ Matches fl rest m'.
Proof. inversion 1; subst; eauto. Qed.

Lemma Matches_star_inv fl cs greedy rest m :
  Matches fl (MkAtom cs (Star greedy) :: rest) m ->
  exists run m',
    m = run +:+ m' /\ allAccepted (accepts fl cs) run = true /\ Matches fl rest m'.
Proof. inversion 1; subst; eauto. Qed.

Lemma Matches_plus_inv fl cs greedy rest m :
  Matches fl (MkAtom cs (Plus greedy) :: rest) m ->
  exists c run m',
    m = String c (run +:+ m') /\ accepts fl cs c = true
    /\ allAccepted (accepts fl cs) run = true /\ Matches fl rest m'.
Proof. inversion 1; subst; eauto 8. Qed.

Lemma allAccepted_ext f g s :
  (forall c, f c = g c) -> allAccepted f s = allAccepted g s.
Proof.
  intros Hfg. induction s as [| c s IH]; [reflexivity |].
  cbn [allAccepted]. now rewrite Hfg, IH.
Qed.

Lemma accepts_quote d c : accepts (MkFlags true d) quoteSet c = isQuote c.
Proof. destruct c as [[] [] [] [] [] [] [] []]; reflexivity. Qed.

Lemma accepts_notClosing d c : accepts (MkFlags true d) notClosing c = notGt c.
Proof. destruct c as [[] [] [] [] [] [] [] []]; reflexivity. Qed.

Lemma accepts_gt d c : accepts (MkFlags true d) (CsChar ">") c = true <-> c = ">"%char.
Proof.
  split; [| intros ->; reflexivity].
  destruct c as [[] [] [] [] [] [] [] []]; vm_compute; congruence.
Qed.

Lemma accepts_any c : accepts ci CsAny c = true.
Proof. reflexivity. Qed.

Lemma allAccepted_any s : allAccepted (accepts ci CsAny) s = true.
Proof. induction s; [reflexivity | assumption]. Qed.

(** Literal atoms match the texts that are equal up to letter case. *)
Lemma Matches_literal d text rest m :
  Matches (MkFlags true d) (literalAtoms text ++ rest) m
  <-> exists m1 m2,
        m = m1 +:+ m2 /\ sameText text m1 = true /\ Matches (MkFlags true d) rest m2.
Proof.
  revert m. induction text as [| c text IH]; intros m.
  - split.
    + intros HM. now exists EmptyString, m.
    + intros (m1 & m2 & -> & Hsame & HM). now destruct m1.
  - change (literalAtoms (String c text) ++ rest)
      with (MkAtom (CsChar c) One :: (literalAtoms text ++ rest)).
    split.
    + intros HM. apply Matches_one_inv in HM as (x & m' & -> & Hx & HM).
      apply IH in HM as (m1 & m2 & -> & Hsame & HM).
      exists (String x m1), m2. repeat split; [| assumption].
      cbn [sameText]. cbn in Hx. now rewrite Hx, Hsame.
    + intros (m1 & m2 & -> & Hsame & HM).
      destruct m1 as [| x m1]; [discriminate |].
      cbn [sameText] in Hsame. apply andb_true_iff in Hsame as [Hx Hsame].
      rewrite append_cons. constructor; [exact Hx |].
      apply IH. now exists m1, m2.
Qed.

Lemma Matches_literal_only d text m :
  Matches (MkFlags true d) (literalAtoms text) m <-> sameText text m = true.
Proof.
  rewrite <- (app_nil_r (literalAtoms text)), Matches_literal. split.
  - intros (m1 & m2 & -> & Hsame & HM). apply Matches_nil_inv in HM as ->.
    now rewrite append_nil_r.
  - intros Hsame. exists m, EmptyString. rewrite append_nil_r.
    repeat split; [assumption | constructor].
Qed.

(** The compiled pattern matches exactly the texts spelled like a root
    element with the id, up to letter case. *)
Lemma rootDiv_matches id m : Matches ci (rootDivAtoms id) m <-> RootDiv sameText id m.
Proof.
  unfold rootDivAtoms. split.
  - intros HM.
    apply Matches_literal in HM as (tag & m1 & -> & Htag & HM).
    apply Matches_plus_inv in HM as (s & run & m2 & -> & Hs & Hrun & HM).
    apply Matches_literal in HM as (attr & m3 & -> & Hattr & HM).
    apply Matches_one_inv in HM as (q1 & m4 & -> & Hq1 & HM).
    apply Matches_literal in HM as (idText & m5 & -> & Hid & HM).
    apply Matches_one_inv in HM as (q2 & m6 & -> & Hq2 & HM).
    apply Matches_star_inv in HM as (attrs & m7 & -> & Hattrs & HM).
    apply Matches_one_inv in HM as (gt & m8 & -> & Hgt & HM).
    apply Matches_star_inv in HM as (body & closing & -> & _ & HM).
    apply Matches_literal_only in HM.
    apply accepts_gt in Hgt as ->.
    rewrite accepts_quote in Hq1, Hq2.
    rewrite (allAccepted_ext _ notGt) in Hattrs by apply accepts_notClosing.
    exists tag, (String s run), attr, q1, idText, q2, attrs, body, closing.
    repeat split; try assumption.
    + discriminate.
    + cbn [allAccepted]. cbn in Hs. now rewrite Hs.
  - intros (tag & space & attr & q1 & idText & q2 & attrs & body & closing
            & -> & Htag & Hne & Hspace & Hattr & Hq1 & Hid & Hq2 & Hattrs & Hclosing).
    destruct space as [| s run]; [contradiction |].
    cbn [allAccepted] in Hspace. apply andb_true_iff in Hspace as [Hs Hrun].
    apply Matches_literal. eexists tag, _. split; [reflexivity |]. split; [assumption |].
    rewrite append_cons. apply MatchesPlus; [exact Hs | exact Hrun |].
    apply Matches_literal. eexists attr, _. split; [reflexivity |]. split; [assumption |].
    rewrite append_cons. apply MatchesOne; [now rewrite accepts_quote |].
    apply Matches_literal. eexists idText, _. split; [reflexivity |]. split; [assumption |].
    rewrite append_cons. apply MatchesOne; [now rewrite accepts_quote |].
    apply MatchesStar.
    { now rewrite (allAccepted_ext _ notGt) by apply accepts_notClosing. }
    rewrite append_cons. apply MatchesOne; [reflexivity |].
    apply MatchesStar; [apply allAccepted_any |].
    now apply Matches_literal_only.
Qed.

(** [test] on the compiled pattern decides whether the template contains a
    root element with the id. *)
Lemma test_rootDiv id template :
  test (rootDivRegex id) template = true <-> containsRootDiv sameText id template.
Proof.
  rewrite test_spec by reflexivity. unfold containsRootDiv.
  split; intros (before & m & after & Heq & HM); exists before, m, after;
    (split; [exact Heq | now apply rootDiv_matches]).
Qed.

(** ** The merge *)

Lemma replaceRootDiv_eq notFound template content styles id :
  replaceRootDiv notFound template content styles id
  = if test (rootDivRegex id) template
    then Normal (replace (rootDivRegex id) template (fillDiv styles content))
    else Throw (ThrownError (newError (notFound id))).
Proof.
  unfold replaceRootDiv, compile. rewrite divPattern_compiles. reflexivity.
Qed.

Lemma checkedMerge_eq notFound template content styles mount :
  template <> EmptyString -> content <> EmptyString ->
  checkedMerge notFound (contextOf template content styles mount)
  = if Str.isEmpty (rootElementId mount)
    then Throw (ThrownError (newError "Mount info with rootElementId is required"))
    else replaceRootDiv notFound template content styles (rootElementId mount).
Proof.
  intros Htemplate Hcontent. unfold checkedMerge, contextOf. cbn.
  destruct template; [contradiction |]. destruct content; [contradiction |].
  reflexivity.
Qed.

Lemma openTagRegex_eq : openTagRegex = MkRegex true openTagAtoms (MkFlags true false).
Proof. vm_compute. reflexivity. Qed.

(** A text with a [>] has a first one. *)
Lemma first_closing a b :
  exists pre post,
    a +:+ String ">" b = pre +:+ String ">" post /\ allAccepted notGt pre = true.
Proof.
  induction a as [| c a (pre & post & Heq & Hpre)].
  - now exists EmptyString, b.
  - destruct (Ascii.eqb c ">") eqn:Hc.
    + apply Ascii.eqb_eq in Hc as ->. now exists EmptyString, (a +:+ String ">" b).
    + exists (String c pre), post. rewrite !append_cons, Heq. split; [reflexivity |].
      cbn [allAccepted]. unfold notGt at 1. now rewrite Hc.
Qed.

(** The opening tag of a matched root element is always found, so the
    replacer never hands the match back unchanged. *)
Lemma fillDiv_rootDiv sameId id styles content m :
  RootDiv sameId id m ->
  exists openTag inner,
    m = openTag +:+ inner
    /\ fillDiv styles content m = openTag +:+ styles +:+ content +:+ "</div>".
Proof.
  intros (tag & space & attr & q1 & idText & q2 & attrs & body & closing
          & -> & Htag & _ & _ & _ & _ & _ & _ & _ & _).
  destruct (first_closing (space +:+ attr +:+ String q1 idText +:+ String q2 attrs)
              (body +:+ closing)) as (pre & post & Heq & Hpre).
  assert (Hm : tag +:+ space +:+ attr +:+ String q1 idText +:+ String q2 attrs
               +:+ String ">" body +:+ closing
               = (tag +:+ pre +:+ ">") +:+ post).
  { transitivity (tag +:+ (pre +:+ String ">" post)).
    - rewrite <- Heq. now rewrite !append_assoc.
    - now rewrite !append_assoc. }
  assert (HM : Matches (MkFlags true false) openTagAtoms (tag +:+ pre +:+ ">")).
  { apply Matches_literal. exists tag, (pre +:+ ">"). split; [reflexivity |].
    split; [assumption |]. apply MatchesStar.
    - now rewrite (allAccepted_ext _ notGt) by apply accepts_notClosing.
    - apply MatchesOne; [reflexivity | constructor]. }
  destruct (matchAtoms_complete _ _ _ HM post) as [[openTag inner] Hopen].
  pose proof (matchAtoms_sound _ _ _ _ _ Hopen) as [Hsplit _].
  exists openTag, inner. rewrite Hm. split; [exact Hsplit |].
  unfold fillDiv, matchOf, exec. rewrite openTagRegex_eq. cbn [anchored flags atoms].
  now rewrite Hopen.
Qed.

(** A successful merge replaces the leftmost root element of the template
    by its opening tag, the styles, the content and a closing tag, and leaves
    the text around it as it is. *)
Lemma merged_output notFound template content styles id out :
  replaceRootDiv notFound template content styles id = Normal out ->
  exists before openTag inner after,
    template = before +:+ (openTag +:+ inner) +:+ after
    /\ RootDiv sameText id (openTag +:+ inner)
    /\ out = before +:+ (openTag +:+ styles +:+ content +:+ "</div>") +:+ after.
Proof.
  rewrite replaceRootDiv_eq.
  destruct (test (rootDivRegex id) template) eqn:Htest; [| discriminate].
  intros [= <-]. unfold replace, exec. cbn [anchored rootDivRegex flags atoms].
  unfold test, exec in Htest. cbn [anchored rootDivRegex flags atoms] in Htest.
  destruct (search ci (rootDivAtoms id) template) as [[[before m] after] |] eqn:Hs;
    [| discriminate].
  apply search_sound in Hs as [-> HM]. apply rootDiv_matches in HM.
  destruct (fillDiv_rootDiv _ _ styles content _ HM) as (openTag & inner & -> & ->).
  now exists before, openTag, inner, after.
Qed.

Lemma merged_includes_content notFound template content styles id out :
  replaceRootDiv notFound template content styles id = Normal out ->
  containsRootDiv sameText id template
  /\ Str.includes out (styles +:+ content) = true.
Proof.
  intros Hout.
  destruct (merged_output _ _ _ _ _ _ Hout)
    as (before & openTag & inner & after & -> & Hroot & ->).
  split; [now exists before, (openTag +:+ inner), after |].
  replace (before +:+ (openTag +:+ styles +:+ content +:+ "</div>") +:+ after)
    with ((before +:+ openTag) +:+ (styles +:+ content) +:+ ("</div>" +:+ after))
    by now rewrite !append_assoc.
  apply includes_append.
Qed.

Lemma divNotFound_names id : Str.includes (divNotFound id) id = true.
Proof.
  unfold divNotFound.
  replace ("No div with id=" +:+ Str.chr Str.dquote +:+ id +:+ Str.chr Str.dquote
           +:+ " found in template")
    with (("No div with id=" +:+ Str.chr Str.dquote) +:+ id
          +:+ (Str.chr Str.dquote +:+ " found in template"))
    by now rewrite !append_assoc.
  apply includes_append.
Qed.

Lemma htmlNotFound_names id : Str.includes (htmlNotFound id) id = true.
Proof.
  unfold htmlNotFound.
  replace ("Could not find <div id=" +:+ Str.chr Str.dquote +:+ id +:+ Str.chr Str.dquote
           +:+ "> in template")
    with (("Could not find <div id=" +:+ Str.chr Str.dquote) +:+ id
          +:+ (Str.chr Str.dquote +:+ "> in template"))
    by now rewrite !append_assoc.
  apply includes_append.
Qed.

Lemma includes_empty s : Str.includes s EmptyString = true.
Proof. destruct s; reflexivity. Qed.

(** The merge of a non-empty template and content whose template has no
    root element with the id. *)
Lemma checkedMerge_missing notFound template content styles mount :
  template <> EmptyString -> content <> EmptyString ->
  (forall id, Str.includes (notFound id) id = true) ->
  ~ containsRootDiv sameText (rootElementId mount) template ->
  exists e,
    checkedMerge notFound (contextOf template content styles mount)
    = Throw (ThrownError e)
    /\ Str.includes (message e) (rootElementId mount) = true
    /\ (rootElementId mount <> EmptyString -> e = newError (notFound (rootElementId mount))).
Proof.
  intros Htemplate Hcontent Hnames Hmissing.
  rewrite checkedMerge_eq by assumption.
  destruct (rootElementId mount) as [| c id] eqn:Hid.
  - eexists. split; [reflexivity |]. split; [reflexivity | contradiction].
  - cbn [Str.isEmpty]. rewrite replaceRootDiv_eq.
    destruct (test (rootDivRegex (String c id)) template) eqn:Htest.
    + apply test_rootDiv in Htest. contradiction.
    + eexists. split; [reflexivity |]. split; [apply Hnames | reflexivity].
Qed.

Lemma checkedMerge_normal notFound template content styles mount out :
  checkedMerge notFound (contextOf template content styles mount) = Normal out ->
  replaceRootDiv notFound template content styles (rootElementId mount) = Normal out.
Proof.
  unfold checkedMerge, contextOf. cbn.
  destruct (Str.isEmpty template); [discriminate |].
  destruct (Str.isEmpty content); [discriminate |].
  destruct (Str.isEmpty (rootElementId mount)); [discriminate | auto].
Qed.


Lemma RootDiv_spells sameId id m :
  RootDiv sameId id m ->
  exists idText before after,
    sameId id idText = true /\ m = before +:+ idText +:+ after.
Proof.
  intros (tag & space & attr & q1 & idText & q2 & attrs & body & closing
          & -> & _ & _ & _ & _ & _ & Hid & _).
  exists idText, (tag +:+ space +:+ attr +:+ Str.chr q1),
    (String q2 attrs +:+ String ">" body +:+ closing).
  split; [exact Hid |]. now rewrite !append_assoc.
Qed.

Lemma contains_exact_includes id template :
  containsRootDiv String.eqb id template -> Str.includes template id = true.
Proof.
  intros (before & m & after & -> & Hroot).
  apply RootDiv_spells in Hroot as (idText & x & y & Hid & ->).
  apply String.eqb_eq in Hid as <-.
  replace (before +:+ (x +:+ id +:+ y) +:+ after)
    with ((before +:+ x) +:+ id +:+ (y +:+ after)) by now rewrite !append_assoc.
  apply includes_append.
Qed.

(** ** The claims about the merge *)

(** C8 (amended).  For a non-empty template and non-empty rendered content,
    a merge whose template contains no root element for the id of the mount
    info throws an error whose message contains that id (for a non-empty id,
    the not-found error of the engine), and a merge that returns has found
    such an element and returns a text that contains the styles followed by
    the content: it never hands the template back with the content left
    out.  A root element is a piece of the template text as [RootDiv]
    describes it, a [div] that starts with the quoted id as its [id]
    attribute and runs up to a closing tag, with tag, attribute name and id
    compared up to letter case. *)
Theorem missing_root_div_fails_the_merge template content styles mount :
  template <> EmptyString -> content <> EmptyString ->
  (~ containsRootDiv sameText (rootElementId mount) template ->
   (exists e,
       mergeLiquidTemplate (contextOf template content styles mount)
       = Throw (ThrownError e)
       /\ Str.includes (message e) (rootElementId mount) = true
       /\ (rootElementId mount <> EmptyString ->
           e = newError (divNotFound (rootElementId mount))))
   /\ (exists e,
          mergeHTMLTemplate (contextOf template content styles mount)
          = Throw (ThrownError e)
          /\ Str.includes (message e) (rootElementId mount) = true
          /\ (rootElementId mount <> EmptyString ->
              e = newError (htmlNotFound (rootElementId mount)))))
  /\ (forall out,
         mergeLiquidTemplate (contextOf template content styles mount) = Normal out
         \/ mergeHTMLTemplate (contextOf template content styles mount) = Normal out ->
         containsRootDiv sameText (rootElementId mount) template
         /\ Str.includes out (styles +:+ content) = true).
Proof.
  intros Htemplate Hcontent. split.
  - intros Hmissing. split.
    + exact (checkedMerge_missing divNotFound _ _ styles mount Htemplate Hcontent
               divNotFound_names Hmissing).
    + exact (checkedMerge_missing htmlNotFound _ _ styles mount Htemplate Hcontent
               htmlNotFound_names Hmissing).
  - intros out [Hout | Hout]; apply checkedMerge_normal in Hout;
      exact (merged_includes_content _ _ _ _ _ _ Hout).
Qed.


Lemma bareTemplate_has_no_root :
  ~ containsRootDiv sameText "root" Examples.bareTemplate.
Proof.
  intros Hroot. apply test_rootDiv in Hroot.
  assert (Hno : test (rootDivRegex "root") Examples.bareTemplate = false)
    by (vm_compute; reflexivity).
  rewrite Hno in Hroot. discriminate.
Qed.

(** Witness for C8: a template without root element and a rendered heading. *)
Lemma missing_root_div_fails_the_merge_witness :
  exists e,
    mergeLiquidTemplate (contextOf Examples.bareTemplate "<h1>Hi</h1>" EmptyString
                           Examples.rootMount)
    = Throw (ThrownError e)
    /\ Str.includes (message e) "root" = true.
Proof.
  destruct (proj1 (proj1 (missing_root_div_fails_the_merge
                            Examples.bareTemplate "<h1>Hi</h1>" EmptyString
                            Examples.rootMount ltac:(discriminate) ltac:(discriminate))
                     bareTemplate_has_no_root))
    as (e & Hthrow & Hnames & _).
  exists e. split; [exact Hthrow | exact Hnames].
Defined.

(** A template whose only div has the id [root] has no div with the id
    [Root]. *)
Lemma pageTemplate_has_no_capital_root :
  ~ containsRootDiv String.eqb "Root" Examples.pageTemplate.
Proof.
  intros Hroot. apply contains_exact_includes in Hroot.
  assert (Hno : Str.includes Examples.pageTemplate "Root" = false)
    by (vm_compute; reflexivity).
  rewrite Hno in Hroot. discriminate.
Qed.

(** With the id [Root], the merge fills the div with the id [root] of that
    template. *)
Lemma capital_id_fills_the_other_div inputs :
  inputs Examples.pageTemplate "<h1>Hi</h1>" ->
  ~ mergeNamesMissingId String.eqb inputs mergeLiquidTemplate.
Proof.
  intros Hinputs Hclaim.
  destruct (Hclaim Examples.pageTemplate "<h1>Hi</h1>" EmptyString Examples.capitalMount
              Hinputs pageTemplate_has_no_capital_root) as (e & Hthrow & _).
  assert (Hout : mergeLiquidTemplate (contextOf Examples.pageTemplate "<h1>Hi</h1>"
                                        EmptyString Examples.capitalMount)
                 = Normal "<main><div id='root' class='app'><h1>Hi</h1></div></main>")
    by (vm_compute; reflexivity).
  rewrite Hout in Hthrow. discriminate.
Qed.

(** Counterexample to C8 as stated, in two runs.  With the id [Root] and a
    template whose only div has the id [root], no element has the id, and
    the merge of a rendered heading returns a page instead of failing; so
    the claim is false, also for non-empty templates and contents.  With a
    component that has rendered to the empty string and a template without
    root element the merge fails with "Rendered content is required",
    which does not name the id; so the claim is false, also when ids are
    compared up to letter case. *)
Lemma missing_id_is_not_always_reported :
  ~ mergeNamesMissingId String.eqb anyInput mergeLiquidTemplate
  /\ ~ mergeNamesMissingId String.eqb nonEmptyInput mergeLiquidTemplate
  /\ ~ mergeNamesMissingId sameText anyInput mergeLiquidTemplate.
Proof.
  split; [| split].
  - now apply capital_id_fills_the_other_div.
  - apply capital_id_fills_the_other_div. split; discriminate.
  - intros Hclaim.
    destruct (Hclaim Examples.bareTemplate EmptyString EmptyString Examples.rootMount
                I bareTemplate_has_no_root) as (e & Hthrow & Hnames).
    assert (He : mergeLiquidTemplate (contextOf Examples.bareTemplate EmptyString
                                        EmptyString Examples.rootMount)
                 = Throw (ThrownError (newError "Rendered content is required")))
      by reflexivity.
    rewrite He in Hthrow. injection Hthrow as <-.
    assert (Hno : Str.includes "Rendered content is required" "root" = false)
      by (vm_compute; reflexivity).
    cbn [message newError rootElementId Examples.rootMount] in Hnames.
    rewrite Hno in Hnames. discriminate.
Qed.


End EnginesFacts.

(* ===================================================================== *)
(** * Properties of the render worker *)
(* ===================================================================== *)

Module WorkerFacts.
Import Js Config Engines Worker.

(** ** Computations that do not touch the file system *)

Lemma keepsFiles_ret {A} (a : A) : keepsFiles (ret a).
Proof. intros st. reflexivity. Qed.

Lemma keepsFiles_mret {A} (a : A) : keepsFiles (mret a : Eff A).
Proof. intros st. reflexivity. Qed.

Lemma keepsFiles_lift {A} (c : Completion A) : keepsFiles (lift c).
Proof. intros st. reflexivity. Qed.

Lemma keepsFiles_processExit {A} code : keepsFiles (processExit code : Eff A).
Proof. intros st. reflexivity. Qed.

Lemma keepsFiles_consoleLog text : keepsFiles (consoleLog text).
Proof. intros st. reflexivity. Qed.

Lemma keepsFiles_consoleError text : keepsFiles (consoleError text).
Proof. intros st. reflexivity. Qed.

Lemma keepsFiles_bind {A B} (m : Eff A) (k : A -> Eff B) :
  keepsFiles m -> (forall a, keepsFiles (k a)) -> keepsFiles (m ≫= k).
Proof.
  intros Hm Hk st. unfold mbind, eff_bind, bindEff.
  specialize (Hm st). destruct (m st) as [[a | t | c] st1]; cbn in Hm |- *;
    [| exact Hm | exact Hm].
  now rewrite Hk.
Qed.

Lemma keepsFiles_tryCatch {A} (body : Eff A) handler :
  keepsFiles body -> (forall t, keepsFiles (handler t)) ->
  keepsFiles (tryCatchEff body handler).
Proof.
  intros Hbody Hhandler st. unfold tryCatchEff.
  specialize (Hbody st). destruct (body st) as [[a | t | c] st1]; cbn in Hbody |- *;
    [exact Hbody | | exact Hbody].
  now rewrite Hhandler.
Qed.

Lemma keepsFiles_whenSome {A} (value : option A) action :
  (forall a, keepsFiles (action a)) -> keepsFiles (whenSome value action).
Proof. intros H. destruct value; [apply H | apply keepsFiles_ret]. Qed.

Lemma keepsFiles_readFile {C} (env : Env C) path : keepsFiles (readFile env path).
Proof.
  intros st. unfold readFile.
  destruct (readFault env path); [reflexivity |].
  now destruct (files (fs st) !! path).
Qed.

Create HintDb keeps.
#[local] Hint Resolve keepsFiles_ret keepsFiles_mret keepsFiles_lift keepsFiles_processExit
  keepsFiles_consoleLog keepsFiles_consoleError keepsFiles_readFile : keeps.

(** Decompose a computation built from sequencing, [try]/[catch] and
    case distinctions into its atomic statements. *)
Ltac keeps :=
  repeat first
    [ solve [auto with keeps]
    | apply keepsFiles_bind; [| intros ?]
    | apply keepsFiles_tryCatch; [| intros ?]
    | apply keepsFiles_whenSome; intros ?
    | match goal with
      | |- keepsFiles (match ?x with _ => _ end) => destruct x
      | |- keepsFiles (if ?b then _ else _) => destruct b
      end ].

Section Current.
Context {P : Path.Api}.
Variable env : Env Parsed.Json.

Lemma keepsFiles_exitWithError {A} msg filePath cause :
  keepsFiles (exitWithError msg filePath cause : Eff A).
Proof. unfold exitWithError. keeps. Qed.

Lemma exitWithError_exits {A} msg filePath cause st :
  fst (exitWithError (A:=A) msg filePath cause st) = Exit 1%Z.
Proof.
  unfold exitWithError, mbind, eff_bind, bindEff, consoleError, whenSome, processExit.
  cbn. destruct (truthy filePath), cause; reflexivity.
Qed.

#[local] Hint Resolve keepsFiles_exitWithError : keeps.

(** Everything up to the merge only reads. *)
Lemma keepsFiles_prepare : keepsFiles (prepare env).
Proof. unfold prepare. cbv zeta. keeps. Qed.

End Current.

Section CurrentMain.
Context {P : Path.Api}.
Variable env : Env Parsed.Json.

(** [main] after a failed merge: exit code 1, and the file system is the
    one [main] started with. *)
Lemma main_failed_merge st p st1 t :
  prepare env st = (Normal p, st1) -> mergeStep env p = Throw t ->
  exists st', main env st = (Exit 1%Z, st') /\ fs st' = fs st.
Proof.
  intros Hprepare Hmerge.
  pose proof (keepsFiles_prepare env st) as Hfs. rewrite Hprepare in Hfs. cbn in Hfs.
  unfold main, mbind, eff_bind, bindEff. rewrite Hprepare.
  unfold tryCatchEff, lift. rewrite Hmerge.
  pose proof (exitWithError_exits (A:=string) "Template merge failed" (Some (filePath p))
                (asErrorOpt t) st1) as Hexit.
  pose proof (keepsFiles_exitWithError (A:=string) "Template merge failed"
                (Some (filePath p)) (asErrorOpt t) st1) as Hkeep.
  destruct (exitWithError "Template merge failed" (Some (filePath p)) (asErrorOpt t) st1)
    as [c st2].
  cbn in Hexit, Hkeep. subst c. exists st2. split; [reflexivity | congruence].
Qed.

End CurrentMain.

Section LegacyMain.
Context {P : Path.Api}.
Variable env : Env Legacy.RenderConfig.

Lemma keepsFiles_loadTemplate templatePath filePath :
  keepsFiles (loadTemplate env templatePath filePath).
Proof. unfold loadTemplate. keeps. Qed.

#[local] Hint Resolve keepsFiles_loadTemplate : keeps.

Lemma keepsFiles_legacyTemplateStep filePath config p :
  keepsFiles (legacyTemplateStep env filePath config p).
Proof. unfold legacyTemplateStep. cbv zeta. keeps. Qed.

(** [main] of the class-based worker after a failed template step. *)
Lemma legacyMain_failed_merge st filePath configJson config p st1 t :
  parseWorkerArgs env = Normal (filePath, configJson) ->
  parseConfig env configJson = Normal config ->
  legacyPrepare env filePath config = Normal p ->
  legacyTemplateStep env filePath config p st = (Throw t, st1) ->
  exists st', legacyMain env st = (Exit 1%Z, st') /\ fs st' = fs st.
Proof.
  intros Hargs Hconfig Hprepare Hstep.
  pose proof (keepsFiles_legacyTemplateStep filePath config p st) as Hfs.
  rewrite Hstep in Hfs. cbn in Hfs. rewrite <- Hfs.
  unfold legacyMain, tryCatchEff, renderWorker, mbind, eff_bind, bindEff, lift.
  rewrite Hargs. cbn [fst snd]. rewrite Hconfig, Hprepare, Hstep.
  unfold consoleError, whenSome, processExit.
  destruct t as [e | shown]; [| now eexists].
  destruct (instanceofRenderError e); [| now eexists].
  cbn. destruct (truthy (Js.filePath e)), (cause e); now eexists.
Qed.

End LegacyMain.

Section Claims.
Context {P : Path.Api}.

(** C9.  When the template-merge step of a render task fails, the worker
    exits with code 1 and the file system is as it was when the worker
    started: nothing has been written, the output file is neither created
    nor changed.  This holds for [main] of the function-based worker, whose
    merge step is [mergeStep], and for [main] of the class-based worker,
    whose [renderWorker] loads the template and merges into it in its
    template step. *)
Theorem failed_merge_leaves_the_output_alone :
  (forall (env : Env Parsed.Json) st p st1 t,
      prepare env st = (Normal p, st1) ->
      mergeStep env p = Throw t ->
      exists st', main env st = (Exit 1%Z, st') /\ fs st' = fs st)
  /\ (forall (env : Env Legacy.RenderConfig) st filePath configJson config p st1 t,
         parseWorkerArgs env = Normal (filePath, configJson) ->
         parseConfig env configJson = Normal config ->
         legacyPrepare env filePath config = Normal p ->
         legacyTemplateStep env filePath config p st = (Throw t, st1) ->
         exists st', legacyMain env st = (Exit 1%Z, st') /\ fs st' = fs st).
Proof.
  split.
  - intros env st p st1 t. apply main_failed_merge.
  - intros env st filePath configJson config p st1 t.
    apply legacyMain_failed_merge.
Qed.

End Claims.

(** Witness for C9: the template of the page has no root element. *)
Lemma failed_merge_leaves_the_output_alone_witness :
  (exists st',
      main (P:=Path.posix) (Examples.workerEnv (ofRenderConfig Examples.config))
        Examples.bareSite
      = (Exit 1%Z, st')
      /\ fs st' = fs Examples.bareSite)
  /\ (exists st',
         legacyMain (P:=Path.posix) (Examples.workerEnv Examples.legacyConfig) Examples.bareSite
         = (Exit 1%Z, st')
         /\ fs st' = fs Examples.bareSite).
Proof.
  split.
  - exact (proj1 (failed_merge_leaves_the_output_alone (P:=Path.posix))
             (Examples.workerEnv (ofRenderConfig Examples.config)) Examples.bareSite
             _ _ _ eq_refl eq_refl).
  - exact (proj2 (failed_merge_leaves_the_output_alone (P:=Path.posix))
             (Examples.workerEnv Examples.legacyConfig) Examples.bareSite
             _ _ _ _ _ _ eq_refl eq_refl eq_refl eq_refl).
Defined.

End WorkerFacts.

(* ===================================================================== *)
(** * More properties of rendering and scheduling *)
(* ===================================================================== *)

Module RenderProps.
Import Js Config Render Scheduler SchedulerFacts.

(** ** Chunking *)

Lemma slice_full {A} (array : list A) i size :
  length (slice array i (i + size)) = Nat.min size (length array - i).
Proof.
  unfold slice. rewrite length_take, length_drop. f_equal. lia.
Qed.

Lemma chunkLoop_nil {A} fuel (array : list A) size i :
  length array <= i -> chunkLoop fuel array size i = [].
Proof.
  intros Hge. destruct fuel as [| fuel]; [reflexivity |]. cbn [chunkLoop].
  destruct (Nat.ltb_spec i (length array)); [lia | reflexivity].
Qed.

Lemma chunkLoop_sizes {A} fuel (array : list A) size : forall i k c,
  1 <= size -> length array - i <= fuel ->
  chunkLoop fuel array size i !! k = Some c ->
  1 <= length c <= size
  /\ (S k < length (chunkLoop fuel array size i) -> length c = size).
Proof.
  induction fuel as [| fuel IH]; intros i k c Hsize Hfuel; cbn [chunkLoop];
    [discriminate |].
  destruct (Nat.ltb_spec i (length array)) as [Hlt | Hge]; [| discriminate].
  destruct k as [| k]; cbn [lookup list_lookup].
  - intros [= <-]. rewrite slice_full. split; [lia |].
    cbn [length]. intros Hmore.
    destruct (Nat.le_gt_cases (length array) (i + size)) as [Hend | Hin]; [| lia].
    rewrite (chunkLoop_nil fuel array size (i + size) Hend) in Hmore. cbn in Hmore. lia.
  - intros Hc. destruct (IH (i + size) k c Hsize ltac:(lia) Hc) as [Hlen Hfull].
    split; [exact Hlen |]. cbn [length]. intros Hmore. apply Hfull. lia.
Qed.

(** X1.  For a positive chunk size, [chunkArray] cuts the array into
    consecutive pieces: put together again they give the array; no piece is
    empty or longer than the size, and every piece but the last has exactly
    the size. *)
Theorem chunkArray_partitions {A} (array : list A) size :
  1 <= size ->
  concat (chunkArray array size) = array
  /\ forall k c,
       chunkArray array size !! k = Some c ->
       1 <= length c <= size
       /\ (S k < length (chunkArray array size) -> length c = size).
Proof.
  intros Hsize. split; [now apply chunkArray_concat |].
  intros k c. unfold chunkArray. apply chunkLoop_sizes; [exact Hsize | lia].
Qed.

Lemma chunkArray_partitions_witness :
  concat (chunkArray ["a"; "b"; "c"; "d"; "e"] 2) = ["a"; "b"; "c"; "d"; "e"]
  /\ 1 <= length ["e"] <= 2.
Proof.
  destruct (chunkArray_partitions ["a"; "b"; "c"; "d"; "e"] 2 ltac:(lia))
    as [Hconcat Hsizes].
  split; [exact Hconcat |]. exact (proj1 (Hsizes 2 ["e"] eq_refl)).
Defined.

(** ** The result of one render *)

Section WithPaths.
Context {P : Path.Api}.

(** X2.  Whatever the worker process does, each of the three versions of
    [renderFile] returns a result that belongs to the file it was called
    for: a success with the output path of that file, or a [RenderError]
    with that file as its [filePath]; and it is a success exactly when the
    worker ended with exit code 0. *)
Theorem render_result_belongs_to_its_file :
  (forall (config : Legacy.RenderConfig) filePath ev,
      exists r,
        Renderer_renderFile config filePath ev = Normal r
        /\ belongsTo (Legacy.outputDir config) filePath r
        /\ (succeeded r = true <-> exists signal, ev = ChildClose (Some 0%Z) signal))
  /\ (forall (config : RenderConfig) filePath out,
         exists r,
           renderFile config filePath out = Normal r
           /\ belongsTo (outputDir config) filePath r
           /\ (succeeded r = true <-> out = ExecaResolved))
  /\ (forall (config : RenderConfig) filePath out,
         exists r,
           renderFile_inherit config filePath out = Normal r
           /\ belongsTo (outputDir config) filePath r
           /\ (succeeded r = true <-> out = ExecaResolved)).
Proof.
  split; [| split].
  - intros config filePath ev. unfold Renderer_renderFile.
    destruct ev as [t | [[| |] |] signal | e]; cbn; eexists;
      (split; [reflexivity |]); (split; [now split |]); cbn;
      (split; [try discriminate; eauto | intros [s [=]]; reflexivity || discriminate]).
  - intros config filePath out. unfold renderFile.
    destruct out; cbn; eexists; (split; [reflexivity |]); (split; [now split |]);
      cbn; split; congruence.
  - intros config filePath out. unfold renderFile_inherit.
    destruct out; cbn; eexists; (split; [reflexivity |]); (split; [now split |]);
      cbn; split; congruence.
Qed.

End WithPaths.

End RenderProps.

(* ===================================================================== *)
(** * More properties of the command-line action *)
(* ===================================================================== *)

Module CliProps.
Import Js Config Render Cli.

Lemma printsErrors_ret : printsErrors (ret tt).
Proof. intros log. exists []. cbn. now rewrite app_nil_r. Qed.

Lemma printsErrors_consoleError text : printsErrors (consoleError text).
Proof. intros log. now exists [text]. Qed.

Lemma printsErrors_bind (m : Eff unit) (k : unit -> Eff unit) :
  printsErrors m -> (forall u, printsErrors (k u)) -> printsErrors (m ≫= k).
Proof.
  intros Hm Hk log. unfold mbind, eff_bind, bindEff.
  destruct (Hm log) as [lines1 ->]. destruct (Hk tt (log ++ map Err lines1)) as [lines2 ->].
  exists (lines1 ++ lines2). now rewrite map_app, app_assoc.
Qed.

Lemma printsErrors_when cond action : printsErrors action -> printsErrors (when cond action).
Proof. intros H. destruct cond; [exact H | apply printsErrors_ret]. Qed.

Lemma printsErrors_whenSome {A} (value : option A) action :
  (forall a, printsErrors (action a)) -> printsErrors (whenSome value action).
Proof. intros H. destruct value; [apply H | apply printsErrors_ret]. Qed.

Lemma printsErrors_forEach {A} (items : list A) action :
  (forall a, printsErrors (action a)) -> printsErrors (forEach items action).
Proof.
  intros H. induction items as [| item rest IH]; cbn [forEach].
  - apply printsErrors_ret.
  - apply (printsErrors_bind (action item) (fun _ => forEach rest action));
      [apply H | intros _; exact IH].
Qed.

Lemma filter_all {A} (p : A -> bool) l :
  length (List.filter p l) = length l <-> forallb p l = true.
Proof.
  induction l as [| x l IH]; cbn; [tauto |].
  pose proof (List.filter_length_le p l) as Hle.
  destruct (p x); cbn; [rewrite <- IH; lia |]. split; [lia | discriminate].
Qed.

Lemma filter_split {A} (p : A -> bool) l :
  length (List.filter p l) + length (List.filter (fun x => negb (p x)) l) = length l.
Proof.
  induction l as [| x l IH]; cbn; [reflexivity |]. destruct (p x); cbn; lia.
Qed.

(** X3.  The report after a batch prints one summary line on standard output,
    which gives the number of succeeded and of failed renders, the two adding
    up to the number of results, and then writes on standard error only; it
    writes nothing there when every render has succeeded, and it never throws
    or exits.  The older and the current action print the same summary. *)
Theorem report_counts_every_result results log :
  let succeededCount := length (List.filter succeeded results) in
  let failedCount := length results - succeededCount in
  let counts := pretty succeededCount +:+ " succeeded, "
                +:+ pretty failedCount +:+ " failed" in
  succeededCount + failedCount = length results
  /\ exists summary,
       Str.includes summary counts = true
       /\ (exists lines,
              reportResults results log
              = (Normal tt, log ++ Out summary :: map Err lines)
              /\ (forallb succeeded results = true -> lines = []))
       /\ (exists lines,
              legacyReportResults results log
              = (Normal tt, log ++ Out summary :: map Err lines)
              /\ (forallb succeeded results = true -> lines = [])).
Proof.
  intros succeededCount failedCount counts.
  pose proof (List.filter_length_le succeeded results) as Hle.
  pose proof (filter_split succeeded results) as Hsplit.
  assert (Hfailed : length (List.filter (fun r => negb (succeeded r)) results)
                    = failedCount) by (unfold failedCount, succeededCount; lia).
  split; [unfold failedCount, succeededCount; lia |].
  assert (Hnone : forallb succeeded results = true -> failedCount = 0).
  { intros Hall. apply filter_all in Hall. unfold failedCount, succeededCount. lia. }
  set (summary := "Render complete: " +:+ counts).
  exists summary. split; [apply StrFacts.includes_end |].
  split.
  - unfold reportResults. fold succeededCount. fold failedCount. fold counts.
    fold summary.
    unfold mbind at 1, eff_bind at 1, bindEff at 1, consoleLog at 1.
    destruct (0 <? failedCount) eqn:Hpos.
    + match goal with
      | |- context [when true ?action] =>
          assert (Hprints : printsErrors action)
      end.
      { apply printsErrors_bind; [apply printsErrors_consoleError |]. intros _.
        apply printsErrors_forEach. intros error.
        apply printsErrors_bind; [apply printsErrors_consoleError |]. intros _.
        apply printsErrors_bind.
        - apply printsErrors_whenSome. intros f.
          apply printsErrors_when, printsErrors_consoleError.
        - intros _. apply printsErrors_whenSome. intros c.
          apply printsErrors_consoleError. }
      cbn [when]. destruct (Hprints (log ++ [Out summary])) as [lines ->].
      exists lines. rewrite <- app_assoc. split; [reflexivity |].
      intros Hall. apply Hnone in Hall. apply Nat.ltb_lt in Hpos. lia.
    + exists []. cbn. now split.
  - unfold legacyReportResults. rewrite Hfailed. fold succeededCount. fold counts.
    fold summary.
    unfold mbind at 1, eff_bind at 1, bindEff at 1, consoleLog at 1.
    destruct (0 <? failedCount) eqn:Hpos.
    + match goal with
      | |- context [when true ?action] =>
          assert (Hprints : printsErrors action)
      end.
      { apply printsErrors_bind; [apply printsErrors_consoleError |]. intros _.
        apply printsErrors_forEach. intros error.
        apply printsErrors_bind; [apply printsErrors_consoleError |]. intros _.
        apply printsErrors_whenSome. intros f.
        apply printsErrors_when, printsErrors_consoleError. }
      cbn [when]. destruct (Hprints (log ++ [Out summary])) as [lines ->].
      exists lines. rewrite <- app_assoc. split; [reflexivity |].
      intros Hall. apply Hnone in Hall. apply Nat.ltb_lt in Hpos. lia.
    + exists []. cbn. now split.
Qed.

End CliProps.

(* ===================================================================== *)
(** * More properties of the file watcher *)
(* ===================================================================== *)

Module WatcherProps.
Import Js Config Watcher StrFacts WatcherFacts.

Section Build.
Context {P : Path.Api}.
Variable dependencyTree : string -> option DepTree.

(** The files [collectAllDependencies] gathers are the resolved keys of the
    tree. *)
Lemma treeFiles_inTree t f :
  f ∈ treeFiles t <-> exists dep, inTree dep t /\ f = Path.resolve dep.
Proof.
  induction t as [children IH] using DepTree_nested_ind.
  induction children as [| [dep sub] rest IHrest].
  - rewrite treeFiles_nil. split; [set_solver |].
    intros (d & Hin & _). inversion Hin as [? ? Hel | ? ? ? Hel _]; inversion Hel.
  - inversion IH as [| ? ? Hsub Hrest]; subst. cbn [snd] in Hsub.
    specialize (IHrest Hrest). rewrite (treeFiles_cons dependencyTree), !elem_of_union, elem_of_singleton.
    rewrite Hsub, IHrest. split.
    + intros [[-> | (d & Hin & ->)] | (d & Hin & ->)].
      * exists dep. split; [| reflexivity]. eapply InTreeHere. left.
      * exists d. split; [| reflexivity]. eapply InTreeBelow; [left | exact Hin].
      * exists d. split; [| reflexivity].
        inversion Hin as [s ? Hel | d' s ? Hel Hbelow]; subst.
        -- eapply InTreeHere. right. exact Hel.
        -- eapply InTreeBelow; [right; exact Hel | exact Hbelow].
    + intros (d & Hin & ->).
      inversion Hin as [s ? Hel | d' s ? Hel Hbelow]; subst.
      * apply elem_of_cons in Hel as [Heq | Hel].
        -- injection Heq as -> ->. left. now left.
        -- right. exists d. split; [| reflexivity]. eapply InTreeHere. exact Hel.
      * apply elem_of_cons in Hel as [Heq | Hel].
        -- injection Heq as -> ->. left. right. now exists d.
        -- right. exists d. split; [| reflexivity]. eapply InTreeBelow; eassumption.
Qed.

Lemma addEntryPoint_mirrored g entryPoint :
  mirrored g -> mirrored (addEntryPoint dependencyTree g entryPoint).
Proof.
  intros Hg e. unfold addEntryPoint.
  destruct (dependencyTree entryPoint) as [t |]; [| apply Hg].
  unfold addDependencies. cbn [reverseDependencyGraph entryPointDependencies dependencyGraph].
  pose proof (traverse_spec dependencyTree entryPoint t (∅, reverseDependencyGraph g)) as [Hfst _].
  destruct (traverse entryPoint t (∅, reverseDependencyGraph g)) as [deps rev].
  cbn [fst snd entryPointDependencies dependencyGraph] in *.
  rewrite !lookup_insert. destruct (decide (entryPoint = e)) as [_ | _]; [| apply Hg].
  f_equal. rewrite Hfst. fold (treeFiles t). set_solver.
Qed.

Lemma buildDependencyGraph_mirrored entryPoints g :
  mirrored (buildDependencyGraph dependencyTree entryPoints g).
Proof.
  unfold buildDependencyGraph.
  assert (Hstart : mirrored emptyGraph) by (intros e; reflexivity).
  revert Hstart. generalize emptyGraph.
  induction entryPoints as [| e rest IH]; intros g0 Hg0; cbn [fold_left]; [exact Hg0 |].
  apply IH, addEntryPoint_mirrored, Hg0.
Qed.

Lemma built_forward processed g e f :
  builtFrom dependencyTree processed g ->
  f ∈ forwardSet g e
  <-> e ∈ processed
      /\ exists t dep, dependencyTree e = Some t /\ inTree dep t /\ f = Path.resolve dep.
Proof.
  intros [Hfwd _]. unfold forwardSet, getSet. rewrite Hfwd.
  destruct (decide (e ∈ processed)) as [Hin | Hnin].
  - destruct (dependencyTree e) as [t |]; cbn.
    + rewrite treeFiles_inTree. split.
      * intros (dep & Hdep & ->). split; [assumption |]. now exists t, dep.
      * intros (_ & t' & dep & [= <-] & Hdep & ->). now exists dep.
    + split; [set_solver |]. now intros (_ & t & dep & [=] & _).
  - cbn. split; [set_solver | tauto].
Qed.

Lemma built_reverse processed g e f :
  builtFrom dependencyTree processed g ->
  e ∈ reverseSet g f
  <-> e ∈ processed
      /\ exists t dep, dependencyTree e = Some t /\ inTree dep t /\ f = Path.resolve dep.
Proof.
  intros [_ Hrev]. rewrite Hrev. split.
  - intros (Hin & t & Ht & Hf). split; [assumption |].
    apply treeFiles_inTree in Hf as (dep & Hdep & ->). now exists t, dep.
  - intros (Hin & t & dep & Ht & Hdep & ->). split; [assumption |].
    exists t. split; [assumption |]. apply treeFiles_inTree. now exists dep.
Qed.

(** X4.  The graph [buildDependencyGraph] leaves behind mirrors the dependency
    trees of the entry points: the forward set of an entry point holds the
    resolved paths of the keys of its tree, at any depth; an entry point
    whose analysis throws gets no entry and does not disturb the others; and
    [entryPointDependencies] is the same map as [dependencyGraph]. *)
Theorem graph_mirrors_the_dependency_trees entryPoints g0 :
  let g := buildDependencyGraph dependencyTree entryPoints g0 in
  (forall e f,
      f ∈ forwardSet g e
      <-> e ∈ entryPoints
          /\ exists t dep,
               dependencyTree e = Some t /\ inTree dep t /\ f = Path.resolve dep)
  /\ (forall e, dependencyTree e = None -> dependencyGraph g !! e = None)
  /\ entryPointDependencies g = dependencyGraph g.
Proof.
  intros g. pose proof (buildDependencyGraph_built dependencyTree entryPoints g0) as Hbuilt.
  fold g in Hbuilt. split; [| split].
  - intros e f. now apply built_forward.
  - intros e Hnone. destruct Hbuilt as [Hfwd _]. rewrite Hfwd, Hnone.
    now destruct (decide (e ∈ entryPoints)).
  - apply map_eq. intros e. apply buildDependencyGraph_mirrored.
Qed.

(** X5.  In the older watcher, whose [getAffectedEntryPoints] is one lookup in
    the reverse map, the lookup on a freshly built graph returns exactly the
    analysed entry points whose dependency tree has the changed file as a
    key, at any depth. *)
Theorem legacy_lookup_finds_the_importing_entry_points entryPoints g0 changedFile e :
  e ∈ legacyGetAffectedEntryPoints
        (reverseDependencyGraph (legacyBuildDependencyGraph dependencyTree entryPoints g0))
        changedFile
  <-> e ∈ entryPoints
      /\ exists t dep,
           dependencyTree e = Some t /\ inTree dep t /\ changedFile = Path.resolve dep.
Proof.
  apply (built_reverse entryPoints).
  apply legacyBuildDependencyGraph_built.
Qed.

(** X6.  On a freshly built graph the traversal of the current watcher misses
    no entry point: every analysed entry point below the entry-point
    directory whose tree has the changed file as a key is among the affected
    ones; and it returns analysed entry points only. *)
Theorem traversal_on_built_graph entryPoints g0 entryPointDir changedFile :
  let reverse := reverseDependencyGraph
                   (buildDependencyGraph dependencyTree entryPoints g0) in
  (forall e t dep,
      e ∈ entryPoints -> isEntryPoint entryPointDir e = true ->
      dependencyTree e = Some t -> inTree dep t -> changedFile = Path.resolve dep ->
      e ∈ getAffectedEntryPoints entryPointDir reverse changedFile)
  /\ (forall e,
         e ∈ getAffectedEntryPoints entryPointDir reverse changedFile ->
         e ∈ entryPoints /\ isEntryPoint entryPointDir e = true
         /\ exists t, dependencyTree e = Some t).
Proof.
  intros reverse.
  pose proof (buildDependencyGraph_built dependencyTree entryPoints g0) as Hbuilt.
  split.
  - intros e t dep Hin Hentry Htree Hdep ->.
    apply getAffectedEntryPoints_spec. split; [assumption |].
    apply tc_once. apply (built_reverse entryPoints _ e (Path.resolve dep) Hbuilt).
    split; [assumption |]. now exists t, dep.
  - intros e He. apply getAffectedEntryPoints_spec in He as [Hentry Htc].
    apply tc_last in Htc as (x & _ & Hedge).
    apply (built_reverse entryPoints _ e x Hbuilt) in Hedge as (Hin & t & dep & Ht & _).
    split; [assumption |]. split; [assumption |]. now exists t.
Qed.

End Build.

(** X7.  For every reverse map, cyclic or not, [getAffectedEntryPoints] returns
    exactly the files below the entry-point directory that are reachable
    from the changed file in one or more steps of the reverse map; the
    changed file itself is returned only when it lies on a cycle. *)
Theorem affected_are_the_reachable_entry_points entryPointDir reverse changedFile e :
  e ∈ getAffectedEntryPoints entryPointDir reverse changedFile
  <-> isEntryPoint entryPointDir e = true
      /\ tc (dependentOf reverse) changedFile e.
Proof. apply getAffectedEntryPoints_spec. Qed.


Section Handle.
Context {P : Path.Api}.
Variable glob : string -> string -> list string.
Variable config : RenderConfig.

(** X8.  A change to a file below the entry-point directory with a configured
    extension re-renders that file and nothing else, whatever the graph
    says, and has the graph rebuilt; the scheduled path is the path of the
    file relative to the entry-point directory.  With any other extension
    the change is ignored. *)
Theorem entry_point_change_renders_the_entry_point g action filePath :
  let absolutePath := Path.resolve filePath in
  let entryPointDir := Path.resolve (Config.entryPointDir config) in
  Str.startsWith absolutePath (entryPointDir +:+ "/") = true ->
  if Str.member (fileExt filePath) (extensionsOf config)
  then exists relativePath,
         handleFileChange glob config g action filePath = Batch [relativePath] true
         /\ absolutePath = entryPointDir +:+ "/" +:+ relativePath
  else handleFileChange glob config g action filePath = Ignored.
Proof.
  intros absolutePath entryPointDir Hentry.
  unfold handleFileChange. fold absolutePath entryPointDir. rewrite Hentry.
  destruct (Str.member (fileExt filePath) (extensionsOf config)); cbn [negb];
    [| reflexivity].
  eexists. split; [reflexivity |].
  rewrite <- length_append_slash, <- append_assoc. now apply prefix_drop.
Qed.

(** X9.  A change to a file below the template directory (and not below the
    entry-point directory) schedules what the glob for its base name among
    the entry points returns, never has the graph rebuilt, and is ignored
    when the glob finds nothing; neither the graph nor the extension of the
    template matters. *)
Theorem template_change_renders_the_entry_points_of_that_name g action filePath t :
  let absolutePath := Path.resolve filePath in
  Str.startsWith absolutePath (Path.resolve (Config.entryPointDir config) +:+ "/") = false ->
  Config.templateDir config = Some t -> t <> EmptyString ->
  Str.startsWith absolutePath (Path.resolve t +:+ "/") = true ->
  let found := glob (templatePattern (Path.name filePath) (extensionsOf config))
                    (Config.entryPointDir config) in
  handleFileChange glob config g action filePath
  = match found with [] => Ignored | _ => Batch found false end.
Proof.
  intros absolutePath Hentry Htemplate Hne Hstarts found.
  unfold handleFileChange. fold absolutePath. rewrite Hentry, Htemplate.
  destruct t; [contradiction |]. cbn [Str.isEmpty]. rewrite Hstarts.
  fold found. now destruct found.
Qed.

End Handle.

Section Watch.
Context {P : Path.Api}.
Variable dependencyTree : string -> option DepTree.
Variable dirname : string -> string.

(** X10.  After [buildDependencyGraph], the directories handed to the
    file-system watcher include the directory of every analysed entry point
    and of every file its dependency tree mentions, besides the entry-point
    directory itself. *)
Theorem every_dependency_is_watched (config : RenderConfig) entryPoints g0 e t :
  let g := buildDependencyGraph dependencyTree entryPoints g0 in
  e ∈ entryPoints -> dependencyTree e = Some t ->
  dirname e ∈ watchPatterns dirname config g
  /\ (forall dep, inTree dep t -> dirname (Path.resolve dep) ∈ watchPatterns dirname config g)
  /\ Config.entryPointDir config ∈ watchPatterns dirname config g.
Proof.
  intros g Hin Htree.
  pose proof (buildDependencyGraph_built dependencyTree entryPoints g0) as Hbuilt.
  fold g in Hbuilt.
  assert (Hdirs : forall d, d ∈ getWatchDirectories dirname g ->
                            d ∈ watchPatterns dirname config g).
  { intros d Hd. unfold watchPatterns. set_solver. }
  split; [| split].
  - apply Hdirs. unfold getWatchDirectories.
    apply elem_of_union_l, elem_of_union_r, elem_of_map. exists e. split; [reflexivity |].
    apply elem_of_dom. destruct Hbuilt as [Hfwd _]. rewrite Hfwd, Htree.
    rewrite decide_True by assumption. now eexists.
  - intros dep Hdep. apply Hdirs. unfold getWatchDirectories.
    apply elem_of_union_r, elem_of_map. exists (Path.resolve dep). split; [reflexivity |].
    assert (Hrev : e ∈ reverseSet g (Path.resolve dep)).
    { apply (built_reverse dependencyTree entryPoints _ _ _ Hbuilt).
      split; [assumption |]. now exists t, dep. }
    unfold reverseSet, getSet in Hrev. apply elem_of_dom.
    destruct (reverseDependencyGraph g !! Path.resolve dep); [now eexists | set_solver].
  - unfold watchPatterns. set_solver.
Qed.

End Watch.


(** Witness: the sample site with an entry point that cannot be analysed. *)
Lemma graph_mirrors_the_dependency_trees_witness :
  dependencyGraph
    (buildDependencyGraph (P:=Path.posix) Examples.sampleTrees
       [Examples.homeEntry; Examples.brokenEntry; Examples.aboutEntry] emptyGraph)
    !! Examples.brokenEntry = None.
Proof.
  exact (proj1 (proj2 (graph_mirrors_the_dependency_trees (P:=Path.posix)
                         Examples.sampleTrees
                         [Examples.homeEntry; Examples.brokenEntry; Examples.aboutEntry]
                         emptyGraph))
           Examples.brokenEntry eq_refl).
Defined.

Lemma footer_in_home_tree :
  inTree Examples.footer
    (DepNode [(Examples.homeEntry,
               DepNode [(Examples.footer, DepNode []);
                        (Examples.productsJson, DepNode [])])]).
Proof.
  eapply InTreeBelow; [apply list_elem_of_here |].
  eapply InTreeHere. apply list_elem_of_here.
Defined.

(** Witness: the footer of the sample site is a key of the tree of the home
    page. *)
Lemma traversal_on_built_graph_witness :
  Examples.homeEntry
    ∈ getAffectedEntryPoints "/app/src/entry-points"
        (reverseDependencyGraph Examples.sampleGraph) Examples.footer.
Proof.
  exact (proj1 (traversal_on_built_graph (P:=Path.posix) Examples.sampleTrees
                  [Examples.homeEntry; Examples.aboutEntry] emptyGraph
                  "/app/src/entry-points" Examples.footer)
           Examples.homeEntry _ Examples.footer
           (list_elem_of_here _ _) eq_refl eq_refl footer_in_home_tree eq_refl).
Defined.

(** Witness: a change to the home page of the sample site. *)
Lemma entry_point_change_renders_the_entry_point_witness :
  exists relativePath,
    handleFileChange (P:=Path.posix) Examples.noGlob Examples.config Examples.sampleGraph
      EvChange Examples.homeEntry
    = Batch [relativePath] true
    /\ Examples.homeEntry = "/app/src/entry-points" +:+ "/" +:+ relativePath.
Proof.
  exact (entry_point_change_renders_the_entry_point (P:=Path.posix) Examples.noGlob
           Examples.config Examples.sampleGraph EvChange Examples.homeEntry eq_refl).
Defined.

(** Witness: a change to the template of the home page. *)
Lemma template_change_renders_the_entry_points_of_that_name_witness :
  handleFileChange (P:=Path.posix) Examples.homeGlob Examples.config Examples.sampleGraph
    EvChange Examples.homeTemplate
  = Batch ["home.tsx"] false.
Proof.
  exact (template_change_renders_the_entry_points_of_that_name (P:=Path.posix)
           Examples.homeGlob Examples.config Examples.sampleGraph EvChange
           Examples.homeTemplate "/app/templates" eq_refl eq_refl
           ltac:(discriminate) eq_refl).
Defined.

(** Witness: the directory of the footer of the sample site is watched. *)
Lemma every_dependency_is_watched_witness :
  Path.dir Examples.footer
    ∈ watchPatterns Path.dir Examples.config Examples.sampleGraph.
Proof.
  exact (proj1 (proj2 (every_dependency_is_watched (P:=Path.posix) Examples.sampleTrees
                         Path.dir Examples.config
                         [Examples.homeEntry; Examples.aboutEntry] emptyGraph
                         Examples.homeEntry _ (list_elem_of_here _ _) eq_refl))
           Examples.footer footer_in_home_tree).
Defined.

End WatcherProps.

(* ===================================================================== *)
(** * More properties of the template engines *)
(* ===================================================================== *)

Module EnginesProps.
Import Js RegExp Engines StrFacts RegExpFacts EnginesFacts.

(** ** Escaping *)

Lemma accepts_exact d a c : accepts (MkFlags false d) (CsChar a) c = Ascii.eqb a c.
Proof. reflexivity. Qed.

(** Without the flag [i], literal atoms match their own text only. *)
Lemma Matches_exact d text m :
  Matches (MkFlags false d) (literalAtoms text) m <-> m = text.
Proof.
  revert m. induction text as [| c text IH]; intros m.
  - split; [apply Matches_nil_inv | intros ->; constructor].
  - change (literalAtoms (String c text))
      with (MkAtom (CsChar c) One :: literalAtoms text).
    split.
    + intros HM. apply Matches_one_inv in HM as (x & m' & -> & Hx & HM).
      rewrite accepts_exact in Hx. apply Ascii.eqb_eq in Hx as ->.
      apply IH in HM as ->. reflexivity.
    + intros ->. constructor; [apply Ascii.eqb_refl | now apply IH].
Qed.

Lemma escaped_compiles s :
  newRegExp (escapeRegex s) EmptyString
  = Parsed (MkRegex false (literalAtoms s) (MkFlags false false)).
Proof.
  unfold newRegExp. cbn [parseFlags].
  destruct (parse_escaped s [] NoAtom false) as [l' ->].
  unfold finish. cbn [mode sawCaret parsed].
  now rewrite app_nil_r, rev_involutive.
Qed.

(** X11.  Escaping turns any text into a pattern for exactly that text: the
    escaped text always compiles, and the compiled pattern is found in a
    string exactly when the text occurs in it. *)
Theorem escaped_text_matches_itself s :
  exists re,
    compile (escapeRegex s) EmptyString = Normal re
    /\ forall t, test re t = Str.includes t s.
Proof.
  eexists. split.
  - unfold compile. rewrite escaped_compiles. reflexivity.
  - intros t. apply eq_true_iff_eq. rewrite test_spec by reflexivity.
    cbn [flags atoms]. split.
    + intros (before & m & after & -> & HM). apply Matches_exact in HM as ->.
      apply includes_append.
    + intros Hin. apply includes_split in Hin as (before & after & ->).
      exists before, s, after. split; [reflexivity |]. now apply Matches_exact.
Qed.

(** ** The class-based engines *)

(** A class-based engine merges like the function-based Liquid engine. *)
Lemma merge_agrees kind template content styles mount :
  match merge kind template content styles mount with
  | MergeOk out =>
      mergeLiquidTemplate (contextOf template content styles mount) = Normal out
  | MergeFailed e =>
      code e = Some (mergeErrorCode kind)
      /\ exists inner thrown,
           cause e = Some inner /\ message e = message inner
           /\ mergeLiquidTemplate (contextOf template content styles mount)
              = Throw (ThrownError thrown)
           /\ message thrown = message inner
  end.
Proof.
  unfold merge, mergeLiquidTemplate, checkedMerge, validateMergeInputs, performMerge,
    contextOf.
  cbn [Engines.template Engines.content Engines.styles Engines.mountInfo].
  destruct (Str.isEmpty template).
  { cbn. split; [reflexivity |]. eexists _, _. repeat split. }
  destruct (Str.isEmpty content).
  { cbn. split; [reflexivity |]. eexists _, _. repeat split. }
  destruct (Str.isEmpty (rootElementId mount)).
  { cbn. split; [reflexivity |]. eexists _, _. repeat split. }
  cbn. rewrite replaceRootDiv_eq. destruct (test _ _); [reflexivity |].
  split; [reflexivity |]. eexists _, _. repeat split.
Qed.

(** X12.  A class-based engine, Liquid or PHP, merges exactly like the
    function-based Liquid engine: it succeeds with a text when that one
    returns the text, and fails when that one throws.  A failure always
    carries the code of the engine, never the code of the check that
    failed, together with the message of the original error, which it keeps
    as its cause. *)
Theorem class_engines_merge_like_the_function kind template content styles mount :
  match merge kind template content styles mount with
  | MergeOk out =>
      mergeLiquidTemplate (contextOf template content styles mount) = Normal out
  | MergeFailed e =>
      code e = Some (mergeErrorCode kind)
      /\ exists inner thrown,
           cause e = Some inner /\ message e = message inner
           /\ mergeLiquidTemplate (contextOf template content styles mount)
              = Throw (ThrownError thrown)
           /\ message thrown = message inner
  end.
Proof. apply merge_agrees. Qed.


(** ** The order in which the matcher tries *)

(** A match of [front ++ back] is a match of [front] followed by what the
    matcher finds for [back] in the rest of the text. *)
Lemma matchAtoms_split fl front back : forall s m r,
  matchAtoms fl (front ++ back) s = Some (m, r) ->
  exists m1 m2 s2,
    m = m1 +:+ m2 /\ s = m1 +:+ s2 /\ Matches fl front m1
    /\ matchAtoms fl back s2 = Some (m2, r).
Proof.
  induction front as [| [cs q] front IH]; intros s m r.
  - intros Hm. exists EmptyString, m, s. repeat split; [constructor | exact Hm].
  - cbn [app matchAtoms chars quant]. destruct q as [| greedy | greedy | greedy].
    + destruct s as [| c s]; [discriminate |].
      destruct (accepts fl cs c) eqn:Hc; [| discriminate].
      intros Hm. apply consMatch_some in Hm as (m' & Hm & ->).
      apply IH in Hm as (m1 & m2 & s2 & -> & -> & HM & Hback).
      exists (String c m1), m2, s2. repeat split; [now constructor | exact Hback].
    + intros Hm. apply star_sound in Hm as (run & m' & s' & -> & -> & Hrun & Hm).
      apply IH in Hm as (m1 & m2 & s2 & -> & -> & HM & Hback).
      exists (run +:+ m1), m2, s2. rewrite !append_assoc.
      repeat split; [now constructor | exact Hback].
    + destruct s as [| c s]; [discriminate |].
      destruct (accepts fl cs c) eqn:Hc; [| discriminate].
      intros Hm. apply consMatch_some in Hm as (m0 & Hm & ->).
      apply star_sound in Hm as (run & m' & s' & -> & -> & Hrun & Hm).
      apply IH in Hm as (m1 & m2 & s2 & -> & -> & HM & Hback).
      exists (String c (run +:+ m1)), m2, s2. rewrite !append_cons, !append_assoc.
      repeat split; [now constructor | exact Hback].
    + assert (Hskip : matchAtoms fl (front ++ back) s = Some (m, r) ->
                exists m1 m2 s2,
                  m = m1 +:+ m2 /\ s = m1 +:+ s2
                  /\ Matches fl (MkAtom cs (Opt greedy) :: front) m1
                  /\ matchAtoms fl back s2 = Some (m2, r)).
      { intros Hm. apply IH in Hm as (m1 & m2 & s2 & -> & -> & HM & Hback).
        exists m1, m2, s2. repeat split; [now apply MatchesOptNone | exact Hback]. }
      assert (Htake : forall c s' m',
                s = String c s' -> accepts fl cs c = true ->
                matchAtoms fl (front ++ back) s' = Some (m', r) -> m = String c m' ->
                exists m1 m2 s2,
                  m = m1 +:+ m2 /\ s = m1 +:+ s2
                  /\ Matches fl (MkAtom cs (Opt greedy) :: front) m1
                  /\ matchAtoms fl back s2 = Some (m2, r)).
      { intros c s' m' -> Hc Hm ->.
        apply IH in Hm as (m1 & m2 & s2 & -> & -> & HM & Hback).
        exists (String c m1), m2, s2.
        repeat split; [now apply MatchesOptSome | exact Hback]. }
      destruct greedy.
      * destruct s as [| c s']; [exact Hskip |].
        destruct (accepts fl cs c) eqn:Hc; [| exact Hskip].
        destruct (matchAtoms fl (front ++ back) s') as [[m0 r0] |] eqn:Hm0;
          [| exact Hskip].
        intros [= <- <-]. eapply Htake; eauto.
      * destruct (matchAtoms fl (front ++ back) s) as [[m0 r0] |] eqn:Hm0.
        -- intros [= <- <-]. now apply Hskip.
        -- destruct s as [| c s']; [discriminate |].
           destruct (accepts fl cs c) eqn:Hc; [| discriminate].
           intros Hm. apply consMatch_some in Hm as (m' & Hm & ->).
           eapply Htake; eauto.
Qed.

(** A lazy star stops at the first place where the rest of the pattern
    matches. *)
Lemma star_lazy_first accept k : forall s m r,
  star accept false k s = Some (m, r) ->
  exists run m' s',
    m = run +:+ m' /\ s = run +:+ s' /\ k s' = Some (m', r)
    /\ forall skipped left,
         run = skipped +:+ left -> left <> EmptyString -> k (left +:+ s') = None.
Proof.
  induction s as [| c s IH]; intros m r; cbn [star].
  - destruct (k EmptyString) as [[m0 r0] |] eqn:Hk; [| discriminate].
    intros [= <- <-]. exists EmptyString, m0, EmptyString. repeat split; [exact Hk |].
    intros [| ? ?] [| ? ?]; try discriminate. intros _ Hne. contradiction.
  - destruct (k (String c s)) as [[m0 r0] |] eqn:Hk.
    + intros [= <- <-]. exists EmptyString, m0, (String c s). repeat split; [exact Hk |].
      intros [| ? ?] [| ? ?]; try discriminate. intros _ Hne. contradiction.
    + destruct (accept c); [| discriminate].
      intros Hm. apply consMatch_some in Hm as (m1 & Hm & ->).
      apply IH in Hm as (run & m' & s' & -> & -> & Hk' & Hfirst).
      exists (String c run), m', s'. repeat split; [exact Hk' |].
      intros skipped left Hrun Hne. destruct skipped as [| x skipped].
      * rewrite append_empty in Hrun. subst left. exact Hk.
      * rewrite append_cons in Hrun. injection Hrun as _ Hrun.
        now apply (Hfirst skipped left).
Qed.

(** The leftmost match: the matcher finds nothing at any earlier place. *)
Lemma search_first fl atoms : forall s before m r,
  search fl atoms s = Some (before, m, r) ->
  s = before +:+ m +:+ r
  /\ matchAtoms fl atoms (m +:+ r) = Some (m, r)
  /\ forall skipped left,
       before = skipped +:+ left -> left <> EmptyString ->
       matchAtoms fl atoms (left +:+ m +:+ r) = None.
Proof.
  assert (Hhere : forall s m r,
             matchAtoms fl atoms s = Some (m, r) ->
             s = EmptyString +:+ m +:+ r
             /\ matchAtoms fl atoms (m +:+ r) = Some (m, r)
             /\ forall skipped left,
                  EmptyString = skipped +:+ left -> left <> EmptyString ->
                  matchAtoms fl atoms (left +:+ m +:+ r) = None).
  { intros s m r Hm. pose proof (matchAtoms_sound _ _ _ _ _ Hm) as [-> _].
    repeat split; [exact Hm |].
    intros [| ? ?] [| ? ?]; try discriminate. intros _ Hne. contradiction. }
  induction s as [| c s IH]; intros before m r; cbn [search].
  - destruct (matchAtoms fl atoms EmptyString) as [[m0 r0] |] eqn:Hm; [| discriminate].
    intros [= <- <- <-]. now apply Hhere.
  - destruct (matchAtoms fl atoms (String c s)) as [[m0 r0] |] eqn:Hm.
    + intros [= <- <- <-]. now apply Hhere.
    + destruct (search fl atoms s) as [[[b0 m0] r0] |] eqn:Hs; [| discriminate].
      intros [= <- <- <-]. destruct (IH _ _ _ eq_refl) as (-> & Hat & Hfirst).
      repeat split; [exact Hat |].
      intros skipped left Hbefore Hne. destruct skipped as [| x skipped].
      * rewrite append_empty in Hbefore. subst left. exact Hm.
      * rewrite append_cons in Hbefore. injection Hbefore as _ Hbefore.
        now apply (Hfirst skipped left).
Qed.

(** ** The closing tag *)

Lemma beginsWith_split text s :
  beginsWith text s = true
  <-> exists m r, s = m +:+ r /\ sameText text m = true.
Proof.
  revert s. induction text as [| x text IH]; intros s.
  - split; [| reflexivity]. intros _. now exists EmptyString, s.
  - destruct s as [| y s]; cbn [beginsWith].
    + split; [discriminate |]. intros (m & r & Hs & Hsame).
      destruct m; [discriminate | discriminate].
    + rewrite andb_true_iff, IH. split.
      * intros (Hxy & m & r & -> & Hsame). exists (String y m), r.
        split; [reflexivity |]. cbn [sameText]. now rewrite Hxy, Hsame.
      * intros (m & r & Hs & Hsame). destruct m as [| y' m]; [discriminate |].
        rewrite append_cons in Hs. injection Hs as -> ->.
        cbn [sameText] in Hsame. apply andb_true_iff in Hsame as [Hxy Hsame].
        split; [exact Hxy |]. now exists m, r.
Qed.

Lemma literal_fails_to_match d text s :
  matchAtoms (MkFlags true d) (literalAtoms text) s = None -> beginsWith text s = false.
Proof.
  intros Hnone. destruct (beginsWith text s) eqn:Hb; [| reflexivity].
  apply beginsWith_split in Hb as (m & r & -> & Hsame).
  apply (Matches_literal_only d) in Hsame.
  destruct (matchAtoms_complete _ _ _ Hsame r) as [y Hy]. congruence.
Qed.

Lemma literal_match_is_same d text s m r :
  matchAtoms (MkFlags true d) (literalAtoms text) s = Some (m, r) ->
  s = m +:+ r /\ sameText text m = true.
Proof.
  intros Hm. apply matchAtoms_sound in Hm as [-> HM]. split; [reflexivity |].
  now apply Matches_literal_only in HM.
Qed.

(** ** The opening tag *)

Lemma opening_matches id o : Matches ci (openingAtoms id) o -> OpeningTag id o.
Proof.
  unfold openingAtoms. intros HM.
  apply Matches_literal in HM as (tag & m1 & -> & Htag & HM).
  apply Matches_plus_inv in HM as (s & run & m2 & -> & Hs & Hrun & HM).
  apply Matches_literal in HM as (attr & m3 & -> & Hattr & HM).
  apply Matches_one_inv in HM as (q1 & m4 & -> & Hq1 & HM).
  apply Matches_literal in HM as (idText & m5 & -> & Hid & HM).
  apply Matches_one_inv in HM as (q2 & m6 & -> & Hq2 & HM).
  apply Matches_star_inv in HM as (attrs & m7 & -> & Hattrs & HM).
  apply Matches_one_inv in HM as (gt & m8 & -> & Hgt & HM).
  apply Matches_nil_inv in HM as ->.
  apply accepts_gt in Hgt as ->.
  rewrite accepts_quote in Hq1, Hq2.
  rewrite (allAccepted_ext _ notGt) in Hattrs by apply accepts_notClosing.
  exists tag, (String s run), attr, q1, idText, q2, attrs.
  repeat split; try assumption.
  - discriminate.
  - cbn [allAccepted]. cbn in Hs. now rewrite Hs.
Qed.

Lemma rootDivAtoms_split id :
  rootDivAtoms id
  = openingAtoms id ++ [MkAtom CsAny (Star false)] ++ literalAtoms "</div>".
Proof.
  unfold rootDivAtoms, openingAtoms. rewrite <- !app_assoc. reflexivity.
Qed.

(** What the matcher finds for the pattern of the root element at the start
    of a text: an opening tag, then everything up to the first closing tag. *)
Lemma rootDiv_match_parts id s m r :
  matchAtoms ci (rootDivAtoms id) s = Some (m, r) ->
  exists opening body closing,
    m = opening +:+ body +:+ closing
    /\ OpeningTag id opening
    /\ sameText "</div>" closing = true
    /\ noneBegins "</div>" body (closing +:+ r).
Proof.
  rewrite rootDivAtoms_split. intros Hm.
  apply matchAtoms_split in Hm as (opening & m2 & s2 & -> & -> & Hopen & Hrest).
  cbn [app matchAtoms chars quant] in Hrest.
  apply star_lazy_first in Hrest as (body & closing & s' & -> & -> & Hclose & Hfirst).
  pose proof (literal_match_is_same _ _ _ _ _ Hclose) as [-> Hsame].
  exists opening, body, closing. repeat split.
  - now apply opening_matches.
  - exact Hsame.
  - intros skipped left Hbody Hne. eapply literal_fails_to_match.
    now apply (Hfirst skipped left).
Qed.



Lemma allAccepted_app f a b :
  allAccepted f (a +:+ b) = allAccepted f a && allAccepted f b.
Proof.
  induction a as [| c a IH]; [reflexivity |].
  rewrite append_cons. cbn [allAccepted]. now rewrite IH, andb_assoc.
Qed.

Lemma same_char_notGt x y :
  Ascii.eqb (canonicalize x) (canonicalize y) = true -> notGt x = true -> notGt y = true.
Proof.
  intros Hxy Hx. destruct (notGt y) eqn:Hy; [reflexivity |].
  apply negb_false_iff, Ascii.eqb_eq in Hy. subst y. revert Hxy Hx.
  destruct x as [[] [] [] [] [] [] [] []]; vm_compute; congruence.
Qed.

Lemma sameText_notGt a b :
  sameText a b = true -> allAccepted notGt a = true -> allAccepted notGt b = true.
Proof.
  revert b. induction a as [| x a IH]; intros [| y b]; cbn [sameText allAccepted];
    try discriminate; [reflexivity |].
  rewrite !andb_true_iff. intros [Hxy Hab] [Hx Ha].
  split; [eapply same_char_notGt; eassumption | now apply IH].
Qed.

Lemma space_notGt c : Str.isSpace c = true -> notGt c = true.
Proof. destruct c as [[] [] [] [] [] [] [] []]; vm_compute; congruence. Qed.

Lemma spaces_notGt s : allAccepted Str.isSpace s = true -> allAccepted notGt s = true.
Proof.
  induction s as [| c s IH]; cbn [allAccepted]; [reflexivity |].
  rewrite !andb_true_iff. intros [Hc Hs]. split; [now apply space_notGt | now apply IH].
Qed.

Lemma quote_notGt c : isQuote c = true -> notGt c = true.
Proof. destruct c as [[] [] [] [] [] [] [] []]; vm_compute; congruence. Qed.

(** The first [>] of a text is where it is. *)
Lemma first_closing_unique a : forall b x y,
  allAccepted notGt a = true -> allAccepted notGt b = true ->
  a +:+ String ">" x = b +:+ String ">" y -> a = b /\ x = y.
Proof.
  induction a as [| c a IH]; intros [| d b] x y Ha Hb Heq.
  - rewrite !append_empty in Heq. injection Heq as ->. now split.
  - rewrite append_empty, append_cons in Heq. injection Heq as <- _.
    cbn in Hb. discriminate.
  - rewrite append_empty, append_cons in Heq. injection Heq as -> _.
    cbn in Ha. discriminate.
  - rewrite !append_cons in Heq. injection Heq as -> Heq.
    cbn [allAccepted] in Ha, Hb.
    apply andb_true_iff in Ha as [_ Ha]. apply andb_true_iff in Hb as [_ Hb].
    destruct (IH b x y Ha Hb Heq) as [-> ->]. now split.
Qed.

(** An opening tag for an id without [>] has its only [>] at the end. *)
Lemma opening_closes_once id opening :
  allAccepted notGt id = true -> OpeningTag id opening ->
  exists tag tail,
    opening = tag +:+ tail +:+ ">"
    /\ sameText "<div" tag = true /\ allAccepted notGt tail = true.
Proof.
  intros Hid (tag & space & attr & q1 & idText & q2 & attrs
              & -> & Htag & _ & Hspace & Hattr & Hq1 & Hsame & Hq2 & Hattrs).
  exists tag, (space +:+ attr +:+ String q1 idText +:+ String q2 attrs).
  split; [now rewrite !append_assoc |]. split; [exact Htag |].
  rewrite !allAccepted_app. cbn [allAccepted].
  rewrite (spaces_notGt _ Hspace), (sameText_notGt _ _ Hattr eq_refl),
    (quote_notGt _ Hq1), (sameText_notGt _ _ Hsame Hid), (quote_notGt _ Hq2), Hattrs.
  reflexivity.
Qed.

Lemma openTag_matches tag tail :
  sameText "<div" tag = true -> allAccepted notGt tail = true ->
  Matches (MkFlags true false) openTagAtoms (tag +:+ tail +:+ ">").
Proof.
  intros Htag Htail. apply Matches_literal. exists tag, (tail +:+ ">").
  split; [reflexivity |]. split; [assumption |]. apply MatchesStar.
  - now rewrite (allAccepted_ext _ notGt) by apply accepts_notClosing.
  - apply MatchesOne; [reflexivity | constructor].
Qed.

Lemma openTag_matches_inv m :
  Matches (MkFlags true false) openTagAtoms m ->
  exists tag tail,
    m = tag +:+ tail +:+ ">"
    /\ sameText "<div" tag = true /\ allAccepted notGt tail = true.
Proof.
  unfold openTagAtoms. intros HM.
  apply Matches_literal in HM as (tag & m1 & -> & Htag & HM).
  apply Matches_star_inv in HM as (tail & m2 & -> & Htail & HM).
  apply Matches_one_inv in HM as (gt & m3 & -> & Hgt & HM).
  apply Matches_nil_inv in HM as ->. apply accepts_gt in Hgt as ->.
  rewrite (allAccepted_ext _ notGt) in Htail by apply accepts_notClosing.
  now exists tag, tail.
Qed.

(** The tag the replacer keeps is the opening tag of the matched element. *)
Lemma fillDiv_keeps_opening id styles content opening rest :
  allAccepted notGt id = true -> OpeningTag id opening ->
  fillDiv styles content (opening +:+ rest)
  = opening +:+ styles +:+ content +:+ "</div>".
Proof.
  intros Hid Hopen.
  destruct (opening_closes_once _ _ Hid Hopen) as (tag & tail & -> & Htag & Htail).
  destruct (matchAtoms_complete _ _ _ (openTag_matches _ _ Htag Htail) rest)
    as [[openTag dropped] Hfound].
  pose proof (matchAtoms_sound _ _ _ _ _ Hfound) as [Hsplit HM].
  apply openTag_matches_inv in HM as (tag' & tail' & -> & Htag' & Htail').
  assert (Hsame : tag +:+ tail = tag' +:+ tail' /\ rest = dropped).
  { apply first_closing_unique.
    - rewrite allAccepted_app, (sameText_notGt _ _ Htag eq_refl), Htail. reflexivity.
    - rewrite allAccepted_app, (sameText_notGt _ _ Htag' eq_refl), Htail'. reflexivity.
    - rewrite !append_assoc in Hsplit. rewrite !append_assoc. exact Hsplit. }
  destruct Hsame as [Hsame _].
  unfold fillDiv, matchOf, exec. rewrite openTagRegex_eq. cbn [anchored flags atoms].
  rewrite Hfound. rewrite <- !append_assoc, Hsame. reflexivity.
Qed.

(** X13.  When the id has no [>], a successful merge finds the leftmost root
    element of the template and replaces everything between its opening
    tag and the first closing [</div>] after it, closing tag included, by
    the styles, the content and a closing tag.  The opening tag with its
    attributes and the text before and after the element are kept as they
    are; what follows the first closing tag stays in the output even if it
    was inside the root element. *)
Theorem merge_replaces_up_to_the_first_closing_tag template content styles mount out :
  allAccepted notGt (rootElementId mount) = true ->
  mergeLiquidTemplate (contextOf template content styles mount) = Normal out
  \/ mergeHTMLTemplate (contextOf template content styles mount) = Normal out ->
  exists before opening body closing after,
    template = before +:+ (opening +:+ body +:+ closing) +:+ after
    /\ out = before +:+ (opening +:+ styles +:+ content +:+ "</div>") +:+ after
    /\ OpeningTag (rootElementId mount) opening
    /\ sameText "</div>" closing = true
    /\ noneBegins "</div>" body (closing +:+ after)
    /\ forall skipped left,
         before = skipped +:+ left -> left <> EmptyString ->
         forall element rest,
           left +:+ (opening +:+ body +:+ closing) +:+ after = element +:+ rest ->
           ~ RootDiv sameText (rootElementId mount) element.
Proof.
  intros Hid Hout.
  assert (Hreplace : exists notFound,
             replaceRootDiv notFound template content styles (rootElementId mount)
             = Normal out).
  { destruct Hout as [Hout | Hout]; apply checkedMerge_normal in Hout; eauto. }
  destruct Hreplace as [notFound Hreplace]. rewrite replaceRootDiv_eq in Hreplace.
  destruct (test (rootDivRegex (rootElementId mount)) template) eqn:Htest;
    [| discriminate].
  injection Hreplace as <-. unfold replace. unfold test in Htest. revert Htest.
  unfold exec. cbn [anchored rootDivRegex flags atoms].
  destruct (search ci (rootDivAtoms (rootElementId mount)) template)
    as [[[before m] after] |] eqn:Hsearch; intros Htest.
  - apply search_first in Hsearch as (-> & Hat & Hfirst).
    apply rootDiv_match_parts in Hat as (opening & body & closing & -> & Hopen & Hclose & Hnone).
    exists before, opening, body, closing, after.
    split; [reflexivity |]. split.
    { now rewrite (fillDiv_keeps_opening _ _ _ _ _ Hid Hopen). }
    split; [exact Hopen |]. split; [exact Hclose |]. split; [exact Hnone |].
    intros skipped left Hbefore Hne element rest Heq Hroot.
    apply rootDiv_matches in Hroot.
    destruct (matchAtoms_complete _ _ _ Hroot rest) as [y Hy].
    rewrite <- Heq, (Hfirst skipped left Hbefore Hne) in Hy. discriminate.
  - discriminate.
Qed.


(** Witness: the root element of the template holds another element; what
    follows the closing tag of that one stays in the page. *)
Lemma merge_replaces_up_to_the_first_closing_tag_witness :
  exists before opening body closing after,
    Examples.nestedTemplate = before +:+ (opening +:+ body +:+ closing) +:+ after
    /\ "<main><div id='root'><h1>Hi</h1></div>b</div></main>"
       = before +:+ (opening +:+ EmptyString +:+ "<h1>Hi</h1>" +:+ "</div>") +:+ after.
Proof.
  assert (Hmerged : mergeLiquidTemplate
                      (contextOf Examples.nestedTemplate "<h1>Hi</h1>" EmptyString
                         Examples.rootMount)
                    = Normal "<main><div id='root'><h1>Hi</h1></div>b</div></main>")
    by (vm_compute; reflexivity).
  destruct (merge_replaces_up_to_the_first_closing_tag Examples.nestedTemplate
              "<h1>Hi</h1>" EmptyString Examples.rootMount _ eq_refl (or_introl Hmerged))
    as (before & opening & body & closing & after & Htemplate & Hout & _).
  now exists before, opening, body, closing, after.
Defined.

End EnginesProps.

(* ===================================================================== *)
(** * More properties of the render worker *)
(* ===================================================================== *)

Module WorkerProps.
Import Js Config Engines Worker StrFacts EnginesFacts WorkerFacts.

(** ** What escapes from a computation *)

Lemma throwsOnly_ret {A} Q (a : A) st : throwsOnly Q (ret a) st.
Proof. intros t st1 H. discriminate H. Qed.

Lemma throwsOnly_lift {A} Q (c : Completion A) st :
  (forall t, c = Throw t -> Q t) -> throwsOnly Q (lift c) st.
Proof. intros Hc t st1 [= -> _]. now apply Hc. Qed.

Lemma throwsOnly_bind {A B} Q (m : Eff A) (k : A -> Eff B) st :
  throwsOnly Q m st ->
  (forall a st1, m st = (Normal a, st1) -> throwsOnly Q (k a) st1) ->
  throwsOnly Q (m ≫= k) st.
Proof.
  intros Hm Hk t st2. unfold mbind, eff_bind, bindEff.
  destruct (m st) as [[a | t1 | c] st1] eqn:Hrun.
  - now apply Hk.
  - intros [= <- _]. now apply (Hm t1 st1).
  - discriminate.
Qed.

Lemma throwsOnly_tryCatch {A} Q (body : Eff A) handler st :
  (forall t st1, body st = (Throw t, st1) -> throwsOnly Q (handler t) st1) ->
  throwsOnly Q (tryCatchEff body handler) st.
Proof.
  intros Hhandler t st2. unfold tryCatchEff.
  destruct (body st) as [[a | t1 | c] st1] eqn:Hrun; [discriminate | | discriminate].
  now apply Hhandler.
Qed.

(** ** The errors of the conversions and of the path functions *)

Lemma propertiesOf_throws parsed name t :
  propertiesOf parsed name = Throw t -> isTypeError t.
Proof. destruct parsed; [intros [= <-]; now eexists | discriminate]. Qed.

Lemma toText_throws v t : toText v = Throw t -> isTypeError t.
Proof.
  destruct v as [| s | | truthy [text |] received]; try discriminate.
  intros [= <-]. now eexists.
Qed.

Section Current.
Context {P : Path.Api}.
Variable env : Env Parsed.Json.

Lemma joinValues_throws a b t : joinValues a b = Throw t -> isTypeError t.
Proof.
  unfold joinValues.
  destruct a, b; try discriminate; intros [= <-]; now eexists.
Qed.

Lemma resolveValue_throws base p t : resolveValue base p = Throw t -> isTypeError t.
Proof.
  unfold resolveValue.
  destruct base; try discriminate; destruct (Str.startsWith p "/"); try discriminate;
    intros [= <-]; now eexists.
Qed.

Lemma exitWithError_run {A} msg filePath cause st :
  exists st', exitWithError (A:=A) msg filePath cause st = (Exit 1%Z, st')
              /\ fs st' = fs st.
Proof.
  pose proof (exitWithError_exits (A:=A) msg filePath cause st) as Hexit.
  pose proof (keepsFiles_exitWithError (A:=A) msg filePath cause st) as Hkeep.
  destruct (exitWithError msg filePath cause st) as [c st']. cbn in Hexit, Hkeep.
  subst c. now exists st'.
Qed.

Lemma throwsOnly_exitWithError {A} Q msg filePath cause st :
  throwsOnly Q (exitWithError (A:=A) msg filePath cause) st.
Proof.
  intros t st1 H.
  destruct (exitWithError_run (A:=A) msg filePath cause st) as (st' & Hexit & _).
  rewrite Hexit in H. discriminate H.
Qed.

(** The module the worker goes on with is the one [require] has returned. *)
Lemma required_module msg filePath p st1 module st2 :
  tryCatchEff (lift (requireFromCwd env p))
    (fun error => exitWithError msg filePath (asErrorOpt error)) st1
  = (Normal module, st2) ->
  requireFromCwd env p = Normal module.
Proof.
  unfold tryCatchEff, lift.
  destruct (requireFromCwd env p) as [m | t | c]; [now intros [= -> _] | | discriminate].
  destruct (exitWithError_run (A:=Required) msg filePath (asErrorOpt t) st1)
    as (st' & -> & _).
  discriminate.
Qed.

Lemma readExport_throws p module exportName t :
  requireFromCwd env p = Normal module ->
  readExport module exportName = Throw t ->
  isTypeError t \/ thrownByExport env t.
Proof.
  intros Hrequire. unfold readExport. destruct module as [missing | get].
  - left. destruct (toText exportName); injection H as <-; now eexists.
  - destruct (toText exportName) as [key | t0 | c] eqn:Hkey; cbn; [| | discriminate].
    + destruct (get key) as [exported | t0 | c] eqn:Hget; cbn; try discriminate.
      intros [= <-]. right. now exists p, get, key.
    + intros [= <-]. left. now apply toText_throws in Hkey.
Qed.

(** Take a computation apart, down to the statements outside every [try]. *)
Ltac escapes leaf :=
  repeat first
    [ apply throwsOnly_exitWithError
    | apply throwsOnly_ret
    | apply throwsOnly_tryCatch; intros ? ? _
    | apply throwsOnly_bind; [| intros ? ? ?]
    | apply throwsOnly_lift; leaf
    | match goal with
      | |- throwsOnly _ (match ?x with _ => _ end) _ => destruct x eqn:?
      | |- throwsOnly _ (if ?b then _ else _) _ => destruct b eqn:?
      end ].

(** Up to the merge, the worker lets nothing escape but the [TypeError] of a
    statement outside its [try] statements and what the reading of the
    export has thrown. *)
Lemma prepare_escapes st :
  throwsOnly (fun t => isTypeError t \/ thrownByExport env t) (prepare env) st.
Proof.
  unfold prepare. cbv zeta.
  escapes ltac:(intros ? ?;
                first [ left;
                        solve [eauto using propertiesOf_throws, toText_throws,
                                 joinValues_throws, resolveValue_throws]
                      | match goal with
                        | H : tryCatchEff (lift (requireFromCwd env _)) _ _ = _ |- _ =>
                            apply required_module in H; eapply readExport_throws;
                            eassumption
                        end ]).
Qed.

Lemma bind_lift_normal {A B} (a : A) (k : A -> Eff B) : (lift (Normal a) ≫= k) = k a.
Proof. reflexivity. Qed.

(** The statements outside the [try] statements do not throw for a
    configuration that comes from the renderer. *)
Ltac typed :=
  intros ? ?;
  repeat match goal with
         | H : context [optionalString ?x] |- _ =>
             let E := fresh "E" in
             destruct x as [[| ? ?] |] eqn:E; cbn in *; try discriminate
         end;
  try discriminate.

Lemma prepare_of_renderer config st :
  (forall configJson parsed,
      jsonParse env configJson = Some parsed -> parsed = ofRenderConfig config) ->
  (forall path missing, requireFromCwd env path <> Normal (NoExports missing)) ->
  throwsOnly (thrownByExport env) (prepare env) st.
Proof.
  intros Hconfig Hmodule. unfold prepare. cbv zeta.
  destruct (truthy (argvFilePath env)) as [filePath |];
    [| apply throwsOnly_exitWithError].
  destruct (truthy (argvConfigJson env)) as [configJson |];
    [| apply throwsOnly_exitWithError].
  destruct (jsonParse env configJson) as [parsed |] eqn:Hparse;
    [| apply throwsOnly_exitWithError].
  apply Hconfig in Hparse as ->.
  cbn [propertiesOf ofRenderConfig]. rewrite bind_lift_normal.
  cbn [Parsed.templateExtension Parsed.entryPointDir Parsed.outputDir
       Parsed.mountInfoExport Parsed.prettierConfig Parsed.templateDir
       Parsed.defaultTemplate Parsed.templateEngine resolveValue joinValues].
  apply throwsOnly_bind; [apply throwsOnly_lift; typed | intros extension ? _].
  rewrite !bind_lift_normal.
  apply throwsOnly_bind;
    [apply throwsOnly_tryCatch; intros ? ? _; apply throwsOnly_exitWithError |].
  intros module st2 Hrequire. apply required_module in Hrequire.
  destruct module as [missing | get]; [now apply Hmodule in Hrequire |].
  apply throwsOnly_bind.
  { apply throwsOnly_lift. intros t Ht. unfold readExport in Ht.
    destruct (Config.mountInfoExport config) as [[| ? ?] |]; cbn in Ht;
      match type of Ht with
      | context [get ?key] => destruct (get key) as [exported | t0 | c] eqn:Hget
      end; cbn in Ht; try discriminate;
      injection Ht as <-; eexists _, get, _; split; eassumption. }
  intros exported st3 _.
  escapes ltac:(typed).
Qed.

(** [main] after a merge that has returned. *)
Lemma main_after_merge st p st1 finalHtml :
  prepare env st = (Normal p, st1) -> mergeStep env p = Normal finalHtml ->
  exists c st',
    main env st = (Exit c, st')
    /\ (files (fs st') = files (fs st)
        \/ c = 0%Z
           /\ files (fs st') = <[absoluteOutputPath p := finalHtml]> (files (fs st))).
Proof.
  intros Hprepare Hmerge.
  pose proof (keepsFiles_prepare env st) as Hfs. rewrite Hprepare in Hfs. cbn in Hfs.
  unfold main, mbind, eff_bind, bindEff. rewrite Hprepare.
  unfold tryCatchEff at 1, lift. rewrite Hmerge.
  unfold writeStep, tryCatchEff, mbind, eff_bind, bindEff, mkdir, writeFile, consoleLog,
    processExit.
  destruct (writeFault env (Path.dir (absoluteOutputPath p))) as [e |].
  - destruct (exitWithError_run (A:=unit) "Failed to write output" (Some (filePath p))
                (asErrorOpt (ThrownError e)) st1) as (st' & -> & Hkeep).
    exists 1%Z, st'. split; [reflexivity |]. left. congruence.
  - cbn [fs files directories]. destruct (writeFault env (absoluteOutputPath p)) as [e |].
    + match goal with
      | |- context [exitWithError (A:=unit) ?m ?f ?c ?s] =>
          destruct (exitWithError_run (A:=unit) m f c s) as (st' & -> & Hkeep)
      end.
      exists 1%Z, st'. split; [reflexivity |]. left. rewrite Hkeep. cbn. congruence.
    + eexists 0%Z, _. split; [reflexivity |]. right. split; [reflexivity |].
      cbn. congruence.
Qed.

(** X15.  The function-based worker never returns.  It ends by
    [process.exit], or by an exception that a statement outside the [try]
    statements of [main] has thrown before the merge, with the file system
    as it was.  Such an exception is a [TypeError] (the parsed configuration
    is [null], or holds something else than a string where a path is needed
    or a value that does not convert to a string, or the module has no
    exports), or it is what the reading of the export has thrown.  When the
    text parses to the configuration the renderer passes, every module has
    exports and reading them does not throw, the worker ends by
    [process.exit].  It writes at most one file: after a run the files are
    the ones it started with, or those with the output path set to the
    merged page, and the latter only together with exit code 0 and after a
    merge that has returned that page. *)
Theorem worker_writes_only_the_merged_page st :
  (exists r st',
      main env st = (r, st')
      /\ match r with
         | Normal _ => False
         | Throw t =>
             (isTypeError t \/ thrownByExport env t)
             /\ fs st' = fs st /\ prepare env st = (Throw t, st')
         | Exit c =>
             files (fs st') = files (fs st)
             \/ c = 0%Z
                /\ exists p st1 finalHtml,
                     prepare env st = (Normal p, st1)
                     /\ mergeStep env p = Normal finalHtml
                     /\ files (fs st')
                        = <[absoluteOutputPath p := finalHtml]> (files (fs st))
         end)
  /\ (forall config,
         (forall configJson parsed,
             jsonParse env configJson = Some parsed -> parsed = ofRenderConfig config) ->
         (forall path missing, requireFromCwd env path <> Normal (NoExports missing)) ->
         (forall t, ~ thrownByExport env t) ->
         exists c st', main env st = (Exit c, st')).
Proof.
  assert (Hrun : exists r st',
             main env st = (r, st')
             /\ match r with
                | Normal _ => False
                | Throw t =>
                    (isTypeError t \/ thrownByExport env t)
                    /\ fs st' = fs st /\ prepare env st = (Throw t, st')
                | Exit c =>
                    files (fs st') = files (fs st)
                    \/ c = 0%Z
                       /\ exists p st1 finalHtml,
                            prepare env st = (Normal p, st1)
                            /\ mergeStep env p = Normal finalHtml
                            /\ files (fs st')
                               = <[absoluteOutputPath p := finalHtml]> (files (fs st))
                end).
  { pose proof (keepsFiles_prepare env st) as Hfs.
    destruct (prepare env st) as [[p | t | c] st1] eqn:Hprepare; cbn [snd] in Hfs.
    - destruct (mergeStep env p) as [finalHtml | t | c] eqn:Hmerge.
      + destruct (main_after_merge st p st1 finalHtml Hprepare Hmerge)
          as (c & st' & Hmain & Hcases).
        exists (Exit c), st'. split; [exact Hmain |].
        destruct Hcases as [Hsame | [Hzero Hwritten]]; [now left | right].
        split; [exact Hzero |]. now exists p, st1, finalHtml.
      + destruct (main_failed_merge env st p st1 t Hprepare Hmerge)
          as (st' & Hmain & Hkeep).
        exists (Exit 1%Z), st'. split; [exact Hmain |]. left. now rewrite Hkeep.
      + exists (Exit c), st1. split; [| left; now rewrite Hfs].
        unfold main, mbind, eff_bind, bindEff. rewrite Hprepare.
        unfold tryCatchEff, lift. now rewrite Hmerge.
    - exists (Throw t), st1. split.
      + unfold main, mbind, eff_bind, bindEff. now rewrite Hprepare.
      + split; [exact (prepare_escapes st t st1 Hprepare) |]. now split.
    - exists (Exit c), st1. split; [| left; now rewrite Hfs].
      unfold main, mbind, eff_bind, bindEff. now rewrite Hprepare. }
  split; [exact Hrun |].
  intros config Hconfig Hmodule Hgetters.
  destruct Hrun as ([a | t | c] & st' & Hmain & Hcases).
  - contradiction.
  - destruct Hcases as (_ & _ & Hprepare).
    now apply (prepare_of_renderer config st Hconfig Hmodule), Hgetters in Hprepare.
  - now exists c, st'.
Qed.

End Current.

Section Legacy.
Context {P : Path.Api}.
Variable env : Env Legacy.RenderConfig.

(** A [try] whose [catch] prints and exits with code 1. *)
Lemma tryCatch_exits {A} (body : Eff A) (handler : Thrown -> Eff A) st :
  (forall t s, exists s', handler t s = (Exit 1%Z, s') /\ fs s' = fs s) ->
  match body st with
  | (Throw t, s1) =>
      exists s', tryCatchEff body handler st = (Exit 1%Z, s') /\ fs s' = fs s1
  | other => tryCatchEff body handler st = other
  end.
Proof.
  intros Hhandler. unfold tryCatchEff.
  destruct (body st) as [[a | t | c] s1]; [reflexivity | apply Hhandler | reflexivity].
Qed.

(** [writeOutput] writes the file or throws. *)
Lemma writeOutput_cases content outputPath filePath st :
  (exists st', writeOutput env content outputPath filePath st = (Normal tt, st')
               /\ files (fs st') = <[outputPath := content]> (files (fs st)))
  \/ (exists t st', writeOutput env content outputPath filePath st = (Throw t, st')
                    /\ files (fs st') = files (fs st)).
Proof.
  unfold writeOutput, tryCatchEff, mbind, eff_bind, bindEff, mkdir, writeFile, lift.
  destruct (writeFault env (Path.dir outputPath)); [right; now eexists _, _ |].
  cbn [fs files directories].
  destruct (writeFault env outputPath); [right; now eexists _, _ | left; now eexists].
Qed.

(** What the class-based worker leaves behind. *)
Lemma legacyMain_writes st :
  exists c st',
    legacyMain env st = (Exit c, st')
    /\ (files (fs st') = files (fs st)
        \/ c = 0%Z
           /\ exists filePath configJson config p merged st1 finalHtml,
                parseWorkerArgs env = Normal (filePath, configJson)
                /\ parseConfig env configJson = Normal config
                /\ legacyPrepare env filePath config = Normal p
                /\ legacyTemplateStep env filePath config p st = (Normal merged, st1)
                /\ formatWithPrettier env merged (Legacy.prettierConfig config) filePath
                   = Normal finalHtml
                /\ files (fs st')
                   = <[lp_absoluteOutputPath p := finalHtml]> (files (fs st))).
Proof.
  unfold legacyMain.
  match goal with
  | |- context [tryCatchEff ?body ?handler st] =>
      assert (Hhandler : forall t s, exists s', handler t s = (Exit 1%Z, s') /\ fs s' = fs s);
      [| pose proof (tryCatch_exits body handler st Hhandler) as Hrun;
         clear Hhandler; revert Hrun;
         generalize (tryCatchEff body handler st) ]
  end.
  { intros t s. unfold mbind, eff_bind, bindEff, consoleError, whenSome, processExit.
    destruct t as [e | shown]; [| now eexists].
    destruct (instanceofRenderError e); [| now eexists].
    cbn. destruct (truthy (Js.filePath e)), (cause e); now eexists. }
  intros result.
  assert (Hthrown : forall s1,
             files (fs s1) = files (fs st) ->
             (exists s', result = (Exit 1%Z, s') /\ fs s' = fs s1) ->
             exists c st',
               result = (Exit c, st')
               /\ (files (fs st') = files (fs st)
                   \/ c = 0%Z
                      /\ exists filePath configJson config p merged st1 finalHtml,
                           parseWorkerArgs env = Normal (filePath, configJson)
                           /\ parseConfig env configJson = Normal config
                           /\ legacyPrepare env filePath config = Normal p
                           /\ legacyTemplateStep env filePath config p st
                              = (Normal merged, st1)
                           /\ formatWithPrettier env merged (Legacy.prettierConfig config)
                                filePath = Normal finalHtml
                           /\ files (fs st')
                              = <[lp_absoluteOutputPath p := finalHtml]> (files (fs st)))).
  { intros s1 Hsame (s' & -> & Hkeep). exists 1%Z, s'. split; [reflexivity |].
    left. now rewrite Hkeep. }
  unfold renderWorker, mbind, eff_bind, bindEff, lift, processExit, consoleLog.
  destruct (parseWorkerArgs env) as [[filePath configJson] | t | c] eqn:Hargs;
    [| intros H; now apply (Hthrown st) | intros ->; now eexists _, _; eauto].
  cbn [fst snd].
  destruct (parseConfig env configJson) as [config | t | c] eqn:Hconfig;
    [| intros H; now apply (Hthrown st) | intros ->; eexists _, _; eauto].
  destruct (legacyPrepare env filePath config) as [p | t | c] eqn:Hprepare;
    [| intros H; now apply (Hthrown st) | intros ->; eexists _, _; eauto].
  pose proof (keepsFiles_legacyTemplateStep env filePath config p st) as Hfs.
  destruct (legacyTemplateStep env filePath config p st) as [[merged | t | c] st1] eqn:Hstep;
    cbn [snd] in Hfs;
    [| intros H; apply (Hthrown st1); [now rewrite Hfs | exact H]
     | intros ->; eexists _, _; split; [reflexivity | left; now rewrite Hfs]].
  destruct (formatWithPrettier env merged (Legacy.prettierConfig config) filePath)
    as [finalHtml | t | c] eqn:Hformat;
    [| intros H; apply (Hthrown st1); [now rewrite Hfs | exact H]
     | intros ->; eexists _, _; split; [reflexivity | left; now rewrite Hfs]].
  destruct (writeOutput_cases finalHtml (lp_absoluteOutputPath p) filePath st1)
    as [(st2 & -> & Hwritten) | (t & st2 & -> & Hsame)].
  - intros ->. eexists 0%Z, _. split; [reflexivity |]. right. split; [reflexivity |].
    exists filePath, configJson, config, p, merged, st1, finalHtml.
    repeat split; try assumption. cbn [fs files]. now rewrite Hwritten, Hfs.
  - intros H. apply (Hthrown st2); [now rewrite Hsame, Hfs | exact H].
Qed.

(** One of the three calls of [main], [parseWorkerArgs], [parseConfig] and
    [renderWorker], throws: the worker exits with code 1. *)
Lemma legacyMain_thrown st t :
  parseWorkerArgs env = Throw t
  \/ (exists filePath configJson,
         parseWorkerArgs env = Normal (filePath, configJson)
         /\ (parseConfig env configJson = Throw t
             \/ exists config st1,
                  parseConfig env configJson = Normal config
                  /\ renderWorker env filePath config st = (Throw t, st1))) ->
  exists st', legacyMain env st = (Exit 1%Z, st').
Proof.
  intros Hthrown. unfold legacyMain.
  match goal with
  | |- context [tryCatchEff ?body ?handler st] =>
      assert (Hhandler : forall t s, exists s', handler t s = (Exit 1%Z, s'));
      [| assert (Hbody : exists st1, body st = (Throw t, st1)) ]
  end.
  - intros t0 s. unfold mbind, eff_bind, bindEff, consoleError, whenSome, processExit.
    destruct t0 as [e | shown]; [| now eexists].
    destruct (instanceofRenderError e); [| now eexists].
    cbn. destruct (truthy (Js.filePath e)), (cause e); now eexists.
  - unfold mbind, eff_bind, bindEff, lift.
    destruct Hthrown as [-> | (filePath & configJson & -> & Hthrown)];
      [now eexists |].
    cbn [fst snd].
    destruct Hthrown as [-> | (config & st1 & -> & Hworker)]; [now eexists |].
    rewrite Hworker. now eexists.
  - destruct Hbody as [st1 Hbody]. unfold tryCatchEff. rewrite Hbody. apply Hhandler.
Qed.

(** X16.  The class-based worker always ends by [process.exit], and with
    code 1 whenever one of the three calls of [main] ([parseWorkerArgs],
    [parseConfig], [renderWorker]) throws.  It writes at most one file:
    after any run the files are the ones it started with, or those with the
    output path set to the formatted result of the template step, and the
    latter only together with exit code 0. *)
Theorem legacy_worker_writes_only_the_final_page st :
  exists c st',
    legacyMain env st = (Exit c, st')
    /\ (files (fs st') = files (fs st)
        \/ c = 0%Z
           /\ exists filePath configJson config p merged st1 finalHtml,
                parseWorkerArgs env = Normal (filePath, configJson)
                /\ parseConfig env configJson = Normal config
                /\ legacyPrepare env filePath config = Normal p
                /\ legacyTemplateStep env filePath config p st = (Normal merged, st1)
                /\ formatWithPrettier env merged (Legacy.prettierConfig config) filePath
                   = Normal finalHtml
                /\ files (fs st')
                   = <[lp_absoluteOutputPath p := finalHtml]> (files (fs st)))
    /\ (forall t,
           parseWorkerArgs env = Throw t
           \/ (exists filePath configJson,
                  parseWorkerArgs env = Normal (filePath, configJson)
                  /\ (parseConfig env configJson = Throw t
                      \/ exists config st1,
                           parseConfig env configJson = Normal config
                           /\ renderWorker env filePath config st = (Throw t, st1))) ->
           c = 1%Z).
Proof.
  destruct (legacyMain_writes st) as (c & st' & Hmain & Hfiles).
  exists c, st'. split; [exact Hmain |]. split; [exact Hfiles |].
  intros t Hthrown. apply legacyMain_thrown in Hthrown as [st1 Hexit].
  rewrite Hexit in Hmain. now injection Hmain as <- _.
Qed.

(** X17.  Without a template the class-based worker still produces a page: when
    the template of the entry point does not exist, or is an empty file, the
    template step returns the standalone page, which holds the rendered
    markup in a [div] with the id of the mount info. *)
Theorem missing_template_gives_a_standalone_page filePath config p templateDir st :
  truthy (Legacy.templateDir config) = Some templateDir ->
  readFault env (Path.join templateDir (lp_outputPath p)) = None ->
  truthy (files (fs st) !! Path.join templateDir (lp_outputPath p)) = None ->
  legacyTemplateStep env filePath config p st
  = (Normal (createStandaloneHtml (lp_html p) (lp_styles p) (lp_mountInfo p)), st)
  /\ Str.includes (createStandaloneHtml (lp_html p) (lp_styles p) (lp_mountInfo p))
       ("<div " +:+ attribute "id" (rootElementId (lp_mountInfo p)) +:+ ">"
        +:+ lp_html p +:+ "</div>")
     = true.
Proof.
  intros Hdir Hfault Hfile. split.
  - unfold legacyTemplateStep. rewrite Hdir.
    unfold loadTemplate, tryCatchEff, mbind, eff_bind, bindEff, readFile, ret.
    rewrite Hfault.
    destruct (files (fs st) !! Path.join templateDir (lp_outputPath p)) as [text |].
    + cbn in Hfile |- *. destruct (Str.isEmpty text); [reflexivity | discriminate].
    + reflexivity.
  - unfold createStandaloneHtml. eapply includes_part.
    + apply includes_join. do 9 right. left. reflexivity.
    + match goal with
      | |- Str.includes _ ?text = true => exact (includes_end "  " text)
      end.
Qed.

End Legacy.



(** X18.  In the class-based worker the choice of the engine, configured,
    detected from the template or selected by the extension of the template,
    does not change the page: unless a custom merge function is configured,
    the merge returns a page exactly when the function-based Liquid merge
    returns it, whatever the engine; and when it fails, it fails with a
    [RenderError] with the code [WORKER_TEMPLATE_MERGE_ERROR] and the path of
    the entry point. *)
Theorem engine_choice_does_not_change_the_page template html styles mountInfo
  (config : Legacy.RenderConfig) templatePath filePath :
  match Legacy.templateMergeStrategy config with
  | Some strategy => String.eqb strategy "custom"
  | None => false
  end && Legacy.customMergeFunction config = false ->
  match mergeWithTemplate template html styles mountInfo config templatePath filePath with
  | Normal page =>
      mergeLiquidTemplate (contextOf template html styles mountInfo) = Normal page
  | Throw t =>
      (exists e,
          t = ThrownError e /\ instanceofRenderError e = true
          /\ code e = Some "WORKER_TEMPLATE_MERGE_ERROR"
          /\ Js.filePath e = Some filePath)
      /\ exists thrown,
           mergeLiquidTemplate (contextOf template html styles mountInfo) = Throw thrown
  | Exit _ => False
  end.
Proof.
  intros Hcustom. unfold mergeWithTemplate. rewrite Hcustom.
  match goal with
  | |- context [merge ?kind template html styles mountInfo] =>
      pose proof (EnginesProps.merge_agrees
                    kind template html styles mountInfo) as Hmerge;
      destruct (merge kind template html styles mountInfo) as [page | error]
  end; cbn.
  - exact Hmerge.
  - destruct Hmerge as (_ & inner & thrown & _ & _ & Hthrow & _).
    split; [eexists; repeat split | now exists (ThrownError thrown)].
Qed.


(** Witness: the worker that the renderer starts for the home page of the
    sample site ends by [process.exit]. *)
Lemma worker_writes_only_the_merged_page_witness :
  exists c st',
    main (P:=Path.posix) (Examples.workerEnv (ofRenderConfig Examples.config))
      Examples.site
    = (Exit c, st').
Proof.
  refine (proj2 (worker_writes_only_the_merged_page (P:=Path.posix)
                   (Examples.workerEnv (ofRenderConfig Examples.config)) Examples.site)
            Examples.config _ _ _).
  - intros configJson parsed [= <-]. reflexivity.
  - intros path missing. discriminate.
  - intros t (path & get & key & [= <-] & Hget). cbn in Hget. discriminate.
Defined.
(** Witness: the template of the home page has no root element, the merge
    in [renderWorker] throws, and the class-based worker exits with code 1. *)
Lemma legacy_worker_writes_only_the_final_page_witness :
  exists st',
    legacyMain (P:=Path.posix) (Examples.workerEnv Examples.legacyConfig) Examples.bareSite
    = (Exit 1%Z, st').
Proof.
  destruct (legacy_worker_writes_only_the_final_page (P:=Path.posix)
              (Examples.workerEnv Examples.legacyConfig) Examples.bareSite)
    as (c & st' & Hmain & _ & Hthrown).
  assert (Hworker : exists t st1,
             renderWorker (P:=Path.posix) (Examples.workerEnv Examples.legacyConfig)
               "pages/home.tsx" Examples.legacyConfig Examples.bareSite
             = (Throw t, st1)) by (eexists _, _; reflexivity).
  destruct Hworker as (t & st1 & Hworker).
  assert (Hone : c = 1%Z).
  { apply (Hthrown t). right. exists "pages/home.tsx", "{}". split; [reflexivity |].
    right. exists Examples.legacyConfig, st1. split; [reflexivity | exact Hworker]. }
  exists st'. rewrite <- Hone. exact Hmain.
Defined.

(** Witness: the home page of a site without templates. *)
Lemma missing_template_gives_a_standalone_page_witness :
  fst (legacyTemplateStep (P:=Path.posix) (Examples.workerEnv Examples.legacyConfig)
         "pages/home.tsx" Examples.legacyConfig Examples.preparedHome Examples.emptySite)
  = Normal (createStandaloneHtml "<h1>Hi</h1>" EmptyString Examples.rootMount).
Proof.
  exact (f_equal fst
           (proj1 (missing_template_gives_a_standalone_page (P:=Path.posix)
                     (Examples.workerEnv Examples.legacyConfig) "pages/home.tsx"
                     Examples.legacyConfig Examples.preparedHome "/app/templates"
                     Examples.emptySite eq_refl eq_refl eq_refl))).
Defined.

(** Witness: the sample configuration asks for the Liquid engine. *)
Lemma engine_choice_does_not_change_the_page_witness :
  mergeLiquidTemplate (contextOf Examples.pageTemplate "<h1>Hi</h1>" EmptyString
                         Examples.rootMount)
  = Normal "<main><div id='root' class='app'><h1>Hi</h1></div></main>".
Proof.
  pose proof (engine_choice_does_not_change_the_page Examples.pageTemplate "<h1>Hi</h1>"
                EmptyString Examples.rootMount Examples.legacyConfig
                "/app/templates/pages/home.html" "pages/home.tsx" eq_refl) as H.
  assert (Hmerged : mergeWithTemplate Examples.pageTemplate "<h1>Hi</h1>" EmptyString
                      Examples.rootMount Examples.legacyConfig
                      "/app/templates/pages/home.html" "pages/home.tsx"
                    = Normal "<main><div id='root' class='app'><h1>Hi</h1></div></main>")
    by (vm_compute; reflexivity).
  rewrite Hmerged in H. exact H.
Defined.

End WorkerProps.

(* ===================================================================== *)
(** * Properties of the [init] command *)
(* ===================================================================== *)

Module InitFacts.
Import Js Worker Init.

Section Init.
Context {P : Path.Api}.
Variable readFault : string -> option JsError.
Variable writeFault : string -> option JsError.

Lemma refuseExisting_cases force st :
  (force = false /\ configExists readFault st
   /\ exists st', refuseExisting readFault force st = (Exit 1%Z, st') /\ fs st' = fs st)
  \/ ((force = true \/ ~ configExists readFault st)
      /\ refuseExisting readFault force st = (Normal tt, st)).
Proof.
  unfold refuseExisting, tryCatchEff, configExists.
  destruct force; cbn [negb]; [right; split; [now left | reflexivity] |].
  unfold mbind, eff_bind, bindEff, readFile, consoleError, processExit.
  destruct (readFault (configPath)) as [e |] eqn:Hfault.
  - right. split; [| reflexivity]. right. intros [Hnone _]. discriminate.
  - destruct (files (fs st) !! configPath) as [text |] eqn:Hfile.
    + left. split; [reflexivity |]. split; [split; [reflexivity | now eexists] |].
      now eexists.
    + right. split; [| reflexivity]. right. intros [_ [x Hx]]. discriminate.
Qed.

(** X19.  [init] never overwrites a configuration file that exists unless
    [--force] is given: without the flag and with a readable file it exits
    with code 1 and the file system is as before.  In every run, of either
    version, the files afterwards are the files before, or those with the
    configuration path set to the new content; the latter only with
    [--force] or when no configuration file could be read. *)
Theorem init_overwrites_only_with_force force st :
  (force = false -> configExists readFault st ->
   (forall answers,
       exists st', initAction readFault writeFault force answers st = (Exit 1%Z, st')
                   /\ fs st' = fs st)
   /\ (forall defaultContent,
          exists st',
            legacyInitAction readFault writeFault force defaultContent st = (Exit 1%Z, st')
            /\ fs st' = fs st))
  /\ (forall answers,
         let st' := snd (initAction readFault writeFault force answers st) in
         files (fs st') = files (fs st)
         \/ (force = true \/ ~ configExists readFault st)
            /\ exists content,
                 answers = Normal content
                 /\ files (fs st') = <[configPath := content]> (files (fs st)))
  /\ (forall defaultContent,
         let st' := snd (legacyInitAction readFault writeFault force defaultContent st) in
         files (fs st') = files (fs st)
         \/ (force = true \/ ~ configExists readFault st)
            /\ files (fs st') = <[configPath := defaultContent]> (files (fs st))).
Proof.
  destruct (refuseExisting_cases force st)
    as [(Hforce & Hexists & st1 & Hrefuse & Hkeep) | [Hallowed Hpass]].
  - split; [| split].
    + intros _ _. split.
      * intros answers. exists st1. unfold initAction, mbind, eff_bind, bindEff.
        now rewrite Hrefuse.
      * intros defaultContent. exists st1.
        unfold legacyInitAction, mbind, eff_bind, bindEff. now rewrite Hrefuse.
    + intros answers st'. left. subst st'.
      unfold initAction, mbind, eff_bind, bindEff. rewrite Hrefuse. cbn. now rewrite Hkeep.
    + intros defaultContent st'. left. subst st'.
      unfold legacyInitAction, mbind, eff_bind, bindEff. rewrite Hrefuse. cbn.
      now rewrite Hkeep.
  - split; [| split].
    + intros Hforce Hexists. destruct Hallowed as [Htrue | Hnot]; [congruence | contradiction].
    + intros answers st'. subst st'.
      unfold initAction, mbind, eff_bind, bindEff. rewrite Hpass.
      unfold consoleLog, lift, writeFile. cbn [fs console].
      destruct answers as [content | t | c]; [| now left | now left].
      destruct (writeFault configPath); [now left |].
      right. split; [exact Hallowed |]. now exists content.
    + intros defaultContent st'. subst st'.
      unfold legacyInitAction, mbind, eff_bind, bindEff. rewrite Hpass.
      unfold consoleLog, writeFile. cbn [fs console].
      destruct (writeFault configPath); [now left |]. right. now split.
Qed.

End Init.

(** Witness: [init] without [--force] on a site that has a configuration. *)
Lemma init_overwrites_only_with_force_witness :
  exists st',
    legacyInitAction (P:=Path.posix) Examples.noFault Examples.noFault false "{}"
      Examples.configuredSite
    = (Exit 1%Z, st')
    /\ fs st' = fs Examples.configuredSite.
Proof.
  refine (proj2 (proj1 (init_overwrites_only_with_force (P:=Path.posix) Examples.noFault
                          Examples.noFault false Examples.configuredSite)
                   eq_refl _) "{}").
  split; [reflexivity | exists "{}"; vm_compute; reflexivity].
Defined.

End InitFacts.

(* ===================================================================== *)
(** * Properties of the configuration loader *)
(* ===================================================================== *)

Module ConfigLoaderFacts.
Import Js Cli ConfigLoader.

Section Loader.
Context {P : Path.Api} {J C : Type}.
Variable env : LoaderEnv J C.

(** X20.  Without a configuration path the loader takes the first default file
    that can be read, in the order of the list, and no other: the files
    before it could not be read, the files after it are not looked at.  When
    none can be read it fails with [CONFIG_NOT_FOUND]. *)
Theorem default_config_is_the_first_readable defaultPaths :
  match loadConfigSource env defaultPaths None with
  | Normal source =>
      exists before p after,
        defaultPaths = before ++ p :: after
        /\ Forall (unreadable env) before
        /\ path source = Path.resolve p
        /\ readText env (Path.resolve p) = Normal (content source)
  | Throw t =>
      Forall (unreadable env) defaultPaths
      /\ t = ThrownError (newRenderError notFoundMessage "CONFIG_NOT_FOUND" None None)
  | Exit c =>
      exists before p after,
        defaultPaths = before ++ p :: after
        /\ Forall (unreadable env) before
        /\ readText env (Path.resolve p) = Exit c
  end.
Proof.
  cbn [loadConfigSource].
  induction defaultPaths as [| p rest IH]; cbn [firstReadable].
  - split; [constructor | reflexivity].
  - destruct (readText env (Path.resolve p)) as [text | t | c] eqn:Hread.
    + exists [], p, rest. repeat split; [constructor | exact Hread].
    + assert (Hp : unreadable env p) by now exists t.
      destruct (firstReadable env rest) as [source | t' | c].
      * destruct IH as (before & q & after & -> & Hbefore & Hpath & Hq).
        exists (p :: before), q, after. repeat split; [now constructor | assumption..].
      * destruct IH as [Hall ->]. split; [now constructor | reflexivity].
      * destruct IH as (before & q & after & -> & Hbefore & Hq).
        exists (p :: before), q, after. repeat split; [now constructor | assumption].
    + exists [], p, rest. repeat split; [constructor | exact Hread].
Qed.

(** What [loadWith] returns, whatever the two steps are. *)
Lemma loadWith_checked defaultPaths parse check configPath :
  match loadWith env defaultPaths parse check configPath with
  | Normal (Loaded config) =>
      exists source data,
        loadConfigSource env defaultPaths configPath = Normal source
        /\ parse source = Normal data
        /\ check (assignDefaults env data) = Normal config
  | Normal (LoadFailed e) => instanceofRenderError e = true
  | Throw _ => False
  | Exit _ => True
  end.
Proof.
  assert (Hcaught : forall t,
             match match t with
                   | ThrownError e =>
                       if instanceofRenderError e then Normal (LoadFailed e)
                       else Normal (LoadFailed (unknownError t))
                   | ThrownValue _ => Normal (LoadFailed (C:=C) (unknownError t))
                   end with
             | Normal (Loaded _) => False
             | Normal (LoadFailed e) => instanceofRenderError e = true
             | Throw _ => False
             | Exit _ => True
             end).
  { intros [e | shown]; [| reflexivity].
    destruct (instanceofRenderError e) eqn:He; [exact He | reflexivity]. }
  unfold loadWith.
  destruct (loadConfigSource env defaultPaths configPath) as [source | t | c];
    cbn; [| specialize (Hcaught t); destruct t; [destruct (instanceofRenderError _) |];
            exact Hcaught | exact I].
  destruct (parse source) as [data | t | c] eqn:Hparse;
    cbn; [| specialize (Hcaught t); destruct t; [destruct (instanceofRenderError _) |];
            exact Hcaught | exact I].
  destruct (check (assignDefaults env data)) as [config | t | c] eqn:Hcheck;
    cbn; [| specialize (Hcaught t); destruct t; [destruct (instanceofRenderError _) |];
            exact Hcaught | exact I].
  exists source, data. split; [reflexivity |]. now split.
Qed.

Lemma validateConfig_accepts data config :
  validateConfig env data = Normal config -> validate env data = Normal (inl config).
Proof.
  unfold validateConfig. destruct (validate env data) as [[value | details] | t | c];
    try discriminate. now intros [= ->].
Qed.

Lemma legacyValidateConfig_accepts data config :
  legacyValidateConfig env data = Normal config -> validate env data = Normal (inl config).
Proof.
  unfold legacyValidateConfig, mbind, completion_bind, bind.
  destruct (validate env data) as [[value | details] | t | c]; try discriminate.
  now intros [= ->].
Qed.

(** X21.  [loadConfig] never throws: it returns a result, a loaded
    configuration or a failure.  A loaded configuration is what the schema
    has returned for the contents of a configuration file, merged over the
    defaults: no configuration gets past the loader unvalidated.  The error
    of a failure is always a [RenderError]. *)
Theorem loadConfig_returns_only_validated_configurations configPath :
  match loadConfig env configPath with
  | Normal (Loaded config) =>
      exists source data,
        loadConfigSource env defaultConfigPaths configPath = Normal source
        /\ parseConfigData env source = Normal data
        /\ validate env (assignDefaults env data) = Normal (inl config)
  | Normal (LoadFailed e) => instanceofRenderError e = true
  | Throw _ => False
  | Exit _ => True
  end
  /\ match legacyLoadConfig env configPath with
     | Normal (Loaded config) =>
         exists source data,
           loadConfigSource env legacyDefaultConfigPaths configPath = Normal source
           /\ legacyParseConfigData env source = Normal data
           /\ validate env (assignDefaults env data) = Normal (inl config)
     | Normal (LoadFailed e) => instanceofRenderError e = true
     | Throw _ => False
     | Exit _ => True
     end.
Proof.
  split.
  - unfold loadConfig.
    pose proof (loadWith_checked defaultConfigPaths (parseConfigData env)
                  (validateConfig env) configPath) as H.
    destruct (loadWith _ _ _ _ _) as [[config | e] | t | c]; try exact H.
    destruct H as (source & data & Hsource & Hparse & Hcheck).
    exists source, data. auto using validateConfig_accepts.
  - unfold legacyLoadConfig.
    pose proof (loadWith_checked legacyDefaultConfigPaths (legacyParseConfigData env)
                  (legacyValidateConfig env) configPath) as H.
    destruct (loadWith _ _ _ _ _) as [[config | e] | t | c]; try exact H.
    destruct H as (source & data & Hsource & Hparse & Hcheck).
    exists source, data. auto using legacyValidateConfig_accepts.
Qed.

(** X22.  A configuration path given on the command line is the only file
    looked at.  When it cannot be read the loader fails with
    [CONFIG_READ_ERROR], the resolved path and the cause, and does not fall
    back to the default files; when its text is not JSON the loader fails
    with [CONFIG_PARSE_ERROR] and the resolved path. *)
Theorem explicit_config_path_has_no_fallback configPath :
  configPath <> EmptyString ->
  (forall t,
      readText env (Path.resolve configPath) = Throw t ->
      let error := newRenderError ("Failed to load config from " +:+ configPath)
                     "CONFIG_READ_ERROR" (Some (Path.resolve configPath))
                     (Some (asError t)) in
      loadConfig env (Some configPath) = Normal (LoadFailed error)
      /\ legacyLoadConfig env (Some configPath) = Normal (LoadFailed error))
  /\ (forall text t,
         readText env (Path.resolve configPath) = Normal text ->
         parseJson env text = Throw t ->
         loadConfig env (Some configPath)
         = Normal (LoadFailed
                     (parseError {| path := Path.resolve configPath; content := text |}
                        t))).
Proof.
  intros Hpath. destruct configPath as [| c0 p0] eqn:Hp; [contradiction |].
  rewrite <- Hp. assert (Hne : Str.isEmpty configPath = false) by now subst.
  clear Hp Hpath. split.
  - intros t Hread error.
    unfold loadConfig, legacyLoadConfig, loadWith, loadConfigSource.
    rewrite Hne. cbv zeta. rewrite Hread. split; reflexivity.
  - intros text t Hread Hparse.
    unfold loadConfig, loadWith, loadConfigSource, parseConfigData.
    rewrite Hne. cbv zeta. rewrite Hread. cbn. rewrite Hparse. reflexivity.
Qed.

End Loader.

(** Witness: a configuration path that names no file. *)
Lemma explicit_config_path_has_no_fallback_witness :
  exists e,
    loadConfig (P:=Path.posix) Examples.emptyLoader (Some "site.json")
    = Normal (LoadFailed e)
    /\ code e = Some "CONFIG_READ_ERROR".
Proof.
  eexists. split.
  - exact (proj1 (proj1 (explicit_config_path_has_no_fallback (P:=Path.posix)
                           Examples.emptyLoader "site.json" ltac:(discriminate))
                    _ eq_refl)).
  - reflexivity.
Defined.

End ConfigLoaderFacts.

(* ===================================================================== *)
(** * Detecting the template language *)
(* ===================================================================== *)

Module DetectionFacts.
Import Js RegExp Engines StrFacts RegExpFacts EnginesFacts EnginesProps.

Abbreviation plain := (MkFlags false false).

Lemma allAccepted_sameLine s : allAccepted (accepts plain CsAny) s = allAccepted sameLine s.
Proof. now apply allAccepted_ext. Qed.

(** What a pattern of two characters, anything on one line and two more
    characters matches. *)
Lemma marker_matches a b c d m :
  Matches plain [MkAtom (CsChar a) One; MkAtom (CsChar b) One; MkAtom CsAny (Star false);
                 MkAtom (CsChar c) One; MkAtom (CsChar d) One] m
  <-> exists inside,
        m = String a (String b EmptyString) +:+ inside +:+ String c (String d EmptyString)
        /\ allAccepted sameLine inside = true.
Proof.
  split.
  - intros HM.
    apply Matches_one_inv in HM as (x1 & m1 & -> & H1 & HM).
    apply Matches_one_inv in HM as (x2 & m2 & -> & H2 & HM).
    apply Matches_star_inv in HM as (inside & m3 & -> & Hin & HM).
    apply Matches_one_inv in HM as (x3 & m4 & -> & H3 & HM).
    apply Matches_one_inv in HM as (x4 & m5 & -> & H4 & HM).
    apply Matches_nil_inv in HM as ->.
    rewrite accepts_exact in H1, H2, H3, H4.
    apply Ascii.eqb_eq in H1 as <-, H2 as <-, H3 as <-, H4 as <-.
    exists inside. split; [reflexivity | now rewrite <- allAccepted_sameLine].
  - intros (inside & -> & Hin).
    rewrite !append_cons, append_empty.
    apply MatchesOne; [apply Ascii.eqb_refl |].
    apply MatchesOne; [apply Ascii.eqb_refl |].
    apply MatchesStar; [now rewrite allAccepted_sameLine |].
    apply MatchesOne; [apply Ascii.eqb_refl |].
    apply MatchesOne; [apply Ascii.eqb_refl | constructor].
Qed.

Lemma test_marker a b c d (re : Regex) t :
  re = MkRegex false [MkAtom (CsChar a) One; MkAtom (CsChar b) One;
                      MkAtom CsAny (Star false);
                      MkAtom (CsChar c) One; MkAtom (CsChar d) One] plain ->
  test re t = true
  <-> hasMarker (String a (String b EmptyString)) (String c (String d EmptyString)) t.
Proof.
  intros ->. rewrite test_spec by reflexivity. cbn [flags atoms]. unfold hasMarker. split.
  - intros (before & m & after & -> & HM). apply marker_matches in HM as (inside & -> & Hin).
    now exists before, inside, after.
  - intros (before & inside & after & -> & Hin). eexists before, _, after.
    split; [reflexivity |]. apply marker_matches. now exists inside.
Qed.

(** The third Liquid pattern finds nothing the second does not find. *)
Lemma trimmed_tag_is_a_tag t :
  test (literal "\{\%-.*?-%\}" EmptyString) t = true -> hasMarker "{%" "%}" t.
Proof.
  assert (Hre : literal "\{\%-.*?-%\}" EmptyString
                = MkRegex false [MkAtom (CsChar "{") One; MkAtom (CsChar "%") One;
                                 MkAtom (CsChar "-") One; MkAtom CsAny (Star false);
                                 MkAtom (CsChar "-") One; MkAtom (CsChar "%") One;
                                 MkAtom (CsChar "}") One] plain)
    by (vm_compute; reflexivity).
  rewrite Hre, test_spec by reflexivity. cbn [flags atoms].
  intros (before & m & after & -> & HM).
  apply Matches_one_inv in HM as (x1 & m1 & -> & H1 & HM).
  apply Matches_one_inv in HM as (x2 & m2 & -> & H2 & HM).
  apply Matches_one_inv in HM as (x3 & m3 & -> & H3 & HM).
  apply Matches_star_inv in HM as (inside & m4 & -> & Hin & HM).
  apply Matches_one_inv in HM as (x4 & m5 & -> & H4 & HM).
  apply Matches_one_inv in HM as (x5 & m6 & -> & H5 & HM).
  apply Matches_one_inv in HM as (x6 & m7 & -> & H6 & HM).
  apply Matches_nil_inv in HM as ->.
  rewrite accepts_exact in H1, H2, H3, H4, H5, H6.
  apply Ascii.eqb_eq in H1 as <-, H2 as <-, H3 as <-, H4 as <-, H5 as <-, H6 as <-.
  exists before, ("-" +:+ inside +:+ "-"), after. split.
  - repeat (rewrite append_cons || rewrite append_assoc || rewrite append_empty).
    reflexivity.
  - rewrite allAccepted_sameLine in Hin.
    rewrite !EnginesProps.allAccepted_app, Hin. reflexivity.
Qed.

Lemma isLiquidTemplate_spec t :
  isLiquidTemplate t = true <-> hasMarker "{{" "}}" t \/ hasMarker "{%" "%}" t.
Proof.
  unfold isLiquidTemplate. cbn [existsb]. rewrite !orb_true_iff.
  rewrite (test_marker "{" "{" "}" "}") by (vm_compute; reflexivity).
  rewrite (test_marker "{" "%" "%" "}") by (vm_compute; reflexivity).
  split.
  - intros [H | [H | [H | H]]]; [now left | now right | | discriminate].
    right. now apply trimmed_tag_is_a_tag.
  - intros [H | H]; [now left | right; now left].
Qed.

(** Up to letter case, [<?] is [<?] only. *)
Lemma same_as_lt y :
  Ascii.eqb (canonicalize "<") (canonicalize y) = true -> y = "<"%char.
Proof. destruct y as [[] [] [] [] [] [] [] []]; vm_compute; congruence. Qed.

Lemma same_as_question y :
  Ascii.eqb (canonicalize "?") (canonicalize y) = true -> y = "?"%char.
Proof. destruct y as [[] [] [] [] [] [] [] []]; vm_compute; congruence. Qed.

Lemma same_as_php_tag rest m :
  sameText (String "<" (String "?" rest)) m = true ->
  exists m', m = "<?" +:+ m'.
Proof.
  destruct m as [| a [| b m']]; cbn [sameText]; try discriminate;
    [rewrite andb_false_r; discriminate |].
  rewrite !andb_true_iff. intros (Ha & Hb & _). exists m'.
  apply same_as_lt in Ha as ->. apply same_as_question in Hb as ->. reflexivity.
Qed.

Lemma php_pattern_finds_tag (re : Regex) text t :
  re = MkRegex false (literalAtoms (String "<" (String "?" text))) (MkFlags true false) ->
  test re t = true -> Str.includes t "<?" = true.
Proof.
  intros -> Htest. apply test_spec in Htest as (before & m & after & -> & HM);
    [| reflexivity].
  cbn [flags atoms] in HM. apply Matches_literal_only in HM.
  apply same_as_php_tag in HM as (m' & ->).
  replace (before +:+ ("<?" +:+ m') +:+ after) with (before +:+ "<?" +:+ (m' +:+ after))
    by now rewrite !append_assoc.
  apply includes_append.
Qed.

Lemma isPHPTemplate_spec t : isPHPTemplate t = Str.includes t "<?".
Proof.
  unfold isPHPTemplate. cbn [existsb].
  destruct (Str.includes t "<?") eqn:Hin.
  - apply includes_split in Hin as (before & after & ->).
    assert (Hlast : test (literal "<\?" "i") (before +:+ "<?" +:+ after) = true).
    { apply test_spec; [reflexivity |]. exists before, "<?", after.
      split; [reflexivity |]. vm_compute literal. cbn [flags atoms].
      now apply (Matches_literal_only false "<?"). }
    rewrite Hlast. now rewrite !orb_true_r.
  - assert (Hnone : forall re text,
               re = MkRegex false (literalAtoms (String "<" (String "?" text)))
                      (MkFlags true false) ->
               test re t = false).
    { intros re text Hre. destruct (test re t) eqn:Htest; [| reflexivity].
      apply (php_pattern_finds_tag re text t Hre) in Htest. congruence. }
    rewrite (Hnone _ "php"), (Hnone _ "="), (Hnone _ EmptyString)
      by (vm_compute; reflexivity).
    reflexivity.
Qed.

(** X14.  A template is detected as Liquid exactly when it has [{{] and [}}],
    or [{%] and [%}], with no line break between them; otherwise as PHP
    exactly when [<?] occurs in it; otherwise the answer is [auto].  Liquid
    markers win over PHP tags. *)
Theorem detection_looks_for_markers template :
  (detectEngineFromTemplate template = "liquid"
   <-> hasMarker "{{" "}}" template \/ hasMarker "{%" "%}" template)
  /\ (detectEngineFromTemplate template = "php"
      <-> ~ (hasMarker "{{" "}}" template \/ hasMarker "{%" "%}" template)
          /\ Str.includes template "<?" = true)
  /\ (detectEngineFromTemplate template = "auto"
      <-> ~ (hasMarker "{{" "}}" template \/ hasMarker "{%" "%}" template)
          /\ Str.includes template "<?" = false).
Proof.
  unfold detectEngineFromTemplate. rewrite isPHPTemplate_spec.
  pose proof (isLiquidTemplate_spec template) as Hliquid.
  destruct (isLiquidTemplate template).
  - assert (Hmarked : hasMarker "{{" "}}" template \/ hasMarker "{%" "%}" template)
      by now apply Hliquid.
    split; [tauto |]. split; (split; [discriminate | tauto]).
  - assert (Hplain : ~ (hasMarker "{{" "}}" template \/ hasMarker "{%" "%}" template)).
    { intros H. apply Hliquid in H. discriminate. }
    destruct (Str.includes template "<?").
    + split; [split; [discriminate | tauto] |].
      split; [tauto |]. split; [discriminate | intros [_ H]; discriminate].
    + split; [split; [discriminate | tauto] |].
      split; [split; [discriminate | intros [_ H]; discriminate] | tauto].
Qed.

End DetectionFacts.
